(** * DocuFix: gap classification, edit reconciliation, cursor location and
      the approval life cycle

    A shallow embedding of the parts of the DocuFix proof of concept that its
    design document singles out as the core:

    - [TableEditor.js]: [hasGap], [isFilled], [handleCellChange];
    - [DocumentViewer.js]: the highlighting and tagging done by
      [loadDocument], the merge done by [handleSave], the search done by
      [restoreCursorPosition];
    - the review endpoint [review_submission] of [backend/main.py], as listed
      in [APPROVAL_FIX_DOCUMENTATION.md].

    JavaScript strings are sequences of UTF-16 code units.  Here a string is
    a Rocq [string], whose characters are read as the code units U+0000 to
    U+00FF; on that range [trim] and [toLowerCase] below are the ECMAScript
    functions. *)

From Stdlib Require Import Ascii String List Bool Arith Lia.
From stdpp Require Import base option list strings gmap pretty.


(** ** JavaScript string primitives *)

Module Js.

(** ECMAScript [WhiteSpace] and [LineTerminator] code points below U+0100:
    TAB, LF, VT, FF, CR, SPACE and NO-BREAK SPACE. *)
Definition isWhiteSpace (c : ascii) : bool :=
  match nat_of_ascii c with
  | 9 | 10 | 11 | 12 | 13 | 32 | 160 => true
  | _ => false
  end.

Fixpoint trimStart (s : string) : string :=
  match s with
  | EmptyString => EmptyString
  | String c s' => if isWhiteSpace c then trimStart s' else s
  end.

Fixpoint trimEnd (s : string) : string :=
  match s with
  | EmptyString => EmptyString
  | String c s' =>
      match trimEnd s' with
      | EmptyString => if isWhiteSpace c then EmptyString else String c EmptyString
      | r => String c r
      end
  end.

(** [String.prototype.trim] *)
Definition trim (s : string) : string := trimEnd (trimStart s).

(** Lower-casing of one code unit below U+0100: A-Z, and the Latin-1 capitals
    U+00C0..U+00DE except the multiplication sign U+00D7. *)
Definition lowerChar (c : ascii) : ascii :=
  let n := nat_of_ascii c in
  if ((65 <=? n)%nat && (n <=? 90)%nat)
     || ((192 <=? n)%nat && (n <=? 222)%nat && negb (n =? 215)%nat)
  then ascii_of_nat (n + 32) else c.

(** [String.prototype.toLowerCase] *)
Fixpoint toLowerCase (s : string) : string :=
  match s with
  | EmptyString => EmptyString
  | String c s' => String (lowerChar c) (toLowerCase s')
  end.

(** [String.prototype.startsWith] *)
Definition startsWith (s p : string) : bool := String.prefix p s.

(** [String.prototype.includes] *)
Fixpoint includes (s needle : string) : bool :=
  String.prefix needle s ||
  match s with
  | EmptyString => false
  | String _ s' => includes s' needle
  end.

(** [s.substring(0, n)] *)
Definition substring0 (n : nat) (s : string) : string := String.substring 0 n s.

(** Truthiness of a string: the empty string is the only falsy one. *)
Definition truthy (s : string) : bool := negb (String.eqb s "").

(** [Array.prototype.includes] on an array of strings. *)
Definition arrayIncludes (l : list string) (s : string) : bool :=
  existsb (String.eqb s) l.

(** [Array.prototype.forEach((x, idx) => ...)] over a state that the callback
    updates in place. *)
Fixpoint forEachFrom {A St : Type} (f : A → nat → St → St) (idx : nat)
    (l : list A) (s : St) : St :=
  match l with
  | [] => s
  | x :: l' => forEachFrom f (S idx) l' (f x idx s)
  end.

Definition forEach {A St : Type} (f : A → nat → St → St) (l : list A) (s : St) : St :=
  forEachFrom f 0 l s.

End Js.

(** ** The structure model

    The document structure served by the backend and edited by the
    front end: tables of rows of cells, and paragraphs.  Flag fields of a cell
    are only ever read through their truthiness, so an absent, [undefined],
    [null] or [false] flag is [false] here.  [original_has_gap] is also tested
    with [=== undefined], so it is an [option]: [None] is [undefined]. *)

Record Cell := mkCell {
  cell_id : string;
  text : option string;            (* [None]: no [text] property *)
  has_gap : bool;
  is_pending : bool;
  is_missing : bool;
  is_null : bool;
  is_empty : bool;
  original_has_gap : option bool;
  was_gap : bool;
  is_filled : bool
}.

Record Row := mkRow {
  row_id : string;
  cells : list Cell
}.

Record Table := mkTable {
  table_id : string;               (* [id] *)
  name : option string;
  column_headers : option (list string);
  rows : list Row
}.

Record Paragraph := mkParagraph {
  para_text : string
}.

Record DocumentStructure := mkStructure {
  paragraphs : option (list Paragraph);
  tables : option (list Table)
}.

(** A cell with a text and no flag set. *)
Definition freshCellOf (cellText : string) : Cell :=
  mkCell "" (Some cellText) false false false false false None false false.

(** ** TableEditor.js *)

Module TableEditor.

(** The pending test shared by [hasGap] and [handleCellChange]
    (lines 18-21 and 65-68). *)
Definition pendingText (text : string) : bool :=
  Js.includes text "(pending)"
  || Js.includes text "pending)"
  || Js.includes text "(pending"
  || String.eqb text "pending".

(** Lines 24-29 and 70-71. *)
Definition nullText (text : string) : bool :=
  String.eqb text "null" || String.eqb text "none" || String.eqb text "nil"
  || String.eqb text "n/a" || String.eqb text "na" || String.eqb text "n.a.".

Definition missingValues : list string :=
  [ "missing"; "not provided"; "not available"; "unavailable";
    "tbd"; "to be determined"; "t.b.d."; "tba"; "to be announced";
    "unknown"; "unk"; "" ].

(** [!text || missingValues.includes(text)] *)
Definition missingText (text : string) : bool :=
  negb (Js.truthy text) || Js.arrayIncludes missingValues text.

(** [(cell.text || "")] *)
Definition textOrEmpty (c : Cell) : string :=
  match text c with
  | Some t => t
  | None => ""
  end.

(** [hasGap], lines 8-38, for a cell that is present. *)
Definition hasGap (c : Cell) : bool :=
  let text := Js.toLowerCase (Js.trim (textOrEmpty c)) in
  if has_gap c || is_pending c || is_missing c || is_null c || is_empty c
  then true
  else
    let isPending := pendingText text in
    let isNull := nullText text in
    let isMissing := missingText text in
    isPending || isNull || isMissing.

(** [hasGap] on a possibly absent cell: [if (!cell) return false]. *)
Definition hasGap_opt (c : option Cell) : bool :=
  match c with
  | None => false
  | Some c => hasGap c
  end.

(** [cell.original_has_gap || cell.was_gap], line 44. *)
Definition hadGap (c : Cell) : bool :=
  match original_has_gap c with
  | Some true => true
  | _ => was_gap c
  end.

(** [isFilled], lines 41-47; the result is read through its truthiness. *)
Definition isFilled (c : Cell) : bool :=
  let hadGap := hadGap c in
  let hasValidContent :=
    match text c with
    | Some t => Js.truthy t && Js.truthy (Js.trim t) && negb (hasGap c)
    | None => false
    end in
  hadGap && hasValidContent.

(** The body of [handleCellChange] on the cell it addresses, lines 55-81. *)
Definition editCell (newValue : string) (c : Cell) : Cell :=
  (* Track if this cell originally had a gap (before editing) *)
  let '(orig, was) :=
    match original_has_gap c with
    | None => (hasGap c, hasGap c)
    | Some o => (o, was_gap c)
    end in
  (* Update gap indicators *)
  let text := Js.toLowerCase (Js.trim newValue) in
  let pending := pendingText text in
  let isNull := nullText text in
  let missing := missingText text in
  let empty := negb (Js.truthy text) || String.eqb text "" in
  let gap := pending || isNull || missing || empty in
  {| cell_id := cell_id c;
     text := Some newValue;
     has_gap := gap;
     is_pending := pending;
     is_missing := missing;
     is_null := isNull;
     is_empty := empty;
     original_has_gap := Some orig;
     was_gap := was;
     is_filled := orig && negb gap && (0 <? String.length (Js.trim newValue))%nat |}.

(** [handleCellChange(rowIdx, cellIdx, newValue)], lines 49-88, as a function
    of the table held by the component.  [None] is the [TypeError] of
    indexing a row or a cell that does not exist. *)
Definition handleCellChange (isLocked : bool) (rowIdx cellIdx : nat)
    (newValue : string) (tableData : Table) : option Table :=
  if isLocked then Some tableData
  else
    r ← rows tableData !! rowIdx;
    c ← cells r !! cellIdx;
    let r' := {| row_id := row_id r; cells := <[cellIdx := editCell newValue c]> (cells r) |} in
    Some {| table_id := table_id tableData;
            name := name tableData;
            column_headers := column_headers tableData;
            rows := <[rowIdx := r']> (rows tableData) |}.

(** The cell at a position, if any. *)
Definition cellAt (rowIdx cellIdx : nat) (t : Table) : option Cell :=
  r ← rows t !! rowIdx; cells r !! cellIdx.

(** One change event: the [isLocked] prop at the time, the position and the
    new value of the input. *)
Definition Edit : Type := bool * nat * nat * string.

(** A sequence of change events within one edit session. *)
Fixpoint applyEdits (es : list Edit) (t : Table) : option Table :=
  match es with
  | [] => Some t
  | (isLocked, rowIdx, cellIdx, newValue) :: es' =>
      t' ← handleCellChange isLocked rowIdx cellIdx newValue t;
      applyEdits es' t'
  end.

(** What the table body renders for the cell at [(rowIdx, cellIdx)],
    lines 158-168: the class of the [td]. *)
Inductive CellClass := CellFilled | CellGap | CellPlain.

Definition cellClass (rowIdx : nat) (c : Cell) : CellClass :=
  let isHeaderRow := (rowIdx =? 0)%nat in (* only used for the [tr] class *)
  let cellHasGap := hasGap c in
  let cellIsFilled := isFilled c in
  if cellIsFilled then CellFilled else if cellHasGap then CellGap else CellPlain.

(** The cell object that [addRow] and [addColumn] create: an [id] and an
    empty [text].  Its [row] and [col] properties are read nowhere in the
    component and have no field in [Cell]. *)
Definition blankCell (id : string) : Cell :=
  mkCell id (Some "") false false false false false None false false.

(** [`cell_${rowIdx}_${colIdx}`] *)
Definition newCellId (rowIdx colIdx : nat) : string :=
  "cell_" +:+ pretty rowIdx +:+ "_" +:+ pretty colIdx.

(** [addRow], lines 90-113, as a function of the table held by the
    component. *)
Definition addRow (isLocked : bool) (tableData : Table) : Table :=
  if isLocked then tableData
  else
    (* tableData.rows[0]?.cells.length || 1 *)
    let numCols :=
      match rows tableData !! 0%nat with
      | Some r => match length (cells r) with O => 1%nat | n => n end
      | None => 1%nat
      end in
    let newRow :=
      {| row_id := "row_" +:+ pretty (length (rows tableData));
         cells := (fun idx => blankCell (newCellId (length (rows tableData)) idx))
                    <$> seq 0 numCols |} in
    {| table_id := table_id tableData;
       name := name tableData;
       column_headers := column_headers tableData;
       rows := rows tableData ++ [newRow] |}.

(** [addColumn], lines 115-138. *)
Definition addColumn (isLocked : bool) (tableData : Table) : Table :=
  if isLocked then tableData
  else
    {| table_id := table_id tableData;
       name := name tableData;
       column_headers := column_headers tableData;
       rows :=
         imap (fun rowIdx row =>
           {| row_id := row_id row;
              cells := cells row
                       ++ [blankCell (newCellId rowIdx (length (cells row)))] |})
           (rows tableData) |}.

End TableEditor.


(** ** The rendered view: a DOM tree *)

Module Dom.

Inductive Tag :=
  | TABLE | TBODY | TR | TD | TH | P | SPAN | DIV | STRONG | EM
  | OtherTag (tagName : string).

(** The attributes the viewer reads or writes. *)
Record Attrs := mkAttrs {
  data_cell_id : option string;
  data_cell_text : option string;
  data_editing : option string;
  classList : list string
}.

Definition noAttrs : Attrs := mkAttrs None None None [].

Local Unset Elimination Schemes.
Inductive Node :=
  | Text (data : string)
  | Elem (tag : Tag) (attrs : Attrs) (childNodes : list Node).
Local Set Elimination Schemes.

Definition concatStrings (l : list string) : string := foldr String.append "" l.

(** [Node.textContent] *)
Fixpoint textContent (n : Node) : string :=
  match n with
  | Text s => s
  | Elem _ _ cs => concatStrings (map textContent cs)
  end.

(** All descendants of a node, in document order. *)
Fixpoint descendants (n : Node) : list Node :=
  match n with
  | Text _ => []
  | Elem _ _ cs => flat_map (fun c => c :: descendants c) cs
  end.

(** The container element ([contentRef.current], or the temporary [div] whose
    [innerHTML] was set) is given by its child nodes. *)
Definition Container : Type := list Node.

Definition containerDescendants (root : Container) : list Node :=
  flat_map (fun c => c :: descendants c) root.

Definition tagOf (n : Node) : option Tag :=
  match n with
  | Text _ => None
  | Elem t _ _ => Some t
  end.

Definition attrsOf (n : Node) : Attrs :=
  match n with
  | Text _ => noAttrs
  | Elem _ a _ => a
  end.

(** A node is addressed by the child indices leading to it from the
    container. *)
Definition Path : Type := list nat.

(** The descendants of the node at path [p], in document order, each with its
    own path. *)
Fixpoint descendantsAt (p : Path) (n : Node) {struct n} : list (Path * Node) :=
  match n with
  | Text _ => []
  | Elem _ _ cs =>
      (fix go (i : nat) (cs : list Node) {struct cs} : list (Path * Node) :=
         match cs with
         | [] => []
         | c :: cs' =>
             (p ++ [i], c) :: descendantsAt (p ++ [i]) c ++ go (S i) cs'
         end) 0%nat cs
  end.

Fixpoint containerDescendantsFrom (i : nat) (root : list Node) : list (Path * Node) :=
  match root with
  | [] => []
  | c :: cs' => ([i], c) :: descendantsAt [i] c ++ containerDescendantsFrom (S i) cs'
  end.

Definition containerDescendantsAt (root : Container) : list (Path * Node) :=
  containerDescendantsFrom 0 root.

(** Selectors. *)
Definition isTag (t : Tag) (n : Node) : bool :=
  match tagOf n, t with
  | Some TABLE, TABLE | Some TBODY, TBODY | Some TR, TR | Some TD, TD
  | Some TH, TH | Some P, P | Some SPAN, SPAN | Some DIV, DIV
  | Some STRONG, STRONG | Some EM, EM => true
  | Some (OtherTag a), OtherTag b => String.eqb a b
  | _, _ => false
  end.

Definition sel_table : Node → bool := isTag TABLE.
Definition sel_tr : Node → bool := isTag TR.
Definition sel_td_th (n : Node) : bool := isTag TD n || isTag TH n.
Definition sel_p : Node → bool := isTag P.
Definition sel_td_th_p (n : Node) : bool := isTag TD n || isTag TH n || isTag P n.

Definition isElement (n : Node) : bool :=
  match n with
  | Text _ => false
  | Elem _ _ _ => true
  end.

(** [[data-cell-id="v"]] *)
Definition sel_cell_id (v : string) (n : Node) : bool :=
  match data_cell_id (attrsOf n) with
  | Some w => isElement n && String.eqb w v
  | None => false
  end.

(** [[data-editing="true"]] *)
Definition sel_editing (n : Node) : bool :=
  match data_editing (attrsOf n) with
  | Some w => isElement n && String.eqb w "true"
  | None => false
  end.

(** [.highlight-pending] *)
Definition sel_highlight (n : Node) : bool :=
  isElement n && existsb (String.eqb "highlight-pending") (classList (attrsOf n)).

(** [span, div, p, strong, em] *)
Definition sel_inline (n : Node) : bool :=
  isTag SPAN n || isTag DIV n || isTag P n || isTag STRONG n || isTag EM n.

(** [element.querySelectorAll(sel)] *)
Definition querySelectorAll (sel : Node → bool) (n : Node) : list Node :=
  List.filter sel (descendants n).

(** [container.querySelectorAll(sel)] *)
Definition queryAll (sel : Node → bool) (root : Container) : list Node :=
  List.filter sel (containerDescendants root).

(** [container.querySelector(sel)] *)
Definition querySelector (sel : Node → bool) (root : Container) : option Node :=
  head (queryAll sel root).

(** The same queries, keeping the path of every result. *)
Definition querySelectorAllAt (sel : Node → bool) (pn : Path * Node) : list (Path * Node) :=
  List.filter (fun qn => sel (snd qn)) (descendantsAt (fst pn) (snd pn)).

Definition queryAllAt (sel : Node → bool) (root : Container) : list (Path * Node) :=
  List.filter (fun qn => sel (snd qn)) (containerDescendantsAt root).

Definition querySelectorAt (sel : Node → bool) (root : Container) : option (Path * Node) :=
  head (queryAllAt sel root).

(** In-place change of the node at a path; a path that leads nowhere changes
    nothing. *)
Fixpoint updateAt (p : Path) (f : Node → Node) (ns : list Node) {struct p} : list Node :=
  match p with
  | [] => ns
  | [i] => alter f i ns
  | i :: p' =>
      alter (fun n => match n with
                      | Text _ => n
                      | Elem t a cs => Elem t a (updateAt p' f cs)
                      end) i ns
  end.

Definition setAttrs (g : Attrs → Attrs) (n : Node) : Node :=
  match n with
  | Text _ => n
  | Elem t a cs => Elem t (g a) cs
  end.

Definition childNodesOf (n : Node) : list Node :=
  match n with
  | Text _ => []
  | Elem _ _ cs => cs
  end.

Definition setChildNodes (g : list Node → list Node) (n : Node) : Node :=
  match n with
  | Text _ => n
  | Elem t a cs => Elem t a (g cs)
  end.

End Dom.
(** ** DocumentViewer.js *)

Module DocumentViewer.
Import Dom.

(** *** loadDocument: text highlighting, lines 100-162

    [highlightTextContent] runs four global, case-insensitive regular
    expressions over the text of one text node, each match being replaced
    by a placeholder [___HIGHLIGHTED___k___HIGHLIGHTED___], [k] being the
    number of matches replaced so far, and finally replaces the first
    occurrence of the text of every placeholder by a
    [<span class="highlight-pending">] around the matched text.

    While the expressions run, the text being processed is a list of items:
    a character, or the placeholder of an earlier match with its number and
    the text it stands for.  A placeholder begins and ends with an
    underscore, a word character, and has no character sequence in common
    with any pattern that could begin or end a match, so it is opaque to
    the later expressions.  A placeholder mark that the text itself holds is
    a run of characters like any other.

    The expressions run on the HTML text, in which [&], [<], [>] and the
    no-break space are written as entities.  An entity begins with [&] and
    ends with [;], neither of them a word character nor part of a pattern,
    and contains no pattern, so the matches are those found in the text of
    the node. *)

Inductive Item :=
  | Ch (c : ascii)
  | Placeholder (idx : nat) (matched : string).

Definition itemsOf (s : string) : list Item := map Ch (list_ascii_of_string s).

(** [\w] of a regular expression without the [u] flag. *)
Definition isWordChar (c : ascii) : bool :=
  let n := nat_of_ascii c in
  ((48 <=? n)%nat && (n <=? 57)%nat) || ((65 <=? n)%nat && (n <=? 90)%nat)
  || ((97 <=? n)%nat && (n <=? 122)%nat) || (n =? 95)%nat.

Definition isWordItem (i : option Item) : bool :=
  match i with
  | None => false
  | Some (Ch c) => isWordChar c
  | Some (Placeholder _ _) => true
  end.

(** [\b] between the item before and the item after a position. *)
Definition boundary (before after : option Item) : bool :=
  xorb (isWordItem before) (isWordItem after).

(** A literal pattern, given in lower case, matched ignoring case at the
    head of [l]: the number of items matched. *)
Fixpoint matchLit (pat : string) (l : list Item) : option nat :=
  match pat with
  | EmptyString => Some 0%nat
  | String pc pat' =>
      match l with
      | Ch c :: l' =>
          if Ascii.eqb (Js.lowerChar c) pc then S <$> matchLit pat' l' else None
      | _ => None
      end
  end.

(** The first alternative, in the order of the expression, that matches at
    the head of [l] and meets the trailing condition [ok]. *)
Fixpoint firstAlternative (pats : list string) (ok : nat → bool) (l : list Item)
  : option nat :=
  match pats with
  | [] => None
  | pat :: pats' =>
      match matchLit pat l with
      | Some n => if ok n then Some n else firstAlternative pats' ok l
      | None => firstAlternative pats' ok l
      end
  end.

(** A regular expression of this file, tried at one position: the item
    before the position and the items from it on give the length of the
    match, if any. *)
Definition Regex : Type := option Item → list Item → option nat.

(** Step 1: [/\b(null|...|unk)\b/gi]; the alternatives with their case
    variants merged. *)
Definition nullAndMissingWords : list string :=
  [ "null"; "none"; "nil"; "n/a"; "na"; "n.a.";
    "missing"; "not provided"; "not available"; "unavailable";
    "tbd"; "t.b.d."; "to be determined"; "tba"; "to be announced";
    "unknown"; "unk" ].

Definition lastOf (before : option Item) (l : list Item) (n : nat) : option Item :=
  match n with
  | O => before
  | S m => l !! m
  end.

Definition boundedWords (pats : list string) : Regex :=
  fun before l =>
    if boundary before (head l)
    then firstAlternative pats (fun n => boundary (lastOf before l n) (l !! n)) l
    else None.

Definition step1 : Regex := boundedWords nullAndMissingWords.

(** Step 2: [/(\(Pending\)|\(pending\)|\(PENDING\))/gi] *)
Definition step2 : Regex :=
  fun _ l => firstAlternative ["(pending)"] (fun _ => true) l.

(** Step 3: [/(Pending\)|\(Pending|...)/gi] *)
Definition step3 : Regex :=
  fun _ l => firstAlternative ["pending)"; "(pending"] (fun _ => true) l.

(** Step 4: [/\b(Pending|PENDING|pending)\b/gi] *)
Definition step4 : Regex := boundedWords ["pending"].

Definition stringOfItems (l : list Item) : string :=
  Dom.concatStrings
    (map (fun i => match i with
                   | Ch c => String c EmptyString
                   | Placeholder _ m => m
                   end) l).

(** [processed.replace(regex, callback)] with a global expression: matches
    are looked for from left to right, the search resuming after each
    match.  [keep before after] is the test under which the callback returns
    the match unchanged; otherwise the match becomes the placeholder number
    [count], which is [replacements.length] at that moment.  [inside] counts
    the items still to pass of a match that has been dealt with already. *)
Fixpoint replaceAll (re : Regex) (keep : option Item → option Item → bool)
    (count inside : nat) (before : option Item) (l : list Item) : list Item :=
  match l with
  | [] => []
  | i :: l' =>
      match inside with
      | S inside' => replaceAll re keep count inside' (Some i) l'
      | O =>
          match re before l with
          | Some (S m) =>
              let matched := take (S m) l in
              let rest := drop (S m) l in
              if keep before (head rest)
              then matched ++ replaceAll re keep count m (Some i) l'
              else Placeholder count (stringOfItems matched)
                   :: replaceAll re keep (S count) m (Some i) l'
          | _ => i :: replaceAll re keep count 0 (Some i) l'
          end
      end
  end.

(** [replacements.length], once the text has become the items [l]: every
    placeholder made so far is among them. *)
Definition replacementsLength (l : list Item) : nat :=
  length (List.filter (fun i => match i with
                                | Placeholder _ _ => true
                                | Ch _ => false
                                end) l).

Definition isChar (c : ascii) (i : option Item) : bool :=
  match i with
  | Some (Ch d) => Ascii.eqb c d
  | _ => false
  end.

Definition never (_ _ : option Item) : bool := false.

(** The callback of step 4 leaves a match alone when the character before
    it is an opening or the one after it a closing parenthesis. *)
Definition partOfParenthesized (before after : option Item) : bool :=
  isChar "(" before || isChar ")" after.

Definition highlightAttrs : Attrs := mkAttrs None None None ["highlight-pending"].

Definition runSteps (text : string) : list Item :=
  let l0 := itemsOf text in
  let l1 := replaceAll step1 never 0 0 None l0 in
  let l2 := replaceAll step2 never (replacementsLength l1) 0 None l1 in
  let l3 := replaceAll step3 never (replacementsLength l2) 0 None l2 in
  replaceAll step4 partOfParenthesized (replacementsLength l3) 0 None l3.

(** Step 5, lines 147-150.  [processed] is the text with every placeholder
    written out, and [replacements] holds the matched texts by number. *)
Definition PLACEHOLDER : string := "___HIGHLIGHTED___".

Definition placeholderOf (idx : nat) : string :=
  PLACEHOLDER +:+ pretty idx +:+ PLACEHOLDER.

Definition processedOf (l : list Item) : string :=
  Dom.concatStrings
    (map (fun i => match i with
                   | Ch c => String c EmptyString
                   | Placeholder idx _ => placeholderOf idx
                   end) l).

Definition replacementsOf (l : list Item) : list string :=
  omap (fun idx =>
          head (omap (fun i => match i with
                               | Placeholder k m =>
                                   if (k =? idx)%nat then Some m else None
                               | Ch _ => None
                               end) l))
       (seq 0 (replacementsLength l)).

(** The text while the placeholders are being replaced: pieces of text, and
    the spans already put in.  The HTML of a span holds no underscore, so
    the text of a placeholder is found within one piece of text or not at
    all. *)
Inductive Piece :=
  | Lit (s : string)
  | Span (matched : string).

(** The text before and after the first occurrence of [needle] in [s]. *)
Fixpoint splitAtFirst (needle s : string) : option (string * string) :=
  if String.prefix needle s
  then Some (EmptyString,
             String.substring (String.length needle)
               (String.length s - String.length needle) s)
  else
    match s with
    | EmptyString => None
    | String c s' =>
        match splitAtFirst needle s' with
        | Some (before, after) => Some (String c before, after)
        | None => None
        end
    end.

(** [processed.replace(placeholder, replacement)] with a string to look
    for: the first occurrence is replaced, if there is one. *)
Fixpoint replaceFirst (placeholder matched : string) (pieces : list Piece)
  : list Piece :=
  match pieces with
  | [] => []
  | Lit s :: rest =>
      match splitAtFirst placeholder s with
      | Some (before, after) => Lit before :: Span matched :: Lit after :: rest
      | None => Lit s :: replaceFirst placeholder matched rest
      end
  | Span m :: rest => Span m :: replaceFirst placeholder matched rest
  end.

Definition step5 (l : list Item) : list Piece :=
  Js.forEach (fun replacement idx processed =>
                replaceFirst (placeholderOf idx) replacement processed)
    (replacementsOf l) [Lit (processedOf l)].

(** The parsing of the resulting HTML: a piece of text that is not empty is
    a text node, a span is an element around its text. *)
Definition nodesOfPieces (pieces : list Piece) : list Node :=
  flat_map (fun piece =>
              match piece with
              | Lit EmptyString => []
              | Lit s => [Text s]
              | Span m => [Elem SPAN highlightAttrs [Text m]]
              end) pieces.

(** [highlightTextContent(text)], as the nodes its result parses to. *)
Definition highlightTextContent (text : string) : list Node :=
  if negb (Js.truthy text) || negb (Js.truthy (Js.trim text)) then [Text text]
  else nodesOfPieces (step5 (runSteps text)).

(** The callback of [html.replace(/>([^<]+)</g, ...)], lines 156-162. *)
Definition highlightTextNode (textContent : string) : list Node :=
  if Js.includes textContent "=" || Js.startsWith (Js.trim textContent) "/"
  then [Text textContent]
  else highlightTextContent textContent.

(** Highlighting of every text node below an element: each of them stands
    between the [>] of one tag and the [<] of the next. *)
Fixpoint highlightNode (n : Node) : list Node :=
  match n with
  | Text s => highlightTextNode s
  | Elem t a cs => [Elem t a (flat_map highlightNode cs)]
  end.

(** The nodes of the document itself: a text with which the HTML begins has
    no [>] before it, and a text with which it ends no [<] after it, so the
    expression of line 156 does not find them. *)
Fixpoint highlightFrom (isFirst : bool) (root : list Node) : list Node :=
  match root with
  | [] => []
  | n :: rest =>
      let isLast := match rest with [] => true | _ :: _ => false end in
      match n with
      | Text s => if isFirst || isLast then [Text s] else highlightTextNode s
      | Elem _ _ _ => highlightNode n
      end ++ highlightFrom false rest
  end.

Definition highlightHtml (root : Container) : Container :=
  highlightFrom true root.

(** *** loadDocument: cell identifiers, lines 164-183 *)

(** [`table-${tableIdx}-row-${rowIdx}-cell-${cellIdx}`] *)
Definition cellIdOf (tableIdx rowIdx cellIdx : nat) : string :=
  "table-" +:+ pretty tableIdx +:+ "-row-" +:+ pretty rowIdx
  +:+ "-cell-" +:+ pretty cellIdx.

Definition tagCell (tableIdx rowIdx cellIdx : nat) (cell : Node) : Node :=
  let cellText := Js.trim (textContent cell) in
  setAttrs (fun a =>
    {| data_cell_id := Some (cellIdOf tableIdx rowIdx cellIdx);
       data_cell_text :=
         if Js.truthy cellText then Some (Js.substring0 100 cellText)
         else data_cell_text a;
       data_editing := data_editing a;
       classList := classList a |}) cell.

(** The node lists are taken from the tree as it is before the loops: only
    attributes change, so they stay valid. *)
Definition tagCells (root : Container) : Container :=
  Js.forEach (fun table tableIdx root =>
    Js.forEach (fun row rowIdx root =>
      Js.forEach (fun cell cellIdx root =>
        updateAt (fst cell) (tagCell tableIdx rowIdx cellIdx) root)
        (querySelectorAllAt sel_td_th row) root)
      (querySelectorAllAt sel_tr table) root)
    (queryAllAt sel_table root) root.

(** *** loadDocument: gap highlighting of table cells, lines 236-340

    [flagged tableIdx rowIdx colIdx cell] stands for the outcome of lines
    243-309: an entry of the gap list is found for the cell under one of its
    keys and [hasGapValue] holds.  Nothing below depends on which cells it
    selects. *)
Definition GapLookup : Type := nat → nat → nat → Node → bool.

(** [cellInnerHTML.includes('highlight-pending')]: the serialized children
    mention the class name in a text, a class or an attribute value. *)
Definition mentionsHighlight (n : Node) : bool :=
  let inc (s : string) := Js.includes s "highlight-pending" in
  match n with
  | Text s => inc s
  | Elem t a _ =>
      match t with OtherTag name => inc name | _ => false end
      || existsb inc (classList a)
      || from_option inc false (data_cell_id a)
      || from_option inc false (data_cell_text a)
      || from_option inc false (data_editing a)
  end.

Definition innerHTMLMentionsHighlight (cs : list Node) : bool :=
  existsb mentionsHighlight (containerDescendants cs).

(** [cellInnerHTML.trim()] is truthy: some child is an element, or a text
    with a character that is not white space once serialized (a no-break
    space is serialized as an entity). *)
Definition innerHTMLNotBlank (cs : list Node) : bool :=
  existsb (fun n =>
    match n with
    | Elem _ _ _ => true
    | Text s =>
        existsb (fun c => negb (Js.isWhiteSpace c) || (nat_of_ascii c =? 160)%nat)
                (list_ascii_of_string s)
    end) cs.

Definition addHighlightClass (a : Attrs) : Attrs :=
  {| data_cell_id := data_cell_id a;
     data_cell_text := data_cell_text a;
     data_editing := data_editing a;
     classList :=
       if existsb (String.eqb "highlight-pending") (classList a) then classList a
       else classList a ++ ["highlight-pending"] |}.

(** Lines 311-333 on one cell: what is done to it. *)
Inductive GapAction := WrapContent | AddClass | Leave.

Definition gapAction (cell : Node) : GapAction :=
  if negb (existsb sel_highlight (descendants cell)) && negb (sel_highlight cell) then
    let cellInnerHTML := childNodesOf cell in
    if negb (innerHTMLMentionsHighlight cellInnerHTML) then
      let hasOnlyText := negb (existsb sel_inline (descendants cell)) in
      if hasOnlyText && innerHTMLNotBlank cellInnerHTML then WrapContent
      else if Js.truthy (Js.toLowerCase (Js.trim (textContent cell))) then AddClass
           else Leave
    else Leave
  else Leave.

Definition applyGapAction (act : GapAction) (cell : Node) : Node :=
  match act with
  | WrapContent => setChildNodes (fun cs => [Elem SPAN highlightAttrs cs]) cell
  | AddClass => setAttrs addHighlightClass cell
  | Leave => cell
  end.

(** The node at a path of the live tree. *)
Fixpoint nodeAt (p : Path) (ns : list Node) : option Node :=
  match p with
  | [] => None
  | [i] => ns !! i
  | i :: p' =>
      match ns !! i with
      | Some (Elem _ _ cs) => nodeAt p' cs
      | _ => None
      end
  end.

Definition isStrictPrefix (p q : Path) : bool :=
  (length p <? length q)%nat && bool_decide (take (length p) q = p).

(** The live tree, and the cells whose [innerHTML] has been assigned: the
    nodes of the earlier node lists that lie below such a cell are no longer
    part of the tree, so changing them has no effect on it. *)
Definition GapState : Type := Container * list Path.

Definition visitGapCell (flagged : GapLookup) (tableIdx rowIdx colIdx : nat)
    (cell : Path * Node) (st : GapState) : GapState :=
  let '(root, replaced) := st in
  if existsb (fun p => isStrictPrefix p (fst cell)) replaced then st
  else
    match nodeAt (fst cell) root with
    | None => st
    | Some live =>
        if flagged tableIdx rowIdx colIdx live then
          let act := gapAction live in
          (updateAt (fst cell) (applyGapAction act) root,
           match act with
           | WrapContent => fst cell :: replaced
           | _ => replaced
           end)
        else st
    end.

Definition applyGapHighlightingToTables (flagged : option GapLookup)
    (root : Container) : Container :=
  match flagged with
  | None => root
  | Some flagged =>
      fst (Js.forEach (fun table tableIdx st =>
             Js.forEach (fun row rowIdx st =>
               Js.forEach (fun cell colIdx st =>
                 visitGapCell flagged tableIdx rowIdx colIdx cell st)
                 (querySelectorAllAt sel_td_th row) st)
               (querySelectorAllAt sel_tr table) st)
             (queryAllAt sel_table root) (root, []))
  end.

(** What [loadDocument] does to the HTML that the converter returns, lines
    97-188. *)
Definition project (flagged : option GapLookup) (converted : Container) : Container :=
  applyGapHighlightingToTables flagged (tagCells (highlightHtml converted)).

(** *** handleSave: merging the edited view into the structure,
        lines 706-880 *)

(** The text read from a cell or a paragraph of the edited view, lines
    804-823 and 852-870.  The view is a detached tree, so [innerText] is
    [textContent]; when [textContent] is empty both later branches yield the
    empty string. *)
Definition newTextOf (n : Node) : string :=
  if Js.truthy (textContent n) then Js.trim (textContent n) else "".

Definition setCellText (newText : string) (c : Cell) : Cell :=
  {| cell_id := cell_id c; text := Some newText;
     has_gap := has_gap c; is_pending := is_pending c;
     is_missing := is_missing c; is_null := is_null c; is_empty := is_empty c;
     original_has_gap := original_has_gap c; was_gap := was_gap c;
     is_filled := is_filled c |}.

(** Lines 825-829. *)
Definition mergeCell (htmlCell : Node) (c : Cell) : Cell :=
  let newText := newTextOf htmlCell in
  let oldText := text c in
  if bool_decide (oldText ≠ Some newText) then setCellText newText c else c.

(** Lines 797-831. *)
Definition mergeRow (htmlRow : Node) (originalRow : Row) : Row :=
  let htmlCells := querySelectorAll sel_td_th htmlRow in
  Js.forEach (fun htmlCell cellIdx (r : Row) =>
    match cells r !! cellIdx with
    | Some c =>
        {| row_id := row_id r;
           cells := <[cellIdx := mergeCell htmlCell c]> (cells r) |}
    | None => r
    end) htmlCells originalRow.

(** Lines 784-840. *)
Definition mergeTable (htmlTable : Node) (originalTable : Table) : Table :=
  (* Preserve table name, id, and column_headers from original structure *)
  let preservedTableName := name originalTable in
  let preservedTableId := table_id originalTable in
  let preservedColumnHeaders := column_headers originalTable in
  let htmlRows := querySelectorAll sel_tr htmlTable in
  let updated :=
    Js.forEach (fun htmlRow rowIdx (t : Table) =>
      match rows t !! rowIdx with
      | Some originalRow =>
          {| table_id := table_id t; name := name t;
             column_headers := column_headers t;
             rows := <[rowIdx := mergeRow htmlRow originalRow]> (rows t) |}
      | None => t
      end) htmlRows originalTable in
  (* Explicitly preserve table name, id, and column_headers *)
  {| table_id := preservedTableId;
     name := preservedTableName;
     column_headers :=
       match preservedColumnHeaders with
       | Some h => Some h
       | None => column_headers updated
       end;
     rows := rows updated |}.

(** Lines 780-843. *)
Definition mergeTables (root : Container) (tables : list Table) : list Table :=
  let htmlTables := queryAll sel_table root in
  Js.forEach (fun htmlTable tableIdx (ts : list Table) =>
    match ts !! tableIdx with
    | Some originalTable => <[tableIdx := mergeTable htmlTable originalTable]> ts
    | None => ts
    end) htmlTables tables.

(** Lines 872-876. *)
Definition mergeParagraph (htmlPara : Node) (p : Paragraph) : Paragraph :=
  let newText := newTextOf htmlPara in
  let oldText := para_text p in
  if bool_decide (oldText ≠ newText) then {| para_text := newText |} else p.

(** Lines 846-879. *)
Definition mergeParagraphs (root : Container) (ps : list Paragraph) : list Paragraph :=
  let htmlParagraphs := queryAll sel_p root in
  Js.forEach (fun htmlPara paraIdx (ps : list Paragraph) =>
    match ps !! paraIdx with
    | Some p => <[paraIdx := mergeParagraph htmlPara p]> ps
    | None => ps
    end) htmlParagraphs ps.

(** The [else] branch of lines 774-880: only the texts are taken from the
    edited view. *)
Definition updateStructure (root : Container) (documentStructure : DocumentStructure)
  : DocumentStructure :=
  {| paragraphs := mergeParagraphs root <$> paragraphs documentStructure;
     tables := mergeTables root <$> tables documentStructure |}.

(** Lines 745-756: a clone of the cell whose highlight spans are replaced by
    their text. *)
Fixpoint stripHighlights (n : Node) : Node :=
  match n with
  | Text _ => n
  | Elem t a cs =>
      Elem t a (map (fun c => if sel_highlight c then Text (textContent c)
                              else stripHighlights c) cs)
  end.

Definition freshCell (cellId cellText : string) : Cell :=
  mkCell cellId (Some cellText) false false false false false None false false.

(** Lines 714-773: without a structure to start from, one is extracted from
    the edited view. *)
Definition extractStructure (root : Container) : DocumentStructure :=
  let paragraphs :=
    omap (fun p =>
      let text := textContent p in
      if Js.truthy (Js.trim text) then Some {| para_text := Js.trim text |} else None)
      (queryAll sel_p root) in
  let tables :=
    omap (fun '(tableIdx, table) =>
      let rows :=
        imap (fun rowIdx row =>
          {| row_id := "row_" +:+ pretty tableIdx +:+ "_" +:+ pretty rowIdx;
             cells :=
               imap (fun cellIdx cell =>
                 freshCell ("cell_" +:+ pretty tableIdx +:+ "_" +:+ pretty rowIdx
                            +:+ "_" +:+ pretty cellIdx)
                           (Js.trim (textContent (stripHighlights cell))))
                 (querySelectorAll sel_td_th row) |})
          (querySelectorAll sel_tr table) in
      match rows with
      | [] => None
      | _ => Some {| table_id := "table_" +:+ pretty tableIdx; name := None;
                     column_headers := None; rows := rows |}
      end)
      (imap pair (queryAll sel_table root)) in
  {| paragraphs := Some paragraphs; tables := Some tables |}.

(** The structure that [handleSave] sends to the backend, lines 706-880:
    [originalStructureRef.current] if set, else a clone of the
    [originalStructure] prop, else the extracted one. *)
Definition handleSave_structure (originalStructureRef originalStructure :
    option DocumentStructure) (editedHtml : Container) : DocumentStructure :=
  match originalStructureRef with
  | Some documentStructure => updateStructure editedHtml documentStructure
  | None =>
      match originalStructure with
      | Some documentStructure => updateStructure editedHtml documentStructure
      | None => extractStructure editedHtml
      end
  end.

(** Successive saves, each one starting from the structure the previous one
    produced. *)
Definition reconcileAll (views : list Container) (s : DocumentStructure)
  : DocumentStructure :=
  foldl (fun s view => handleSave_structure (Some s) None view) s views.

(** The tables of a structure; none when the property is absent. *)
Definition tablesOf (s : DocumentStructure) : list Table :=
  default [] (tables s).

Definition paragraphsOf (s : DocumentStructure) : list Paragraph :=
  default [] (paragraphs s).

(** The cell of a structure at table, row and cell index. *)
Definition cellOf (s : DocumentStructure) (tableIdx rowIdx cellIdx : nat) : option Cell :=
  t ← tablesOf s !! tableIdx; r ← rows t !! rowIdx; cells r !! cellIdx.

(** The node of a view at table, row and cell index, as the loops of
    [handleSave] reach it. *)
Definition htmlCellOf (root : Container) (tableIdx rowIdx cellIdx : nat) : option Node :=
  t ← queryAll sel_table root !! tableIdx;
  r ← querySelectorAll sel_tr t !! rowIdx;
  querySelectorAll sel_td_th r !! cellIdx.

(** *** restoreCursorPosition: finding the element, lines 442-520 *)

(** [savedSelectionRef.current], as written by [saveCursorPosition] (lines
    404-413) and completed by [handleSave] (lines 911-936).  An index that
    [indexOf] reports as -1 selects nothing, like any index past the end. *)
Record SavedSelection := mkSaved {
  cellId : option string;
  savedTextContent : string;                 (* [textContent] *)
  cellPosition : option (nat * nat * nat);   (* tableIndex, rowIndex, cellIndex *)
  paragraphIndex : option nat;               (* [null] is [None] *)
  offset : nat;
  editedText : option string
}.

(** Truthiness of an optional string. *)
Definition truthyOpt (o : option string) : option string :=
  match o with
  | Some s => if Js.truthy s then Some s else None
  | None => None
  end.

(** An element found in the view: its path and the node. *)
Definition Target : Type := Path * Node.

(** Line 448 writes the saved id between double quotes into the text of the
    selector.  That text is the attribute selector for the id when the id
    holds no double quote, backslash, line feed, form feed, carriage return
    or NUL: the string of the selector is then the id as it is. *)
Definition quotable (cid : string) : bool :=
  forallb (fun c => match nat_of_ascii c with
                    | 0 | 10 | 12 | 13 | 34 | 92 => false
                    | _ => true
                    end) (list_ascii_of_string cid).

(** Lines 447-453, for an id that is [quotable].  With another id the text
    of line 448 is a different selector, or none: [querySelector] then
    throws, and the [catch] block of line 636 ends the call with [false]
    and no target. *)
Definition byCellId (saved : SavedSelection) (root : Container) : option Target :=
  match truthyOpt (cellId saved) with
  | Some cid => querySelectorAt (sel_cell_id cid) root
  | None => None
  end.

(** Lines 456-463. *)
Definition byMarker (root : Container) : option Target :=
  querySelectorAt sel_editing root.

(** Lines 466-479. *)
Definition byCellPosition (saved : SavedSelection) (root : Container) : option Target :=
  match cellPosition saved with
  | Some (tableIndex, rowIndex, cellIndex) =>
      table ← queryAllAt sel_table root !! tableIndex;
      row ← querySelectorAllAt sel_tr table !! rowIndex;
      querySelectorAllAt sel_td_th row !! cellIndex
  | None => None
  end.

(** The test of lines 488-491. *)
Definition editedTextMatches (savedEditedText elText : string) : bool :=
  Js.truthy elText &&
  (String.eqb elText savedEditedText
   || Js.startsWith elText savedEditedText
   || Js.startsWith savedEditedText elText
   || String.eqb
        (Js.substring0 (Nat.min 50 (String.length savedEditedText)) elText)
        (Js.substring0 (Nat.min 50 (String.length elText)) savedEditedText)).

(** Lines 482-497: the first [td], [th] or [p] in document order that passes
    the test. *)
Definition byEditedText (saved : SavedSelection) (root : Container) : option Target :=
  match truthyOpt (editedText saved) with
  | Some edited =>
      List.find (fun el =>
        editedTextMatches (Js.trim edited) (Js.trim (textContent (snd el))))
        (queryAllAt sel_td_th_p root)
  | None => None
  end.

(** The test of lines 506-507. *)
Definition originalTextMatches (savedText elText : string) : bool :=
  Js.truthy elText &&
  (Js.startsWith elText savedText
   || Js.startsWith savedText elText
   || String.eqb (Js.substring0 50 elText) (Js.substring0 50 savedText)).

(** Lines 500-512. *)
Definition byOriginalText (saved : SavedSelection) (root : Container) : option Target :=
  if Js.truthy (savedTextContent saved) then
    List.find (fun el =>
      originalTextMatches (Js.trim (savedTextContent saved))
                          (Js.trim (textContent (snd el))))
      (queryAllAt sel_td_th_p root)
  else None.

(** Lines 515-520. *)
Definition byParagraphIndex (saved : SavedSelection) (root : Container) : option Target :=
  match paragraphIndex saved with
  | Some idx => queryAllAt sel_p root !! idx
  | None => None
  end.

(** One [if (!targetElement ...)] block: the variable is assigned only while
    it is still [null]. *)
Definition unlessFound (targetElement attempt : option Target) : option Target :=
  match targetElement with
  | Some _ => targetElement
  | None => attempt
  end.

(** The value of [targetElement] at line 522. *)
Definition findTargetElement (saved : SavedSelection) (root : Container) : option Target :=
  let targetElement := None in
  (* Try to find element by unique cell ID first (most reliable) *)
  let targetElement :=
    match byCellId saved root with
    | Some elementById => Some elementById
    | None => targetElement
    end in
  (* Try to find element by data attribute *)
  let targetElement := unlessFound targetElement (byMarker root) in
  (* Try to find by cell position (fallback for table cells) *)
  let targetElement := unlessFound targetElement (byCellPosition saved root) in
  (* If not found by position, try to find by edited text *)
  let targetElement := unlessFound targetElement (byEditedText saved root) in
  (* Fallback: try to find by original text content *)
  let targetElement := unlessFound targetElement (byOriginalText saved root) in
  (* Fallback: find by paragraph index *)
  unlessFound targetElement (byParagraphIndex saved root).

(** *** restoreCursorPosition: placing the caret, lines 547-602 *)

(** A text node of the view: its path and its data. *)
Definition TextNode : Type := Path * string.

(** The text nodes below an element, in document order: what the
    [TreeWalker] with [NodeFilter.SHOW_TEXT] yields. *)
Definition textNodesAt (target : Target) : list TextNode :=
  omap (fun qn => match snd qn with
                  | Text data => Some (fst qn, data)
                  | Elem _ _ _ => None
                  end) (descendantsAt (fst target) (snd target)).

(** The loop of lines 560-570: the first text node at whose end the lengths
    seen reach [textOffset], with the offset that is left within it. *)
Fixpoint walkTextNodes (textOffset totalLength : nat) (nodes : list TextNode)
  : option (TextNode * nat) :=
  match nodes with
  | [] => None
  | node :: nodes' =>
      let nodeLength := String.length (snd node) in
      if (textOffset <=? totalLength + nodeLength)%nat
      then Some (node, textOffset - totalLength)
      else walkTextNodes textOffset (totalLength + nodeLength) nodes'
  end.

(** [findTextNode], lines 578-585: the first text node at or below [node],
    children first to last. *)
Fixpoint findTextNode (p : Path) (node : Node) {struct node} : option TextNode :=
  match node with
  | Text data => Some (p, data)
  | Elem _ _ cs =>
      (fix go (i : nat) (cs : list Node) {struct cs} : option TextNode :=
         match cs with
         | [] => None
         | child :: cs' =>
             match findTextNode (p ++ [i]) child with
             | Some found => Some found
             | None => go (S i) cs'
             end
         end) 0%nat cs
  end.

(** Where the collapsed range is put. *)
Inductive Caret :=
  | InTextNode (textNode : TextNode) (maxOffset : nat)
  | AtEndOfElement.

(** Lines 551-602, for the target element and [saved.offset]. *)
Definition placeCaret (savedOffset : nat) (targetElement : Target) : Caret :=
  let textOffset := savedOffset in (* saved.offset || 0 *)
  let '(textNode, textOffset) :=
    match walkTextNodes textOffset 0 (textNodesAt targetElement) with
    | Some (node, within) => (Some node, within)
    | None => (None, textOffset)
    end in
  let textNode :=
    match textNode, childNodesOf (snd targetElement) with
    | None, firstChild :: _ =>
        (* Fallback: use first text node *)
        match firstChild with
        | Text data => Some (fst targetElement ++ [0%nat], data)
        | Elem _ _ _ => findTextNode (fst targetElement) (snd targetElement)
        end
    | _, _ => textNode
    end in
  match textNode with
  | Some node =>
      let maxOffset := Nat.min textOffset (String.length (snd node)) in
      InTextNode node maxOffset
  | None => AtEndOfElement
  end.

(** *** The order of section 4.5 of the design document

    The matching order as the design document words it, to be compared with
    [findTargetElement]. *)
Module Documented.

(** 1. Exact identity match by [cellId] (or paragraph index). *)
Definition identityMatch (saved : SavedSelection) (root : Container) : option Target :=
  unlessFound (byCellId saved root) (byParagraphIndex saved root).

(** 2. Exact match on the post-edit text fingerprint against any node's
    current text. *)
Definition editedTextExact (saved : SavedSelection) (root : Container) : option Target :=
  match truthyOpt (editedText saved) with
  | Some edited =>
      List.find (fun el =>
        String.eqb (Js.trim (textContent (snd el))) (Js.trim edited))
        (queryAllAt sel_td_th_p root)
  | None => None
  end.

(** 3. Prefix/suffix match between the pre-edit fingerprint and any node's
    text, first 50 characters compared either direction. *)
Definition fingerprintMatch (saved : SavedSelection) (root : Container) : option Target :=
  byOriginalText saved root.

(** 4. Positional fallback: same table/row/cell index, or same paragraph
    index. *)
Definition positionalFallback (saved : SavedSelection) (root : Container) : option Target :=
  unlessFound (byCellPosition saved root) (byParagraphIndex saved root).

Definition locate (saved : SavedSelection) (root : Container) : option Target :=
  unlessFound (unlessFound (unlessFound (identityMatch saved root)
                                        (editedTextExact saved root))
                           (fingerprintMatch saved root))
              (positionalFallback saved root).

End Documented.

End DocumentViewer.

(** ** The review endpoint of the backend

    [review_submission] of [backend/main.py], from the listing in
    [APPROVAL_FIX_DOCUMENTATION.md] (module 3), with the models of module 4
    and the request schema of module 5. *)

Module Backend.

Record Document := mkDocument {
  file_path : string;
  status : string;
  is_locked : bool
}.

Record Submission := mkSubmission {
  document_id : nat;
  submission_status : string;              (* [status] *)
  reviewed_by : option string;
  reviewed_at : option nat;
  review_notes : option string;
  document_xml : string;
  normalized_json : string
}.

Record ApprovedDocument := mkApproved {
  approved_id : nat;                        (* [id] *)
  approved_document_id : nat;               (* [document_id], unique *)
  section_id : string;
  version : nat;
  xml_file_path : string;
  json_file_path : string;
  approved_by : string;
  approved_at : nat;
  approval_notes : option string
}.

(** [schemas.SubmissionReview] *)
Record SubmissionReview := mkReview {
  review_status : string;                   (* [status] *)
  review_review_notes : option string;      (* [review_notes] *)
  review_reviewed_by : string               (* [reviewed_by] *)
}.

(** The three tables.  [approved_documents] keeps the rows in the order in
    which they were added; [first()] returns the earliest match. *)
Record Database := mkDatabase {
  documents : gmap nat Document;
  submissions : gmap nat Submission;
  approved_documents : list ApprovedDocument
}.

(** The files of the approved directory: path to what the file holds.  The
    XML file holds a text; the JSON file holds a value, which stands here as
    the text it was parsed from: [json.dump(..., indent=2)] writes that
    value in a layout of its own. *)
Record World := mkWorld {
  db : Database;
  files : gmap string string
}.

(** What the surroundings do during one request: the clock, the document
    parser, and which file and database operations raise. *)
Record Env := mkEnv {
  utcnow : nat;
  utcnow_stamp : string;                    (* [strftime('%Y%m%d%H%M%S')] *)
  docx_structured_data : option (option string);
    (* [get_docx_for_editing]: [None] raises, [Some None] has no structured
       data, [Some (Some d)] has the data [d] *)
  normalized_json_loads : bool;             (* [json.loads] succeeds *)
  remove_xml_ok : bool;
  remove_json_ok : bool;
  write_xml_ok : bool;
    (* [open] and [write] of the XML file do not raise; when [false], it is
       [open] that raises, and no file is created *)
  write_json_ok : bool;                     (* the same for the JSON file *)
  commit_ok : bool                          (* [db.commit()] does not raise *)
}.

Inductive Response :=
  | Ok (submission : Submission)
  | HTTPException (status_code : nat).

(** The directory of the generated files, [docufix-poc/approved/]. *)
Definition APPROVED_DIR : string := "approved".

(** [os.path.exists(p)] then [os.remove(p)], a failure of which is caught
    and printed. *)
Definition removeOldFile (remove_ok : bool) (path : string)
    (fs : gmap string string) : gmap string string :=
  if bool_decide (is_Some (fs !! path))
  then (if remove_ok then delete path fs else fs)
  else fs.

(** [db.query(ApprovedDocument).filter(document_id == d).first()]: the row
    and its place in the table. *)
Definition existingApproved (d : nat) (rows : list ApprovedDocument)
  : option (nat * ApprovedDocument) :=
  list_find (fun a => approved_document_id a = d) rows.

(** The next value of the autoincremented primary key. *)
Definition nextId (rows : list ApprovedDocument) : nat :=
  S (foldr Nat.max 0 (map approved_id rows)).

(** The effect of a review decision on the document, steps 1 and 7. *)
Definition reviewDocument (review_status : string) (document : Document) : Document :=
  if String.eqb review_status "approved" then
    {| file_path := file_path document; status := "approved"; is_locked := true |}
  else if String.eqb review_status "rejected" then
    {| file_path := file_path document; status := "draft"; is_locked := false |}
  else document.

(** Step 6: update the existing row in place, or add a row with version 1. *)
Definition upsertApproved (existing : option (nat * ApprovedDocument))
    (submission : Submission) (review : SubmissionReview) (env : Env)
    (section_id xml_file_path json_file_path : string)
    (rows : list ApprovedDocument) : list ApprovedDocument :=
  match existing with
  | Some (idx, existing_approved) =>
      <[idx := {| approved_id := approved_id existing_approved;
                  approved_document_id := approved_document_id existing_approved;
                  section_id := section_id;
                  version := version existing_approved + 1;
                  xml_file_path := xml_file_path;
                  json_file_path := json_file_path;
                  approved_by := review_reviewed_by review;
                  approved_at := utcnow env;
                  approval_notes := review_review_notes review |}]> rows
  | None =>
      rows ++ [ {| approved_id := nextId rows;
                   approved_document_id := document_id submission;
                   section_id := section_id;
                   version := 1;
                   xml_file_path := xml_file_path;
                   json_file_path := json_file_path;
                   approved_by := review_reviewed_by review;
                   approved_at := utcnow env;
                   approval_notes := review_review_notes review |} ]
  end.

(** [except Exception]: [db.rollback()] undoes the changes of the session;
    the files stay as they are at that point. *)
Definition rollback (w : World) (fs : gmap string string) : Response * World :=
  (HTTPException 500, {| db := db w; files := fs |}).

(** [db.commit()], which may raise.  [db.refresh(submission)] then re-reads
    the row just committed, and the submission is returned; the refresh is
    taken to succeed here, and [review_submission_refreshed] below adds its
    failure. *)
Definition commit (env : Env) (w : World) (submission : Submission)
    (db' : Database) (fs : gmap string string) : Response * World :=
  if commit_ok env then (Ok submission, {| db := db'; files := fs |})
  else rollback w fs.

Definition review_submission (submission_id : nat) (review : SubmissionReview)
    (env : Env) (w : World) : Response * World :=
  (* 1. Validate submission exists *)
  match submissions (db w) !! submission_id with
  | None => (HTTPException 404, w)
  | Some submission =>
  (* 2. Validate document exists *)
  match documents (db w) !! document_id submission with
  | None => (HTTPException 404, w)
  | Some document =>
  (* 3. Update submission status *)
  let submission' :=
    {| document_id := document_id submission;
       submission_status := review_status review;
       reviewed_by := Some (review_reviewed_by review);
       reviewed_at := Some (utcnow env);
       review_notes := review_review_notes review;
       document_xml := document_xml submission;
       normalized_json := normalized_json submission |} in
  let submissions' := <[submission_id := submission']> (submissions (db w)) in
  let documents' :=
    <[document_id submission := reviewDocument (review_status review) document]>
      (documents (db w)) in
  if String.eqb (review_status review) "approved" then
    (* Step 2: extract current document data *)
    match docx_structured_data env with
    | None => rollback w (files w)
    | Some updated_structured_data =>
    let final_structured_data :=
      match updated_structured_data with
      | Some d => Some d
      | None => if normalized_json_loads env
                then Some (normalized_json submission) else None
      end in
    match final_structured_data with
    | None => rollback w (files w)
    | Some final_structured_data =>
    (* Step 3: check for existing approval *)
    let existing_approved :=
      existingApproved (document_id submission) (approved_documents (db w)) in
    (* Step 4: cleanup old files (if updating) *)
    let fs1 :=
      match existing_approved with
      | Some (_, a) =>
          removeOldFile (remove_json_ok env) (json_file_path a)
            (removeOldFile (remove_xml_ok env) (xml_file_path a) (files w))
      | None => files w
      end in
    (* Step 5: generate new files *)
    let section_id :=
      "DOC-" +:+ pretty (document_id submission) +:+ "-" +:+ utcnow_stamp env in
    let xml_file_path := APPROVED_DIR +:+ "/" +:+ section_id +:+ ".xml" in
    if negb (write_xml_ok env) then rollback w fs1 else
    let fs2 := <[xml_file_path := document_xml submission]> fs1 in
    let json_file_path := APPROVED_DIR +:+ "/" +:+ section_id +:+ ".json" in
    if negb (write_json_ok env) then rollback w fs2 else
    let fs3 := <[json_file_path := final_structured_data]> fs2 in
    (* Step 6: update or create database record *)
    let approved' :=
      upsertApproved existing_approved submission review env
        section_id xml_file_path json_file_path (approved_documents (db w)) in
    (* Step 7: commit changes *)
    commit env w submission'
      {| documents := documents'; submissions := submissions';
         approved_documents := approved' |} fs3
    end
    end
  else
    commit env w submission'
      {| documents := documents'; submissions := submissions';
         approved_documents := approved_documents (db w) |} (files w)
  end
  end.



(** One request to the endpoint. *)
Record Request := mkRequest {
  req_submission_id : nat;
  req_review : SubmissionReview;
  req_env : Env
}.

Definition handle (w : World) (r : Request) : Response * World :=
  review_submission (req_submission_id r) (req_review r) (req_env r) w.

(** The world after a sequence of requests. *)
Definition handleAll (rs : list Request) (w : World) : World :=
  foldl (fun w r => snd (handle w r)) w rs.

(** A request is a successful approval of document [d] in world [w]. *)
Definition approves (d : nat) (w : World) (r : Request) : bool :=
  match fst (handle w r) with
  | Ok submission =>
      String.eqb (review_status (req_review r)) "approved"
      && bool_decide (document_id submission = d)
  | HTTPException _ => false
  end.

(** The number of successful approvals of [d] in a sequence of requests. *)
Fixpoint approvalCount (d : nat) (rs : list Request) (w : World) : nat :=
  match rs with
  | [] => 0
  | r :: rs' =>
      (if approves d w r then 1 else 0) + approvalCount d rs' (snd (handle w r))
  end.

(** The ApprovedDocument rows of document [d]. *)
Definition rowsOf (d : nat) (w : World) : list ApprovedDocument :=
  filter (fun a => approved_document_id a = d) (approved_documents (db w)).

End Backend.

(** ** The document life cycle

    The endpoints for upload, lock, unlock, submit and reset are in
    [backend/main.py] and are not listed in the repository's documents;
    they follow section 4.6 of the design document.  The review decision is
    [Backend.review_submission] above. *)

Module Lifecycle.
Import Backend.

Definition setDocument (d : nat) (document : Document) (w : World) : World :=
  {| db := {| documents := <[d := document]> (documents (db w));
              submissions := submissions (db w);
              approved_documents := approved_documents (db w) |};
     files := files w |}.

(** Modelled from the spec: the upload endpoint is missing; "upload ->
    locked (documents are protected by default)". *)
Definition upload (path : string) (w : World) : World :=
  setDocument (fresh (dom (documents (db w))))
    {| file_path := path; status := "locked"; is_locked := true |} w.

(** Modelled from the spec: the unlock endpoint is missing; "locked/draft ->
    draft on unlock; a force unlock is permitted from any state and always
    resets to draft".  A refused unlock changes nothing. *)
Definition unlock (d : nat) (force : bool) (w : World) : World :=
  match documents (db w) !! d with
  | None => w
  | Some document =>
      if force || String.eqb (status document) "locked"
         || String.eqb (status document) "draft"
      then setDocument d
             {| file_path := file_path document; status := "draft";
                is_locked := false |} w
      else w
  end.

(** Modelled from the spec: the lock endpoint is missing; "draft -> locked on
    lock". *)
Definition lock (d : nat) (w : World) : World :=
  match documents (db w) !! d with
  | None => w
  | Some document =>
      if String.eqb (status document) "draft"
      then setDocument d
             {| file_path := file_path document; status := "locked";
                is_locked := true |} w
      else w
  end.

(** Modelled from the spec: the submit endpoint is missing; "locked ->
    submitted on submit, creating a Submission snapshot", a draft being
    locked implicitly; "submit is rejected (error, not state change) if there
    are unresolved gaps required for completeness, or if the document is
    already in submitted/under_review/approved". *)
Definition submit (d : nat) (unresolved_gaps : bool) (xml json : string)
    (w : World) : World :=
  match documents (db w) !! d with
  | None => w
  | Some document =>
      if unresolved_gaps
         || String.eqb (status document) "submitted"
         || String.eqb (status document) "under_review"
         || String.eqb (status document) "approved"
      then w
      else
        {| db := {| documents :=
                      <[d := {| file_path := file_path document;
                                status := "submitted"; is_locked := true |}]>
                        (documents (db w));
                    submissions :=
                      <[fresh (dom (submissions (db w))) :=
                          {| document_id := d; submission_status := "submitted";
                             reviewed_by := None; reviewed_at := None;
                             review_notes := None; document_xml := xml;
                             normalized_json := json |}]> (submissions (db w));
                    approved_documents := approved_documents (db w) |};
           files := files w |}
  end.

(** Modelled from the spec: the reset endpoint is missing; "any state ->
    draft+unlocked via explicit reset". *)
Definition reset (d : nat) (w : World) : World :=
  match documents (db w) !! d with
  | None => w
  | Some document =>
      setDocument d
        {| file_path := file_path document; status := "draft";
           is_locked := false |} w
  end.

Inductive Command :=
  | Upload (path : string)
  | Unlock (d : nat) (force : bool)
  | Lock (d : nat)
  | Submit (d : nat) (unresolved_gaps : bool) (xml json : string)
  | Review (r : Request)
  | Reset (d : nat).

Definition step (w : World) (c : Command) : World :=
  match c with
  | Upload path => upload path w
  | Unlock d force => unlock d force w
  | Lock d => lock d w
  | Submit d gaps xml json => submit d gaps xml json w
  | Review r => snd (handle w r)
  | Reset d => reset d w
  end.

Definition empty : World :=
  {| db := {| documents := ∅; submissions := ∅; approved_documents := [] |};
     files := ∅ |}.

(** The worlds that the commands reach from the empty one. *)
Definition reachable (w : World) : Prop :=
  ∃ cs : list Command, w = foldl step empty cs.

(** The lock bit agrees with the status. *)
Definition consistent (document : Document) : Prop :=
  (status document = "approved" → is_locked document = true)
  ∧ (status document = "draft" → is_locked document = false).

End Lifecycle.

(** ** Vocabulary of the statements *)

Module Spec.
Import Js Dom DocumentViewer.

(** The shape of the loops of [handleSave]: the element of the state at the
    index of the visited item is replaced, if there is one. *)
Definition updateEach {A B : Type} (g : A → B → B) (l : list A) (s : list B)
  : list B :=
  forEach (fun a i s =>
    match s !! i with
    | Some b => <[i := g a b]> s
    | None => s
    end) l s.

(** A string of white space only. *)
Definition blank (s : string) : bool :=
  forallb isWhiteSpace (list_ascii_of_string s).

(** The value of the last change event of a session that reached the cell at
    [(rowIdx, cellIdx)], if any did: events that arrive while the table is
    locked do nothing. *)
Definition lastValueAt (rowIdx cellIdx : nat) (es : list TableEditor.Edit)
  : option string :=
  last (omap (fun e : TableEditor.Edit =>
                let '(isLocked, r, k, newValue) := e in
                if negb isLocked && bool_decide (r = rowIdx ∧ k = cellIdx)
                then Some newValue else None) es).

(** The cell, the row and the table that [handleSave] extracts from a cell,
    a row and a table of the view when it has no structure to start from. *)
Definition extractedCell (tableIdx rowIdx cellIdx : nat) (cell : Node) : Cell :=
  freshCell ("cell_" +:+ pretty tableIdx +:+ "_" +:+ pretty rowIdx
             +:+ "_" +:+ pretty cellIdx)
            (trim (textContent (stripHighlights cell))).

Definition extractedRow (tableIdx rowIdx : nat) (row : Node) : Row :=
  {| row_id := "row_" +:+ pretty tableIdx +:+ "_" +:+ pretty rowIdx;
     cells := imap (extractedCell tableIdx rowIdx) (querySelectorAll sel_td_th row) |}.

Definition extractedTable (tableIdx : nat) (table : Node) : Table :=
  {| table_id := "table_" +:+ pretty tableIdx; name := None;
     column_headers := None;
     rows := imap (extractedRow tableIdx) (querySelectorAll sel_tr table) |}.

(** No paragraph of the view is empty or white space only, and every table
    of the view has a row. *)
Definition wellFilled (root : Container) : bool :=
  forallb (fun p => truthy (trim (textContent p))) (queryAll sel_p root)
  && forallb (fun t => negb (bool_decide (querySelectorAll sel_tr t = [])))
       (queryAll sel_table root).

(** The words and forms that [highlightTextContent] looks for, in lower
    case. *)
Definition highlightedWords : list string :=
  nullAndMissingWords ++ ["(pending)"; "pending)"; "(pending"; "pending"].

(** An item whose placeholder, if it is one, stands for one of the words. *)
Definition itemOk (i : Item) : Prop :=
  match i with
  | Ch _ => True
  | Placeholder _ m => toLowerCase m ∈ highlightedWords
  end.

(** A node that [highlightTextContent] may produce: a text node, or a
    highlight span around one of the words, in any letter case. *)
Definition textOrHighlight (n : Node) : Prop :=
  (∃ s, n = Text s)
  ∨ (∃ m, n = Elem SPAN highlightAttrs [Text m]
          ∧ toLowerCase m ∈ highlightedWords).

(** *** Highlighting that leaves every character where it is *)

(** The pieces that step 5 is meant to give: every span where its match
    was. *)
Fixpoint piecesOfItems (pending : string) (l : list Item) : list Piece :=
  match l with
  | [] => [Lit pending]
  | Ch c :: l' => piecesOfItems (pending +:+ String c EmptyString) l'
  | Placeholder _ m :: l' => Lit pending :: Span m :: piecesOfItems EmptyString l'
  end.

#[global] Instance Piece_eq_dec : EqDecision Piece.
Proof. solve_decision. Defined.

(** The pieces that are not an empty text. *)
Definition solid (pieces : list Piece) : list Piece :=
  List.filter (fun piece => match piece with
                            | Lit EmptyString => false
                            | _ => true
                            end) pieces.

(** Step 5 puts every span where its match was.  It does not when the text
    of a placeholder occurs in the processed text before the placeholder
    itself: in a text that holds such a text already, or when the end of one
    placeholder, digits that stand alone between two matches, and the
    beginning of the next placeholder read as a third one, as in
    "(Pending)0(Pending) null". *)
Definition inPlace (text : string) : bool :=
  bool_decide (solid (step5 (runSteps text))
               = solid (piecesOfItems EmptyString (runSteps text))).

(** The text is left alone by [highlightTextNode], or highlighted in
    place. *)
Definition leftOrInPlace (text : string) : bool :=
  includes text "=" || startsWith (trim text) "/"
  || negb (truthy text) || negb (truthy (trim text))
  || inPlace text.

(** Every text of the document is. *)
Definition highlightedInPlace (root : Container) : bool :=
  forallb (fun n => match n with
                    | Text s => leftOrInPlace s
                    | Elem _ _ _ => true
                    end) (containerDescendants root).

(** [highlightTextNode] on such a text, and a text node as it is otherwise. *)
Definition inPlaceOrSame (text : string) : list Node :=
  if leftOrInPlace text then highlightTextNode text else [Text text].

(** A list of sibling nodes as the parsing of HTML gives it: no text node
    is empty, and none follows another text node. *)
Fixpoint separated (cs : list Node) : bool :=
  match cs with
  | Text s :: ((Text _ :: _) as rest) => false
  | Text s :: rest => truthy s && separated rest
  | Elem _ _ _ :: rest => separated rest
  | [] => true
  end.

(** The tree of an HTML text. *)
Definition parsedHtml (root : Container) : bool :=
  separated root
  && forallb (fun n => separated (childNodesOf n)) (containerDescendants root).

(** The number of characters of a list of text nodes. *)
Definition textLength (nodes : list TextNode) : nat :=
  sum_list_with (String.length ∘ snd) nodes.

(** The view has an element at a path; the element there carries a cell
    identifier of the form that [loadDocument] gives. *)
Definition elementAt (root : Container) (p : Path) : Prop :=
  ∃ n, nodeAt p root = Some n ∧ isElement n = true.

Definition taggedAt (root : Container) (p : Path) : Prop :=
  ∃ n tableIdx rowIdx cellIdx,
    nodeAt p root = Some n
    ∧ isElement n = true
    ∧ data_cell_id (attrsOf n) = Some (cellIdOf tableIdx rowIdx cellIdx).

(** A pair of a path and the node of the view at that path. *)
Definition located (root : Container) (qn : Path * Node) : Prop :=
  nodeAt (fst qn) root = Some (snd qn).

(** *** The search of [restoreCursorPosition], in words *)

(** The saved cell id, if there is one, can stand between double quotes. *)
Definition quotableId (saved : SavedSelection) : Prop :=
  ∀ cid, cellId saved = Some cid → quotable cid = true.

(** An element with a given [data-cell-id]; an element whose [data-editing]
    is "true". *)
Definition carriesCellId (cid : string) (n : Node) : Prop :=
  isElement n = true ∧ data_cell_id (attrsOf n) = Some cid.

Definition markedEditing (n : Node) : Prop :=
  isElement n = true ∧ data_editing (attrsOf n) = Some "true".

Definition isTable (n : Node) : bool :=
  match n with
  | Elem TABLE _ _ => true
  | _ => false
  end.

Definition isRow (n : Node) : bool :=
  match n with
  | Elem TR _ _ => true
  | _ => false
  end.

Definition isCell (n : Node) : bool :=
  match n with
  | Elem TD _ _ | Elem TH _ _ => true
  | _ => false
  end.

Definition isParagraph (n : Node) : bool :=
  match n with
  | Elem P _ _ => true
  | _ => false
  end.

(** [s] begins with [start]; the first [n] characters of [s], or all of it
    when it has fewer. *)
Definition beginsWith (s start : string) : Prop := ∃ rest, s = start +:+ rest.

Definition firstChars (n : nat) (s : string) : string :=
  string_of_list_ascii (take n (list_ascii_of_string s)).

(** The text an element shows, without the white space at its ends. *)
Definition shownText (n : Node) : string := trim (textContent n).

(** A cell or paragraph whose text is not empty and equals the edited text,
    begins with it, begins it, or agrees with it on 50 characters, or on as
    many as the other text has when that is less. *)
Definition matchesEdited (edited : string) (n : Node) : Prop :=
  (isCell n = true ∨ isParagraph n = true)
  ∧ shownText n ≠ ""
  ∧ (shownText n = trim edited
     ∨ beginsWith (shownText n) (trim edited)
     ∨ beginsWith (trim edited) (shownText n)
     ∨ firstChars (Nat.min 50 (String.length (trim edited))) (shownText n)
       = firstChars (Nat.min 50 (String.length (shownText n))) (trim edited)).

(** A cell or paragraph whose text is not empty and begins with the text
    from before the edit, begins it, or has the same first 50 characters. *)
Definition matchesOriginal (original : string) (n : Node) : Prop :=
  (isCell n = true ∨ isParagraph n = true)
  ∧ shownText n ≠ ""
  ∧ (beginsWith (shownText n) (trim original)
     ∨ beginsWith (trim original) (shownText n)
     ∨ firstChars 50 (shownText n) = firstChars 50 (trim original)).

(** [e] is the first node of [l] that meets [P], [l] being in document
    order; or there is none. *)
Definition firstMeeting (P : Node → Prop) (l : list Target) (e : option Target)
  : Prop :=
  match e with
  | Some e =>
      ∃ before after,
        l = before ++ e :: after ∧ P (snd e)
        ∧ ∀ x, x ∈ before → ¬ P (snd x)
  | None => ∀ x, x ∈ l → ¬ P (snd x)
  end.

(** [e] is the node of [l] that meets [P] and has exactly [i] nodes meeting
    [P] before it; or fewer than [i + 1] nodes of [l] meet [P]. *)
Definition numberMeeting (P : Node → bool) (l : list Target) (i : nat)
    (e : option Target) : Prop :=
  match e with
  | Some e =>
      ∃ before after,
        l = before ++ e :: after ∧ P (snd e) = true
        ∧ length (List.filter (fun x => P (snd x)) before) = i
  | None => (length (List.filter (fun x => P (snd x)) l) <= i)%nat
  end.

(** The nodes below an element that was found, in document order. *)
Definition below (e : option Target) : list Target :=
  match e with
  | Some e => descendantsAt (fst e) (snd e)
  | None => []
  end.

(** The first attempt that found an element. *)
Definition firstFound (attempts : list (option Target)) : option Target :=
  foldr (fun attempt later =>
           match attempt with
           | Some e => Some e
           | None => later
           end) None attempts.

(** The element that the search settles on, or none: six attempts, each
    described by what it looks for, of which the first that finds an element
    decides. *)
Definition locates (saved : SavedSelection) (root : Container)
    (e : option Target) : Prop :=
  let view := containerDescendantsAt root in
  ∃ byId byMark byPosition byEdited byOriginal byIndex : option Target,
    (* the first element that carries the saved cell id *)
    match cellId saved with
    | Some cid =>
        if decide (cid = "") then byId = None
        else firstMeeting (carriesCellId cid) view byId
    | None => byId = None
    end
    (* the first element still marked as being edited *)
    ∧ firstMeeting markedEditing view byMark
    (* the cell at the saved indices: of the tables of the view, of the rows
       below that table, of the cells below that row *)
    ∧ match cellPosition saved with
      | Some (tableIndex, rowIndex, cellIndex) =>
          ∃ table row,
            numberMeeting isTable view tableIndex table
            ∧ numberMeeting isRow (below table) rowIndex row
            ∧ numberMeeting isCell (below row) cellIndex byPosition
      | None => byPosition = None
      end
    (* the first cell or paragraph that matches the edited text *)
    ∧ match editedText saved with
      | Some edited =>
          if decide (edited = "") then byEdited = None
          else firstMeeting (matchesEdited edited) view byEdited
      | None => byEdited = None
      end
    (* the first cell or paragraph that matches the text before the edit *)
    ∧ (if decide (savedTextContent saved = "") then byOriginal = None
       else firstMeeting (matchesOriginal (savedTextContent saved)) view
              byOriginal)
    (* the paragraph at the saved index *)
    ∧ match paragraphIndex saved with
      | Some idx => numberMeeting isParagraph view idx byIndex
      | None => byIndex = None
      end
    ∧ e = firstFound [byId; byMark; byPosition; byEdited; byOriginal; byIndex].

(** The fields of a table that a save leaves alone. *)
Definition sameHeader (t t' : Table) : Prop :=
  column_headers t' = column_headers t
  ∧ table_id t' = table_id t
  ∧ name t' = name t.

(** The view shows, in every cell and paragraph that the structure also has,
    the stored text up to surrounding white space. *)
Definition displays (root : Container) (s : DocumentStructure) : Prop :=
  (∀ i j k hc c,
     htmlCellOf root i j k = Some hc → cellOf s i j k = Some c →
     text c = Some (trim (textContent hc)))
  ∧ (∀ i hp p,
       queryAll sel_p root !! i = Some hp → paragraphsOf s !! i = Some p →
       para_text p = trim (textContent hp)).

(** The same, as a test. *)
Definition displaysb (root : Container) (s : DocumentStructure) : bool :=
  forallb (fun '(i, t) =>
    forallb (fun '(j, r) =>
      forallb (fun '(k, c) =>
        match htmlCellOf root i j k with
        | Some hc => bool_decide (text c = Some (trim (textContent hc)))
        | None => true
        end) (imap pair (cells r)))
      (imap pair (rows t)))
    (imap pair (tablesOf s))
  && forallb (fun '(i, p) =>
       match queryAll sel_p root !! i with
       | Some hp => bool_decide (para_text p = trim (textContent hp))
       | None => true
       end) (imap pair (paragraphsOf s)).

(** The text of a list of sibling nodes. *)
Definition textContentOf (cs : list Node) : string :=
  concatStrings (map textContent cs).

(** The elements that the loops of [handleSave] look for. *)
Definition structural (n : Node) : bool :=
  sel_table n || sel_tr n || sel_td_th n || sel_p n.

(** A selector of such elements, by tag name alone. *)
Record StructuralSelector (sel : Node → bool) : Prop := {
  sel_structural : ∀ n, sel n = true → structural n = true;
  sel_by_tag : ∀ t a a' cs cs', sel (Elem t a cs) = sel (Elem t a' cs')
}.

(** A node without such elements in or below it. *)
Definition plain (n : Node) : Prop :=
  Forall (fun d => structural d = false) (n :: descendants n).

(** A transformation of trees: text nodes are rewritten by [onText],
    attributes by [onAttrs], and the children of an element whose tag
    [splice] selects take the place of the element. *)
Section Transform.

Variable onText : string → list Node.
Variable splice : Tag → bool.
Variable onAttrs : Attrs → Attrs.

Fixpoint transform (n : Node) : list Node :=
  match n with
  | Text s => onText s
  | Elem t a cs =>
      if splice t then flat_map transform cs
      else [Elem t (onAttrs a) (flat_map transform cs)]
  end.

(** What becomes of an element that is kept. *)
Definition transformElement (n : Node) : Node :=
  match n with
  | Text s => Text s
  | Elem t a cs => Elem t (onAttrs a) (flat_map transform cs)
  end.

End Transform.

Definition isSpan (t : Tag) : bool :=
  match t with
  | SPAN => true
  | _ => false
  end.

(** A view without attributes and without [span] wrappers: what is left of
    it once highlighting, identifiers and gap classes are taken away. *)
Definition bare : Node → list Node :=
  transform (fun s => [Text s]) isSpan (fun _ => noAttrs).

Definition bareView (root : Container) : Container := flat_map bare root.

(** The section id and the two files that an approval of document [d]
    generates when the clock reads [stamp]. *)
Definition sectionIdOf (d : nat) (stamp : string) : string :=
  "DOC-" +:+ pretty d +:+ "-" +:+ stamp.

Definition xmlPathOf (d : nat) (stamp : string) : string :=
  Backend.APPROVED_DIR +:+ "/" +:+ sectionIdOf d stamp +:+ ".xml".

Definition jsonPathOf (d : nat) (stamp : string) : string :=
  Backend.APPROVED_DIR +:+ "/" +:+ sectionIdOf d stamp +:+ ".json".

(** The submission as a review leaves it. *)
Definition reviewed (review : Backend.SubmissionReview) (env : Backend.Env)
    (submission : Backend.Submission) : Backend.Submission :=
  {| Backend.document_id := Backend.document_id submission;
     Backend.submission_status := Backend.review_status review;
     Backend.reviewed_by := Some (Backend.review_reviewed_by review);
     Backend.reviewed_at := Some (Backend.utcnow env);
     Backend.review_notes := Backend.review_review_notes review;
     Backend.document_xml := Backend.document_xml submission;
     Backend.normalized_json := Backend.normalized_json submission |}.

(** The structured data that an approval writes: that of the document as
    it is now, or else the data of the submission. *)
Definition approvedData (env : Backend.Env) (submission : Backend.Submission)
  : string :=
  match Backend.docx_structured_data env with
  | Some (Some data) => data
  | _ => Backend.normalized_json submission
  end.

(** Every document of the world has a lock bit that agrees with its
    status. *)
Definition allConsistent (w : Backend.World) : Prop :=
  ∀ d document,
    Backend.documents (Backend.db w) !! d = Some document →
    Lifecycle.consistent document.

End Spec.

(** ** Sample documents and requests *)

Module Samples.
Import Dom DocumentViewer TableEditor.

Definition sampleTable : Table :=
  mkTable "table_0" None (Some ["Name"; "Catalog #"])
    [ mkRow "row_0" [ freshCellOf "Name"; freshCellOf "Catalog #" ];
      mkRow "row_1" [ freshCellOf "Buffer"; freshCellOf "(Pending)" ] ].

Definition sampleAfterFirstEdit : Table :=
  default sampleTable (handleCellChange false 1 1 "CAT-12" sampleTable).

Definition sampleAfterEdits : Table :=
  default sampleTable
    (applyEdits [(false, 1, 1, "CAT-123"); (false, 0, 0, "Item")]
       sampleAfterFirstEdit).

(** A cell that arrives with [was_gap] set and without [original_has_gap],
    as a structure written by another program may hold it, and a table with
    that cell alone. *)
Definition flaggedCell : Cell :=
  mkCell "cell_0_0" (Some "CAT-1") false false false false false None true false.

Definition flaggedTable : Table :=
  mkTable "table_1" None None [ mkRow "row_0" [ flaggedCell ] ].

Definition td (s : string) : Node := Elem TD noAttrs [Text s].
Definition th (s : string) : Node := Elem TH noAttrs [Text s].
Definition tr (cs : list Node) : Node := Elem TR noAttrs cs.
Definition table (rs : list Node) : Node := Elem TABLE noAttrs [Elem TBODY noAttrs rs].
Definition p (s : string) : Node := Elem P noAttrs [Text s].

(** A structure with one table, whose header row holds the column names. *)
Definition catalogStructure : DocumentStructure :=
  {| paragraphs := Some [ {| para_text := "3.Equipment Configuration" |} ];
     tables :=
       Some [ mkTable "table_0" (Some "Materials") (Some ["Name"; "Catalog #"])
                [ mkRow "row_0" [ freshCellOf "Name"; freshCellOf "Catalog #" ];
                  mkRow "row_1" [ freshCellOf "Buffer"; freshCellOf "(Pending)" ] ] ] |}.

(** An edited view of it: the header row was typed over, a value filled in. *)
Definition catalogEdited : Container :=
  [ p "3.Equipment Configuration";
    table [ tr [ th "BG_ATN"; th "Material_CTG#" ];
            tr [ td "Buffer"; td " CAT-123 " ] ] ].

(** A structure in which a value was typed with a blank after it, in the
    table editor, and the converted document that shows every text of the
    structure as it is stored. *)
Definition spacedStructure : DocumentStructure :=
  {| paragraphs := Some [ {| para_text := "3.Equipment Configuration" |} ];
     tables :=
       Some [ default sampleTable
                (handleCellChange false 1 1 "CAT-123 " sampleTable) ] |}.

Definition spacedConverted : Container :=
  [ p "3.Equipment Configuration";
    table [ tr [ th "Name"; th "Catalog #" ];
            tr [ td "Buffer"; td "CAT-123 " ] ] ].

(** A structure with one cell, whose text has a digit alone between two
    highlighted forms and a highlighted word after them, and the converted
    document that shows it. *)
Definition displacedStructure : DocumentStructure :=
  {| paragraphs := None;
     tables :=
       Some [ mkTable "table_0" None None
                [ mkRow "row_0" [ freshCellOf "(Pending)0(Pending) null" ] ] ] |}.

Definition displacedConverted : Container :=
  [ table [ tr [ td "(Pending)0(Pending) null" ] ] ].

(** A reloaded view with two paragraphs, and the anchor of a caret that was
    in the second one, whose text was edited from "Stat" to "Status". *)
Definition statusView : Container :=
  project None [ p "Status: null"; p "Status" ].

Definition statusAnchor : SavedSelection :=
  {| cellId := None; savedTextContent := "Stat"; cellPosition := None;
     paragraphIndex := Some 1; offset := 4; editedText := Some "Status" |}.

(** The anchor of a caret in the cell at row 1, column 1 of the first table,
    after "CAT-12" was edited to "CAT-123". *)
Definition cellAnchor : SavedSelection :=
  {| cellId := Some "table-0-row-1-cell-1"; savedTextContent := "CAT-12";
     cellPosition := Some (0, 1, 1)%nat; paragraphIndex := None;
     offset := 6; editedText := Some "CAT-123" |}.

Section Requests.
Import Backend Lifecycle.

(** A document under review, with its submission. *)
Definition sampleWorld : World :=
  {| db := {| documents := {[ 1 := mkDocument "uploads/a.docx" "submitted" true ]};
              submissions :=
                {[ 7 := mkSubmission 1 "submitted" None None None "<xml/>" "{}" ]};
              approved_documents := [] |};
     files := ∅ |}.

Definition sampleEnv (stamp : string) : Env :=
  {| utcnow := 100; utcnow_stamp := stamp; docx_structured_data := Some None;
     normalized_json_loads := true; remove_xml_ok := true;
     remove_json_ok := true; write_xml_ok := true; write_json_ok := true;
     commit_ok := true |}.

Definition approveRequest (stamp : string) : Request :=
  {| req_submission_id := 7;
     req_review := mkReview "approved" (Some "Looks good") "Reviewer";
     req_env := sampleEnv stamp |}.

Definition rejectRequest : Request :=
  {| req_submission_id := 7;
     req_review := mkReview "rejected" None "Reviewer";
     req_env := sampleEnv "20251125003700" |}.

(** The world after a first approval, and a second approval during which
    the new XML file, or the new JSON file, cannot be written. *)
Definition approvedWorld : World :=
  snd (handle sampleWorld (approveRequest "20251125003620")).

Definition failingRequest (xml_ok json_ok : bool) : Request :=
  {| req_submission_id := 7;
     req_review := mkReview "approved" None "Reviewer";
     req_env :=
       {| utcnow := 200; utcnow_stamp := "20251125003800";
          docx_structured_data := Some None; normalized_json_loads := true;
          remove_xml_ok := true; remove_json_ok := true;
          write_xml_ok := xml_ok; write_json_ok := json_ok;
          commit_ok := true |} |}.

Definition sampleCommands : list Command :=
  [ Upload "uploads/a.docx"; Unlock 0 false; Lock 0;
    Submit 0 false "<xml/>" "{}";
    Review {| req_submission_id := 0;
              req_review := mkReview "rejected" (Some "Fix the gaps") "Reviewer";
              req_env := sampleEnv "20251125003620" |};
    Submit 0 false "<xml/>" "{}";
    Review {| req_submission_id := 1;
              req_review := mkReview "approved" None "Reviewer";
              req_env := sampleEnv "20251125003800" |} ].

End Requests.

End Samples.

(** * Properties *)

(** ** JavaScript strings *)

Module JsFacts.
Import Js Spec.

Lemma truthy_true (s : string) : truthy s = true ↔ s ≠ "".
Proof.
  unfold truthy. rewrite negb_true_iff. split.
  - intros H ->. by rewrite String.eqb_refl in H.
  - intros H. by apply String.eqb_neq.
Qed.

Lemma truthy_false (s : string) : truthy s = false ↔ s = "".
Proof.
  unfold truthy. rewrite negb_false_iff. apply String.eqb_eq.
Qed.

Lemma append_cons (c : ascii) (s1 s2 : string) :
  String c s1 +:+ s2 = String c (s1 +:+ s2).
Proof. reflexivity. Qed.

Lemma append_assoc (s1 s2 s3 : string) : (s1 +:+ s2) +:+ s3 = s1 +:+ (s2 +:+ s3).
Proof. induction s1 as [|c s1 IH]; [done|]. by rewrite !append_cons, IH. Qed.

Lemma append_empty_r (s : string) : s +:+ "" = s.
Proof. induction s as [|c s IH]; [done|]. by rewrite append_cons, IH. Qed.

Lemma trim_empty : trim "" = "".
Proof. reflexivity. Qed.

Lemma toLowerCase_empty (s : string) : toLowerCase s = "" ↔ s = "".
Proof. by destruct s. Qed.

Lemma length_pos (s : string) : (0 <? String.length s)%nat = truthy s.
Proof. by destruct s. Qed.

(** [forEach] keeps whatever every call of the callback keeps. *)
Lemma forEachFrom_invariant {A St : Type} (P : St → Prop)
    (f : A → nat → St → St) (l : list A) :
  (∀ x i s, P s → P (f x i s)) →
  ∀ i s, P s → P (forEachFrom f i l s).
Proof.
  intros Hf. induction l as [|x l IH]; intros i s Hs; simpl; [done|].
  apply IH, Hf, Hs.
Qed.

Lemma forEach_invariant {A St : Type} (P : St → Prop)
    (f : A → nat → St → St) (l : list A) (s : St) :
  (∀ x i s, P s → P (f x i s)) → P s → P (forEach f l s).
Proof. intros Hf Hs. unfold forEach. by apply forEachFrom_invariant. Qed.

(** Callbacks that agree on the elements of two lists give the same result. *)
Lemma forEachFrom_ext {A B St : Type} (f : A → nat → St → St)
    (g : B → nat → St → St) (h : B → A) (l : list B) :
  (∀ x i s, x ∈ l → f (h x) i s = g x i s) →
  ∀ i s, forEachFrom f i (map h l) s = forEachFrom g i l s.
Proof.
  induction l as [|x l IH]; intros Hfg i s; simpl; [done|].
  rewrite Hfg; [|by left]. apply IH. intros y j t Hy. apply Hfg. by right.
Qed.

Lemma forEach_ext {A B St : Type} (f : A → nat → St → St)
    (g : B → nat → St → St) (h : B → A) (l : list B) (s : St) :
  (∀ x i s, x ∈ l → f (h x) i s = g x i s) →
  forEach f (map h l) s = forEach g l s.
Proof. intros Hfg. unfold forEach. by apply forEachFrom_ext. Qed.

Lemma lookup_updateEachFrom {A B : Type} (g : A → B → B) (l : list A) :
  ∀ (i0 : nat) (s : list B) (j : nat),
    forEachFrom (fun a i s =>
      match s !! i with
      | Some b => <[i := g a b]> s
      | None => s
      end) i0 l s !! j
    = if decide (i0 ≤ j)
      then match l !! (j - i0) with
           | Some a => g a <$> s !! j
           | None => s !! j
           end
      else s !! j.
Proof.
  induction l as [|a l IH]; intros i0 s j; simpl.
  - by case_decide.
  - rewrite IH. destruct (decide (S i0 ≤ j)) as [Hlt|Hge].
    + rewrite decide_True by lia.
      replace (j - i0) with (S (j - S i0)) by lia. simpl.
      assert (i0 ≠ j) as Hne by lia.
      destruct (s !! i0) eqn:Hi0; [|done].
      by rewrite list_lookup_insert_ne.
    + destruct (decide (i0 ≤ j)) as [Hle|Hgt].
      * assert (j = i0) as -> by lia. rewrite Nat.sub_diag. simpl.
        destruct (s !! i0) eqn:Hi0; [|done].
        rewrite list_lookup_insert_eq; [done|]. by eapply lookup_lt_Some.
      * assert (i0 ≠ j) as Hne by lia.
        destruct (s !! i0) eqn:Hi0; [|done].
        by rewrite list_lookup_insert_ne.
Qed.

Lemma lookup_updateEach {A B : Type} (g : A → B → B) (l : list A)
    (s : list B) (j : nat) :
  updateEach g l s !! j =
    match l !! j with
    | Some a => g a <$> s !! j
    | None => s !! j
    end.
Proof.
  unfold updateEach, forEach. rewrite lookup_updateEachFrom.
  rewrite decide_True by lia. by rewrite Nat.sub_0_r.
Qed.

Lemma length_updateEach {A B : Type} (g : A → B → B) (l : list A) (s : list B) :
  length (updateEach g l s) = length s.
Proof.
  unfold updateEach. apply (forEach_invariant (fun s' => length s' = length s));
    [|done].
  intros a i s' Hs'. destruct (s' !! i); [|done]. by rewrite length_insert.
Qed.

Lemma updateEach_map {A A' B : Type} (g : A → B → B) (g' : A' → B → B)
    (h : A' → A) (l : list A') (s : list B) :
  (∀ a b, g (h a) b = g' a b) →
  updateEach g (map h l) s = updateEach g' l s.
Proof.
  intros Hg. unfold updateEach. apply forEach_ext.
  intros a i t _. destruct (t !! i); [|done]. by rewrite Hg.
Qed.

Lemma updateEach_nil {A B : Type} (g : A → B → B) (l : list A) :
  updateEach g l [] = [].
Proof. apply nil_length_inv. by rewrite length_updateEach. Qed.

(** A loop over a record field is the loop over the field. *)
Lemma forEachFrom_field {A St T : Type} (f : A → nat → St → St)
    (g : A → nat → T → T) (wrap : T → St) (l : list A) :
  (∀ a i t, f a i (wrap t) = wrap (g a i t)) →
  ∀ i t, forEachFrom f i l (wrap t) = wrap (forEachFrom g i l t).
Proof.
  intros Hfg. induction l as [|a l IH]; intros i t; simpl; [done|].
  by rewrite Hfg, IH.
Qed.

End JsFacts.

(** ** TableEditor.js: the gap classifier *)

Module TableEditorProofs.
Import Js JsFacts TableEditor Samples.

Lemma hasGap_false_text (c : Cell) :
  hasGap c = false → trim (textOrEmpty c) ≠ "".
Proof.
  unfold hasGap. destruct (_ || _ || _ || _ || _); [done|].
  intros H Hempty.
  apply orb_false_iff in H as [_ H]. unfold missingText in H.
  apply orb_false_iff in H as [H _]. apply negb_false_iff, truthy_true in H.
  apply H. by rewrite Hempty.
Qed.

(** The cell at a position after one change event. *)
Lemma cellAt_handleCellChange isLocked r k v t t' i j :
  handleCellChange isLocked r k v t = Some t' →
  cellAt i j t' =
    if isLocked then cellAt i j t
    else if bool_decide (i = r ∧ j = k) then editCell v <$> cellAt i j t
    else cellAt i j t.
Proof.
  unfold handleCellChange, cellAt. destruct isLocked; [by intros [= <-]|].
  destruct (rows t !! r) as [row|] eqn:Hrow; [|done]. simpl.
  destruct (cells row !! k) as [c|] eqn:Hc; [|done]. simpl.
  intros [= <-]. simpl.
  destruct (decide (i = r)) as [->|Hir].
  - rewrite list_lookup_insert_eq by (eapply lookup_lt_Some; eassumption).
    rewrite Hrow. simpl.
    destruct (decide (j = k)) as [->|Hjk].
    + rewrite bool_decide_eq_true_2 by done.
      rewrite list_lookup_insert_eq by (eapply lookup_lt_Some; eassumption).
      by rewrite Hc.
    + rewrite bool_decide_eq_false_2 by (by intros [_ ?]).
      by rewrite list_lookup_insert_ne.
  - rewrite bool_decide_eq_false_2 by (by intros [? _]).
    by rewrite list_lookup_insert_ne.
Qed.

Lemma editCell_keeps_capture v c o :
  original_has_gap c = Some o →
  original_has_gap (editCell v c) = Some o ∧ was_gap (editCell v c) = was_gap c.
Proof. intros H. unfold editCell. by rewrite H. Qed.

Lemma editCell_captured v c : is_Some (original_has_gap (editCell v c)).
Proof. unfold editCell. destruct (original_has_gap c); eauto. Qed.

(** Once the gap state of a cell has been captured, no sequence of change
    events alters it. *)
Lemma applyEdits_keeps_capture es : ∀ t t' i j c o,
  applyEdits es t = Some t' →
  cellAt i j t = Some c →
  original_has_gap c = Some o →
  ∃ c', cellAt i j t' = Some c'
        ∧ original_has_gap c' = Some o ∧ was_gap c' = was_gap c.
Proof.
  induction es as [|[[[isLocked r] k] v] es IH]; intros t t' i j c o Hrun Hc Ho.
  - injection Hrun as <-. eauto.
  - simpl in Hrun.
    destruct (handleCellChange isLocked r k v t) as [t1|] eqn:Hstep; [|done].
    simpl in Hrun.
    pose proof (cellAt_handleCellChange _ _ _ _ _ _ i j Hstep) as Hc1.
    rewrite Hc in Hc1. destruct isLocked; [by eapply IH|].
    case_bool_decide.
    + simpl in Hc1. destruct (editCell_keeps_capture v c o Ho) as [Ho1 Hw1].
      destruct (IH _ _ _ _ _ _ Hrun Hc1 Ho1) as (c' & ? & ? & ?).
      exists c'. repeat split; congruence.
    + by eapply IH.
Qed.

(** C10.  The pending test is by containment: whenever the trimmed,
    lower-cased value contains "(pending)", "pending)" or "(pending", or is
    "pending", [handleCellChange] sets [is_pending] and [has_gap], and
    [hasGap] reports a gap for any cell with that text. *)
Theorem pending_by_containment (newValue : string) (c : Cell) :
  let lowered := toLowerCase (trim newValue) in
  includes lowered "(pending)" = true ∨ includes lowered "pending)" = true
  ∨ includes lowered "(pending" = true ∨ lowered = "pending" →
  is_pending (editCell newValue c) = true
  ∧ has_gap (editCell newValue c) = true
  ∧ (text c = Some newValue → hasGap c = true).
Proof.
  intros lowered Hpending.
  assert (pendingText lowered = true) as Hp.
  { unfold pendingText. rewrite !orb_true_iff, String.eqb_eq. tauto. }
  split; [|split].
  - unfold editCell. by destruct (original_has_gap c).
  - unfold editCell. destruct (original_has_gap c); simpl; fold lowered;
      by rewrite Hp.
  - intros Ht. unfold hasGap, textOrEmpty. rewrite Ht. fold lowered. rewrite Hp.
    simpl. by destruct (_ || _ || _ || _ || _).
Qed.

Lemma pending_by_containment_witness :
  is_pending (editCell "delivery (Pending confirmation)" (freshCellOf "x")) = true
  ∧ has_gap (editCell "delivery (Pending confirmation)" (freshCellOf "x")) = true
  ∧ hasGap (freshCellOf "delivery (Pending confirmation)") = true.
Proof.
  destruct (pending_by_containment "delivery (Pending confirmation)"
              (freshCellOf "delivery (Pending confirmation)"))
    as (H1 & H2 & H3).
  - right. right. left. reflexivity.
  - split; [reflexivity|]. split; [reflexivity|]. apply H3. reflexivity.
Defined.

End TableEditorProofs.

(** ** DocumentViewer.js: merging the edited view *)

Module MergeProofs.
Import Js JsFacts Dom DocumentViewer Spec.

Lemma newTextOf_trim (n : Node) : newTextOf n = trim (textContent n).
Proof.
  unfold newTextOf. destruct (truthy (textContent n)) eqn:H; [done|].
  apply truthy_false in H. by rewrite H.
Qed.

Lemma text_mergeCell (hc : Node) (c : Cell) :
  text (mergeCell hc c) = Some (trim (textContent hc)).
Proof.
  unfold mergeCell. rewrite newTextOf_trim. case_bool_decide as H; [done|].
  destruct (decide (text c = Some (trim (textContent hc)))); [done|]. by destruct H.
Qed.

Lemma mergeCell_id (hc : Node) (c : Cell) :
  text c = Some (trim (textContent hc)) → mergeCell hc c = c.
Proof.
  intros H. unfold mergeCell. rewrite newTextOf_trim.
  by rewrite bool_decide_eq_false_2 by (by intros []).
Qed.

Lemma mergeParagraph_id (hp : Node) (p : Paragraph) :
  para_text p = trim (textContent hp) → mergeParagraph hp p = p.
Proof.
  intros H. unfold mergeParagraph. rewrite newTextOf_trim.
  by rewrite bool_decide_eq_false_2 by (by intros []).
Qed.

Lemma para_text_mergeParagraph (hp : Node) (p : Paragraph) :
  para_text (mergeParagraph hp p) = trim (textContent hp).
Proof.
  unfold mergeParagraph. rewrite newTextOf_trim. case_bool_decide as H; [done|].
  destruct (decide (para_text p = trim (textContent hp))); [done|]. by destruct H.
Qed.

(** The three loops, as updates of lists. *)
Lemma mergeRow_cells (hr : Node) (r : Row) :
  mergeRow hr r =
    {| row_id := row_id r;
       cells := updateEach mergeCell (querySelectorAll sel_td_th hr) (cells r) |}.
Proof.
  unfold mergeRow, updateEach, forEach. destruct r as [rid cs]. simpl.
  apply (forEachFrom_field _ _ (fun cs => {| row_id := rid; cells := cs |})).
  intros a i t. simpl. by destruct (t !! i).
Qed.

Lemma mergeTable_rows (ht : Node) (t : Table) :
  mergeTable ht t =
    {| table_id := table_id t; name := name t;
       column_headers := column_headers t;
       rows := updateEach mergeRow (querySelectorAll sel_tr ht) (rows t) |}.
Proof.
  unfold mergeTable, updateEach, forEach. destruct t as [tid nm hs rs]. simpl.
  rewrite (forEachFrom_field _
             (fun a i s => match s !! i with
                           | Some b => <[i := mergeRow a b]> s
                           | None => s
                           end)
             (fun rs => {| table_id := tid; name := nm; column_headers := hs;
                           rows := rs |}));
    [|intros a i t; simpl; by destruct (t !! i)].
  simpl. by destruct hs.
Qed.

Lemma mergeTables_updateEach (root : Container) (ts : list Table) :
  mergeTables root ts = updateEach mergeTable (queryAll sel_table root) ts.
Proof. reflexivity. Qed.

Lemma mergeParagraphs_updateEach (root : Container) (ps : list Paragraph) :
  mergeParagraphs root ps = updateEach mergeParagraph (queryAll sel_p root) ps.
Proof. reflexivity. Qed.

Lemma tablesOf_updateStructure (root : Container) (s : DocumentStructure) :
  tablesOf (updateStructure root s) = mergeTables root (tablesOf s).
Proof.
  unfold tablesOf, updateStructure. simpl. destruct (tables s); [done|].
  simpl. by rewrite mergeTables_updateEach, updateEach_nil.
Qed.

Lemma paragraphsOf_updateStructure (root : Container) (s : DocumentStructure) :
  paragraphsOf (updateStructure root s) = mergeParagraphs root (paragraphsOf s).
Proof.
  unfold paragraphsOf, updateStructure. simpl. destruct (paragraphs s); [done|].
  simpl. by rewrite mergeParagraphs_updateEach, updateEach_nil.
Qed.

Local Arguments mergeTable : simpl never.
Local Arguments mergeRow : simpl never.
Local Arguments mergeCell : simpl never.
Local Arguments mergeParagraph : simpl never.

(** The text of every cell after a save: that of the view's cell at the same
    indices when the view has one, the stored one otherwise. *)
Lemma cellOf_updateStructure (root : Container) (s : DocumentStructure)
    (i j k : nat) :
  cellOf (updateStructure root s) i j k =
    match htmlCellOf root i j k with
    | Some hc => mergeCell hc <$> cellOf s i j k
    | None => cellOf s i j k
    end.
Proof.
  unfold cellOf, htmlCellOf. rewrite tablesOf_updateStructure.
  rewrite mergeTables_updateEach, lookup_updateEach.
  destruct (queryAll sel_table root !! i) as [ht|]; cbn; [|done].
  destruct (tablesOf s !! i) as [t|]; cbn; [|by destruct (_ ≫= _)].
  rewrite mergeTable_rows. cbn. rewrite lookup_updateEach.
  destruct (querySelectorAll sel_tr ht !! j) as [hr|]; cbn; [|done].
  destruct (rows t !! j) as [r|]; cbn; [|by destruct (_ !! _)].
  rewrite mergeRow_cells. cbn. rewrite lookup_updateEach.
  by destruct (querySelectorAll sel_td_th hr !! k).
Qed.

Lemma paragraph_updateStructure (root : Container) (s : DocumentStructure)
    (i : nat) :
  paragraphsOf (updateStructure root s) !! i =
    match queryAll sel_p root !! i with
    | Some hp => mergeParagraph hp <$> paragraphsOf s !! i
    | None => paragraphsOf s !! i
    end.
Proof.
  by rewrite paragraphsOf_updateStructure, mergeParagraphs_updateEach,
    lookup_updateEach.
Qed.

Lemma mergeTables_sameHeader (root : Container) (ts : list Table) :
  Forall2 sameHeader ts (mergeTables root ts).
Proof.
  apply Forall2_same_length_lookup_2.
  - by rewrite mergeTables_updateEach, length_updateEach.
  - intros i t t' Ht. rewrite mergeTables_updateEach, lookup_updateEach, Ht.
    destruct (queryAll sel_table root !! i) as [ht|]; cbn.
    + intros [= <-]. by rewrite mergeTable_rows.
    + by intros [= <-].
Qed.

Lemma reconcileAll_sameHeader (views : list Container) :
  ∀ s, Forall2 sameHeader (tablesOf s) (tablesOf (reconcileAll views s)).
Proof.
  unfold reconcileAll.
  induction views as [|view views IH]; intros s; simpl.
  - apply Forall2_same_length_lookup_2; [done|].
    intros i t t' Ht Ht'. by assert (t' = t) as -> by congruence.
  - eapply Forall2_trans; [|apply (mergeTables_sameHeader view)|].
    2: { rewrite <- tablesOf_updateStructure. apply IH. }
    intros t1 t2 t3 (? & ? & ?) (? & ? & ?). repeat split; congruence.
Qed.

Lemma forallb_imap {A : Type} (f : nat * A → bool) (l : list A) (i : nat) (x : A) :
  forallb f (imap pair l) = true → l !! i = Some x → f (i, x) = true.
Proof.
  intros Hall Hx. rewrite forallb_forall in Hall. apply Hall.
  apply list_elem_of_In, elem_of_lookup_imap. eauto.
Qed.

Lemma displaysb_displays (root : Container) (s : DocumentStructure) :
  displaysb root s = true → displays root s.
Proof.
  unfold displaysb. rewrite andb_true_iff. intros [Hcells Hparas]. split.
  - intros i j k hc c Hhc Hc. unfold cellOf in Hc.
    destruct (tablesOf s !! i) as [t|] eqn:Ht; [|done]. cbn in Hc.
    destruct (rows t !! j) as [r|] eqn:Hr; [|done]. cbn in Hc.
    pose proof (forallb_imap _ _ _ _ Hcells Ht) as H1. cbn in H1.
    pose proof (forallb_imap _ _ _ _ H1 Hr) as H2. cbn in H2.
    pose proof (forallb_imap _ _ _ _ H2 Hc) as H3. cbn in H3.
    rewrite Hhc in H3. by apply bool_decide_eq_true in H3.
  - intros i hp p Hhp Hp.
    pose proof (forallb_imap _ _ _ _ Hparas Hp) as H1. cbn in H1.
    rewrite Hhp in H1. by apply bool_decide_eq_true in H1.
Qed.

Lemma updateEach_id {A B : Type} (g : A → B → B) (l : list A) (s : list B) :
  (∀ i a b, l !! i = Some a → s !! i = Some b → g a b = b) →
  updateEach g l s = s.
Proof.
  intros H. apply list_eq. intros i. rewrite lookup_updateEach.
  destruct (l !! i) as [a|] eqn:Ha; [|done].
  destruct (s !! i) as [b|] eqn:Hb; [|done]. cbn. f_equal. by eapply H.
Qed.

Lemma mergeTables_id (root : Container) (ts : list Table) :
  (∀ i j k ht hr hc t r c,
     queryAll sel_table root !! i = Some ht →
     querySelectorAll sel_tr ht !! j = Some hr →
     querySelectorAll sel_td_th hr !! k = Some hc →
     ts !! i = Some t → rows t !! j = Some r → cells r !! k = Some c →
     text c = Some (trim (textContent hc))) →
  mergeTables root ts = ts.
Proof.
  intros H. rewrite mergeTables_updateEach. apply updateEach_id.
  intros i ht t Hht Ht. rewrite mergeTable_rows.
  destruct t as [tid nm hs rs]. cbn in *. f_equal. apply updateEach_id.
  intros j hr r Hhr Hr. rewrite mergeRow_cells.
  destruct r as [rid cs]. cbn in *. f_equal. apply updateEach_id.
  intros k hc c Hhc Hc. apply mergeCell_id.
  by eapply (H i j k ht hr hc _ _ c Hht Hhr Hhc Ht).
Qed.

(** A view that displays the structure is merged back without a change. *)
Lemma updateStructure_id (root : Container) (s : DocumentStructure) :
  displays root s → updateStructure root s = s.
Proof.
  intros [Hcells Hparas]. destruct s as [ps ts]. unfold updateStructure. cbn.
  f_equal.
  - destruct ps as [ps|]; [|done]. cbn. f_equal.
    rewrite mergeParagraphs_updateEach. apply updateEach_id.
    intros i hp p Hhp Hp. apply mergeParagraph_id. by eapply Hparas.
  - destruct ts as [ts|]; [|done]. cbn. f_equal. apply mergeTables_id.
    intros i j k ht hr hc t r c Hht Hhr Hhc Ht Hr Hc.
    apply (Hcells i j k hc c).
    + unfold htmlCellOf. rewrite Hht. cbn. rewrite Hhr. by cbn.
    + unfold cellOf, tablesOf. cbn. rewrite Ht. cbn. rewrite Hr. by cbn.
Qed.

End MergeProofs.

(** ** The rendered view: what the merge sees of it *)

Module DomProofs.
Import Js JsFacts Dom DocumentViewer Spec MergeProofs.

(** Induction over a tree and the trees below it. *)
Lemma Node_ind' (P : Node → Prop) :
  (∀ s, P (Text s)) →
  (∀ t a cs, Forall P cs → P (Elem t a cs)) →
  ∀ n, P n.
Proof.
  intros HText HElem.
  fix IH 1. intros [s|t a cs]; [apply HText|].
  apply HElem. induction cs as [|c cs IHcs]; constructor; [apply IH|apply IHcs].
Qed.

Lemma concatStrings_app (l1 l2 : list string) :
  concatStrings (l1 ++ l2) = concatStrings l1 +:+ concatStrings l2.
Proof.
  induction l1 as [|s l1 IH]; simpl; [done|].
  by rewrite IH, append_assoc.
Qed.

Lemma textContentOf_app (l1 l2 : list Node) :
  textContentOf (l1 ++ l2) = textContentOf l1 +:+ textContentOf l2.
Proof. unfold textContentOf. by rewrite map_app, concatStrings_app. Qed.

Lemma containerDescendants_app (l1 l2 : list Node) :
  containerDescendants (l1 ++ l2)
  = containerDescendants l1 ++ containerDescendants l2.
Proof. unfold containerDescendants. apply flat_map_app. Qed.

Lemma containerDescendants_cons (c : Node) (cs : list Node) :
  containerDescendants (c :: cs) = c :: descendants c ++ containerDescendants cs.
Proof. reflexivity. Qed.

Lemma descendants_Elem t a cs : descendants (Elem t a cs) = containerDescendants cs.
Proof. reflexivity. Qed.

Lemma structural_sel_table : StructuralSelector sel_table.
Proof.
  split.
  - intros n H. unfold structural. by rewrite H.
  - done.
Qed.

Lemma structural_sel_tr : StructuralSelector sel_tr.
Proof.
  split.
  - intros n H. unfold structural. rewrite H. by rewrite orb_true_r.
  - done.
Qed.

Lemma structural_sel_td_th : StructuralSelector sel_td_th.
Proof.
  split.
  - intros n H. unfold structural. rewrite H. by rewrite orb_true_r.
  - done.
Qed.

Lemma structural_sel_p : StructuralSelector sel_p.
Proof.
  split.
  - intros n H. unfold structural. rewrite H. by rewrite !orb_true_r.
  - done.
Qed.

(** *** Tree transformations that the merge does not see

    A transformation that rewrites text nodes into plain nodes with the same
    text, changes attributes, and may splice the children of an element that
    is not structural into its parent. *)
Section Transformation.

Variable onText : string → list Node.
Variable splice : Tag → bool.
Variable onAttrs : Attrs → Attrs.

Hypothesis onText_text : ∀ s, textContentOf (onText s) = s.
Hypothesis onText_plain : ∀ s, Forall plain (onText s).
Hypothesis splice_plain : ∀ t a cs, splice t = true → structural (Elem t a cs) = false.

Local Abbreviation transform := (Spec.transform onText splice onAttrs).
Local Abbreviation transformElement :=
  (Spec.transformElement onText splice onAttrs).

Lemma textContent_transform (n : Node) :
  textContentOf (transform n) = textContent n.
Proof.
  induction n as [s|t a cs IH] using Node_ind'; simpl; [apply onText_text|].
  assert (textContentOf (flat_map transform cs) = textContentOf cs) as Hcs.
  { induction IH as [|c cs Hc _ IHcs]; simpl; [done|].
    rewrite textContentOf_app, Hc, IHcs. done. }
  destruct (splice t); [done|].
  unfold textContentOf at 1. simpl. fold (textContentOf (flat_map transform cs)).
  rewrite Hcs. unfold textContentOf. simpl. apply append_empty_r.
Qed.

Lemma textContentOf_transform (cs : list Node) :
  textContentOf (flat_map transform cs) = textContentOf cs.
Proof.
  induction cs as [|c cs IH]; simpl; [done|].
  rewrite textContentOf_app, textContent_transform, IH. done.
Qed.

Lemma textContent_transformElement (n : Node) :
  textContent (transformElement n) = textContent n.
Proof.
  destruct n as [s|t a cs]; [done|].
  apply (textContentOf_transform cs).
Qed.

Lemma filter_plain (sel : Node → bool) (l : list Node) :
  StructuralSelector sel → Forall plain l →
  List.filter sel (containerDescendants l) = [].
Proof.
  intros Hsel Hl. induction Hl as [|n l Hn _ IH]; [done|].
  rewrite containerDescendants_cons, app_comm_cons, List.filter_app, IH, app_nil_r.
  unfold plain in Hn. induction Hn as [|d ds Hd _ IHd]; [done|]. simpl.
  destruct (sel d) eqn:Hsd; [|done].
  apply (sel_structural _ Hsel) in Hsd. congruence.
Qed.

(** The structural elements of the transformed tree are the transformed
    structural elements of the tree, in the same order. *)
Lemma filter_transform (sel : Node → bool) (n : Node) :
  StructuralSelector sel →
  List.filter sel (containerDescendants (transform n))
  = map transformElement (List.filter sel (n :: descendants n)).
Proof.
  intros Hsel. induction n as [s|t a cs IH] using Node_ind'.
  - simpl. rewrite (filter_plain sel _ Hsel (onText_plain s)).
    destruct (sel (Text s)) eqn:Hs; [|done].
    by apply (sel_structural _ Hsel) in Hs.
  - assert (List.filter sel (containerDescendants (flat_map transform cs))
            = map transformElement (List.filter sel (containerDescendants cs)))
      as Hcs.
    { induction IH as [|c cs Hc _ IHcs]; [done|].
      simpl flat_map at 1. rewrite containerDescendants_app, List.filter_app.
      rewrite Hc, IHcs, containerDescendants_cons, app_comm_cons.
      by rewrite List.filter_app, map_app. }
    rewrite descendants_Elem. simpl transform.
    destruct (splice t) eqn:Hsp.
    + rewrite Hcs. simpl List.filter.
      destruct (sel (Elem t a cs)) eqn:Hs; [|done].
      apply (sel_structural _ Hsel) in Hs.
      by rewrite (splice_plain t a cs Hsp) in Hs.
    + rewrite containerDescendants_cons, app_nil_r, descendants_Elem.
      simpl List.filter. rewrite Hcs.
      rewrite (sel_by_tag _ Hsel t (onAttrs a) a (flat_map transform cs) cs).
      by destruct (sel (Elem t a cs)).
Qed.

Lemma queryAll_transform (sel : Node → bool) (root : Container) :
  StructuralSelector sel →
  queryAll sel (flat_map transform root)
  = map transformElement (queryAll sel root).
Proof.
  intros Hsel. unfold queryAll.
  induction root as [|c cs IH]; [done|].
  simpl flat_map at 1. rewrite containerDescendants_app, List.filter_app.
  rewrite IH, (filter_transform sel c Hsel), containerDescendants_cons.
  by rewrite app_comm_cons, List.filter_app, map_app.
Qed.

Lemma querySelectorAll_transformElement (sel : Node → bool) (n : Node) :
  StructuralSelector sel →
  querySelectorAll sel (transformElement n)
  = map transformElement (querySelectorAll sel n).
Proof.
  intros Hsel. destruct n as [s|t a cs]; [done|].
  unfold querySelectorAll. simpl transformElement. rewrite !descendants_Elem.
  apply (queryAll_transform sel cs Hsel).
Qed.

(** The merge of [handleSave] gives the same result on the transformed
    view. *)
Lemma mergeCell_transformElement (hc : Node) (c : Cell) :
  mergeCell (transformElement hc) c = mergeCell hc c.
Proof.
  unfold mergeCell. by rewrite !newTextOf_trim, textContent_transformElement.
Qed.

Lemma mergeRow_transformElement (hr : Node) (r : Row) :
  mergeRow (transformElement hr) r = mergeRow hr r.
Proof.
  rewrite !mergeRow_cells.
  rewrite (querySelectorAll_transformElement _ _ structural_sel_td_th).
  f_equal. apply updateEach_map, mergeCell_transformElement.
Qed.

Lemma mergeTable_transformElement (ht : Node) (t : Table) :
  mergeTable (transformElement ht) t = mergeTable ht t.
Proof.
  rewrite !mergeTable_rows.
  rewrite (querySelectorAll_transformElement _ _ structural_sel_tr).
  f_equal. apply updateEach_map, mergeRow_transformElement.
Qed.

Lemma mergeParagraph_transformElement (hp : Node) (p : Paragraph) :
  mergeParagraph (transformElement hp) p = mergeParagraph hp p.
Proof.
  unfold mergeParagraph. by rewrite !newTextOf_trim, textContent_transformElement.
Qed.

(** A view whose structural elements are the transformed ones of another
    view merges like that view. *)
Lemma updateStructure_queries (root root' : Container) (s : DocumentStructure) :
  (∀ sel, StructuralSelector sel →
     queryAll sel root' = map transformElement (queryAll sel root)) →
  updateStructure root' s = updateStructure root s.
Proof.
  intros Hqueries. unfold updateStructure. f_equal.
  - destruct (paragraphs s) as [ps|]; [|done]. cbn. f_equal.
    rewrite !mergeParagraphs_updateEach.
    rewrite (Hqueries _ structural_sel_p).
    apply updateEach_map, mergeParagraph_transformElement.
  - destruct (tables s) as [ts|]; [|done]. cbn. f_equal.
    rewrite !mergeTables_updateEach.
    rewrite (Hqueries _ structural_sel_table).
    apply updateEach_map, mergeTable_transformElement.
Qed.

Lemma updateStructure_transform (root : Container) (s : DocumentStructure) :
  updateStructure (flat_map transform root) s = updateStructure root s.
Proof.
  apply updateStructure_queries. intros sel Hsel. by apply queryAll_transform.
Qed.

End Transformation.

(** *** Highlighting keeps the text *)

Lemma stringOfItems_app (l1 l2 : list Item) :
  stringOfItems (l1 ++ l2) = stringOfItems l1 +:+ stringOfItems l2.
Proof. unfold stringOfItems. by rewrite map_app, concatStrings_app. Qed.

Lemma stringOfItems_itemsOf (s : string) : stringOfItems (itemsOf s) = s.
Proof.
  unfold stringOfItems, itemsOf. induction s as [|c s IH]; [done|].
  simpl. by rewrite IH.
Qed.

Lemma stringOfItems_take_drop (n : nat) (l : list Item) :
  stringOfItems (take n l) +:+ stringOfItems (drop n l) = stringOfItems l.
Proof. by rewrite <- stringOfItems_app, take_drop. Qed.

Lemma stringOfItems_cons (i : Item) (l : list Item) :
  stringOfItems (i :: l) = stringOfItems [i] +:+ stringOfItems l.
Proof. apply (stringOfItems_app [i] l). Qed.

Lemma stringOfItems_replaceAll (re : Regex) keep (l : list Item) :
  ∀ count inside before,
    stringOfItems (replaceAll re keep count inside before l)
    = stringOfItems (drop inside l).
Proof.
  induction l as [|i l IH]; intros count inside before; [by destruct inside|].
  destruct inside as [|inside]; [|apply IH].
  cbn [replaceAll]. change (drop 0 (i :: l)) with (i :: l).
  destruct (re before (i :: l)) as [[|m]|].
  - by rewrite stringOfItems_cons, IH, (stringOfItems_cons i l).
  - cbv zeta. rewrite <- (stringOfItems_take_drop (S m) (i :: l)).
    change (drop (S m) (i :: l)) with (drop m l).
    destruct (keep _ _).
    + by rewrite stringOfItems_app, IH.
    + rewrite stringOfItems_cons, IH. f_equal.
      unfold stringOfItems at 1. cbn [map concatStrings foldr].
      apply append_empty_r.
  - by rewrite stringOfItems_cons, IH, (stringOfItems_cons i l).
Qed.

Lemma stringOfItems_runSteps (s : string) : stringOfItems (runSteps s) = s.
Proof.
  unfold runSteps. do 4 rewrite stringOfItems_replaceAll, drop_0.
  apply stringOfItems_itemsOf.
Qed.

Lemma textContentOf_Text (s : string) : textContentOf [Text s] = s.
Proof. unfold textContentOf. simpl. apply append_empty_r. Qed.

Lemma nodesOfPieces_cons (piece : Piece) (pieces : list Piece) :
  nodesOfPieces (piece :: pieces)
  = nodesOfPieces [piece] ++ nodesOfPieces pieces.
Proof. unfold nodesOfPieces. cbn [flat_map]. by rewrite app_nil_r. Qed.

Lemma textContentOf_Lit (pending : string) :
  textContentOf (nodesOfPieces [Lit pending]) = pending.
Proof. destruct pending; [done|]. apply textContentOf_Text. Qed.

(** The pieces that step 5 is meant to give have the text of the items. *)
Lemma textContentOf_piecesOfItems (l : list Item) :
  ∀ pending,
    textContentOf (nodesOfPieces (piecesOfItems pending l))
    = pending +:+ stringOfItems l.
Proof.
  induction l as [|[c|idx m] l IH]; intros pending; cbn [piecesOfItems].
  - rewrite textContentOf_Lit. unfold stringOfItems. simpl.
    by rewrite append_empty_r.
  - rewrite IH, (stringOfItems_cons (Ch c) l), append_assoc. done.
  - rewrite nodesOfPieces_cons, textContentOf_app, textContentOf_Lit.
    rewrite nodesOfPieces_cons, textContentOf_app, IH.
    rewrite (stringOfItems_cons (Placeholder idx m) l).
    unfold textContentOf at 1, stringOfItems at 2.
    simpl. by rewrite !append_empty_r.
Qed.

(** An empty piece of text gives no node. *)
Lemma nodesOfPieces_solid (pieces : list Piece) :
  nodesOfPieces (solid pieces) = nodesOfPieces pieces.
Proof.
  induction pieces as [|[[|c s]|m] pieces IH]; [done|..];
    cbn [solid List.filter]; fold (solid pieces).
  - rewrite (nodesOfPieces_cons (Lit "")). exact IH.
  - by rewrite (nodesOfPieces_cons (Lit _)), (nodesOfPieces_cons (Lit _) pieces), IH.
  - by rewrite (nodesOfPieces_cons (Span _)), (nodesOfPieces_cons (Span _) pieces), IH.
Qed.

Lemma plain_Text (s : string) : plain (Text s).
Proof. by repeat constructor. Qed.

Lemma plain_nodesOfPieces (pieces : list Piece) :
  Forall plain (nodesOfPieces pieces).
Proof.
  induction pieces as [|[[|c s]|m] pieces IH]; [constructor|..];
    rewrite nodesOfPieces_cons; apply Forall_app; (split; [|exact IH]);
    by repeat constructor.
Qed.

(** A text that is highlighted in place keeps its characters. *)
Lemma textContentOf_highlightTextNode (s : string) :
  leftOrInPlace s = true → textContentOf (highlightTextNode s) = s.
Proof.
  unfold leftOrInPlace, highlightTextNode, highlightTextContent.
  destruct (includes s "=" || startsWith (trim s) "/");
    [intros _; apply textContentOf_Text|].
  cbn [orb].
  destruct (negb (truthy s) || negb (truthy (trim s))) eqn:Hblank.
  { intros _. apply textContentOf_Text. }
  clear Hblank. cbn [orb]. unfold inPlace. intros Hplace%bool_decide_eq_true.
  rewrite <- nodesOfPieces_solid, Hplace, nodesOfPieces_solid.
  by rewrite textContentOf_piecesOfItems, stringOfItems_runSteps.
Qed.

Lemma plain_highlightTextNode (s : string) : Forall plain (highlightTextNode s).
Proof.
  unfold highlightTextNode, highlightTextContent.
  repeat (destruct (_ || _); [by repeat constructor|]).
  apply plain_nodesOfPieces.
Qed.

Lemma textContentOf_inPlaceOrSame (s : string) :
  textContentOf (inPlaceOrSame s) = s.
Proof.
  unfold inPlaceOrSame. destruct (leftOrInPlace s) eqn:Hs.
  - by apply textContentOf_highlightTextNode.
  - apply textContentOf_Text.
Qed.

Lemma plain_inPlaceOrSame (s : string) : Forall plain (inPlaceOrSame s).
Proof.
  unfold inPlaceOrSame. destruct (leftOrInPlace s).
  - apply plain_highlightTextNode.
  - by repeat constructor.
Qed.

Lemma highlightNode_transform (n : Node) :
  highlightNode n = transform highlightTextNode (fun _ => false) (fun a => a) n.
Proof.
  induction n as [s|t a cs IH] using Node_ind'; [done|]. simpl. do 2 f_equal.
Qed.

(** Below an element whose texts are all highlighted in place. *)
Lemma highlightNode_inPlace (n : Node) :
  highlightedInPlace [n] = true →
  highlightNode n = transform inPlaceOrSame (fun _ => false) (fun a => a) n.
Proof.
  unfold highlightedInPlace.
  induction n as [s|t a cs IH] using Node_ind'.
  - cbn. rewrite andb_true_r. unfold inPlaceOrSame. by intros ->.
  - rewrite containerDescendants_cons, app_nil_r, descendants_Elem.
    cbn [forallb andb]. intros Hcs. cbn [highlightNode transform]. do 2 f_equal.
    induction IH as [|c cs Hc _ IHcs]; [done|].
    rewrite containerDescendants_cons, app_comm_cons, forallb_app in Hcs.
    apply andb_true_iff in Hcs as [Hhead Htail].
    cbn [flat_map]. rewrite Hc, (IHcs Htail); [done|].
    by rewrite containerDescendants_cons, app_nil_r.
Qed.

Lemma highlightedInPlace_cons (n : Node) (root : Container) :
  highlightedInPlace (n :: root) = true →
  highlightedInPlace [n] = true ∧ highlightedInPlace root = true.
Proof.
  unfold highlightedInPlace.
  rewrite !containerDescendants_cons, app_comm_cons, forallb_app, app_nil_r.
  by intros [? ?]%andb_true_iff.
Qed.

(** The structural elements of the highlighted document are those of the
    document, with their texts highlighted: [onText] is what highlighting
    does to the texts below the elements of the document. *)
Lemma queryAll_highlightFrom (onText : string → list Node) (sel : Node → bool)
    (root : Container) :
  (∀ s, Forall plain (onText s)) →
  StructuralSelector sel →
  Forall (fun n =>
            highlightNode n = transform onText (fun _ => false) (fun a => a) n)
         root →
  ∀ isFirst,
    queryAll sel (highlightFrom isFirst root)
    = map (transformElement onText (fun _ => false) (fun a => a))
          (queryAll sel root).
Proof.
  intros Hplain Hsel Hroot. unfold queryAll.
  induction Hroot as [|n root Hn _ IH]; intros isFirst; [done|].
  cbn [highlightFrom]. rewrite containerDescendants_app, List.filter_app, IH.
  rewrite containerDescendants_cons, app_comm_cons, List.filter_app, map_app.
  f_equal. destruct n as [s|t a cs].
  - cbn [descendants]. assert (List.filter sel [Text s] = []) as ->.
    { cbn. destruct (sel (Text s)) eqn:Hs; [|done].
      by apply (sel_structural _ Hsel) in Hs. }
    cbn [map]. apply (filter_plain sel _ Hsel).
    destruct (_ || _); [by repeat constructor|apply plain_highlightTextNode].
  - rewrite Hn. by apply filter_transform.
Qed.

Lemma textContentOf_highlightFrom (root : Container) :
  highlightedInPlace root = true →
  ∀ isFirst, textContentOf (highlightFrom isFirst root) = textContentOf root.
Proof.
  induction root as [|n root IH]; intros Hroot isFirst; [done|].
  apply highlightedInPlace_cons in Hroot as [Hn Hroot].
  cbn [highlightFrom]. rewrite textContentOf_app, (IH Hroot).
  change (n :: root) with ([n] ++ root). rewrite (textContentOf_app [n] root).
  f_equal. destruct n as [s|t a cs].
  - destruct (_ || _); [done|]. rewrite textContentOf_Text.
    apply textContentOf_highlightTextNode.
    unfold highlightedInPlace in Hn. cbn in Hn. by rewrite andb_true_r in Hn.
  - rewrite (highlightNode_inPlace _ Hn).
    rewrite (textContent_transform _ _ _ textContentOf_inPlaceOrSame).
    unfold textContentOf. cbn [map concatStrings foldr].
    by rewrite append_empty_r.
Qed.

Lemma highlightedInPlace_Forall (root : Container) :
  highlightedInPlace root = true →
  Forall (fun n =>
            highlightNode n
            = transform inPlaceOrSame (fun _ => false) (fun a => a) n) root.
Proof.
  induction root as [|n root IH]; intros Hroot; [constructor|].
  apply highlightedInPlace_cons in Hroot as [Hn Hroot].
  constructor; [by apply highlightNode_inPlace|by apply IH].
Qed.

(** Highlight spans that stand where their matches were do not change what
    a save reads. *)
Lemma updateStructure_highlightHtml (root : Container) (s : DocumentStructure) :
  highlightedInPlace root = true →
  updateStructure (highlightHtml root) s = updateStructure root s.
Proof.
  intros Hroot.
  apply (updateStructure_queries inPlaceOrSame (fun _ => false) (fun a => a)).
  - apply textContentOf_inPlaceOrSame.
  - apply plain_inPlaceOrSame.
  - done.
  - intros sel Hsel. apply queryAll_highlightFrom; [|done|].
    + apply plain_inPlaceOrSame.
    + by apply highlightedInPlace_Forall.
Qed.

(** *** Attributes and wrapping spans

    The view with its attributes cleared and its spans replaced by their
    content. *)
Lemma updateStructure_bareView (root : Container) (s : DocumentStructure) :
  updateStructure (bareView root) s = updateStructure root s.
Proof.
  apply updateStructure_transform.
  - apply textContentOf_Text.
  - intros t. by repeat constructor.
  - by intros [] a cs.
Qed.

Lemma bare_Elem t a cs :
  bare (Elem t a cs) =
    if isSpan t then bareView cs else [Elem t noAttrs (bareView cs)].
Proof. reflexivity. Qed.

Lemma bareView_alter (f : Node → Node) (i : nat) (ns : list Node) :
  (∀ n, bare (f n) = bare n) →
  bareView (alter f i ns) = bareView ns.
Proof.
  intros Hf. unfold bareView. revert i.
  induction ns as [|n ns IH]; intros [|i]; [done..| |].
  - change (bare (f n) ++ flat_map bare ns = bare n ++ flat_map bare ns).
    by rewrite Hf.
  - change (bare n ++ flat_map bare (alter f i ns)
            = bare n ++ flat_map bare ns).
    by rewrite IH.
Qed.

(** A change below a path that the bare view of the changed node does not
    show is not shown by the bare view of the container. *)
Lemma bareView_updateAt (f : Node → Node) (p : Path) :
  (∀ n, bare (f n) = bare n) →
  ∀ ns, bareView (updateAt p f ns) = bareView ns.
Proof.
  intros Hf. induction p as [|i p IH]; intros ns; [done|].
  destruct p as [|j p]; [by apply bareView_alter|].
  change (updateAt (i :: j :: p) f ns)
    with (alter (fun n => match n with
                          | Text _ => n
                          | Elem t a cs => Elem t a (updateAt (j :: p) f cs)
                          end) i ns).
  apply bareView_alter. intros [s|t a cs]; [done|].
  by rewrite !bare_Elem, IH.
Qed.

Lemma bare_setAttrs (g : Attrs → Attrs) (n : Node) : bare (setAttrs g n) = bare n.
Proof. by destruct n. Qed.

Lemma bare_applyGapAction (act : GapAction) (n : Node) :
  bare (applyGapAction act n) = bare n.
Proof.
  destruct act; [|apply bare_setAttrs|done].
  destruct n as [s|t a cs]; [done|].
  cbn [applyGapAction setChildNodes]. rewrite !bare_Elem. unfold bareView.
  cbn [flat_map]. rewrite bare_Elem. cbn [isSpan]. by rewrite app_nil_r.
Qed.

Lemma bareView_tagCells (root : Container) :
  bareView (tagCells root) = bareView root.
Proof.
  unfold tagCells.
  apply (forEach_invariant (fun r => bareView r = bareView root)); [|done].
  intros table tableIdx r Hr.
  apply (forEach_invariant (fun r => bareView r = bareView root)); [|done].
  clear r Hr. intros row rowIdx r Hr.
  apply (forEach_invariant (fun r => bareView r = bareView root)); [|done].
  clear r Hr. intros cell cellIdx r Hr.
  rewrite bareView_updateAt; [done|]. intros n. apply bare_setAttrs.
Qed.

Lemma bareView_applyGapHighlightingToTables flagged (root : Container) :
  bareView (applyGapHighlightingToTables flagged root) = bareView root.
Proof.
  destruct flagged as [flagged|]; [|done]. simpl.
  apply (forEach_invariant (fun st => bareView (fst st) = bareView root)); [|done].
  intros table tableIdx st Hst.
  apply (forEach_invariant (fun st => bareView (fst st) = bareView root)); [|done].
  clear st Hst. intros row rowIdx st Hst.
  apply (forEach_invariant (fun st => bareView (fst st) = bareView root)); [|done].
  clear st Hst. intros cell colIdx [r replaced] Hst.
  unfold visitGapCell. destruct (existsb _ replaced); [done|].
  destruct (nodeAt _ r) as [live|]; [|done].
  destruct (flagged _ _ _ live); [|done]. simpl.
  rewrite bareView_updateAt; [done|]. intros n. apply bare_applyGapAction.
Qed.

(** Nothing that [loadDocument] adds to the converted HTML changes what
    [handleSave] merges into the structure. *)
Lemma updateStructure_project flagged (converted : Container)
    (s : DocumentStructure) :
  highlightedInPlace converted = true →
  updateStructure (project flagged converted) s = updateStructure converted s.
Proof.
  intros Hplace. unfold project.
  rewrite <- updateStructure_bareView, bareView_applyGapHighlightingToTables.
  rewrite bareView_tagCells, updateStructure_bareView.
  by apply updateStructure_highlightHtml.
Qed.

End DomProofs.

(** ** DocumentViewer.js: header, round trip and cursor *)

Module DocumentViewerProofs.
Import Js JsFacts Dom DocumentViewer Spec Samples MergeProofs DomProofs.

Lemma handleSave_structure_Some (s : DocumentStructure) o (view : Container) :
  handleSave_structure (Some s) o view = updateStructure view s.
Proof. reflexivity. Qed.

(** C3.  Whatever the edited views of a sequence of saves show, in their
    header rows or elsewhere, every table of the structure is still there
    after them with the [column_headers], [id] and [name] it had before. *)
Theorem header_invariant (views : list Container) (s : DocumentStructure)
    (i : nat) (t : Table) :
  tablesOf s !! i = Some t →
  ∃ t', tablesOf (reconcileAll views s) !! i = Some t'
        ∧ column_headers t' = column_headers t
        ∧ table_id t' = table_id t
        ∧ name t' = name t.
Proof.
  intros Ht.
  destruct (Forall2_lookup_l _ _ _ i t (reconcileAll_sameHeader views s) Ht)
    as (t' & Ht' & Hsame).
  exists t'. split; [exact Ht'|exact Hsame].
Qed.

Lemma header_invariant_witness :
  ∃ t', tablesOf (reconcileAll [catalogEdited; catalogEdited] catalogStructure) !! 0
        = Some t'
        ∧ column_headers t' = Some ["Name"; "Catalog #"]
        ∧ table_id t' = "table_0"
        ∧ name t' = Some "Materials".
Proof.
  apply (header_invariant [catalogEdited; catalogEdited] catalogStructure 0
           (mkTable "table_0" (Some "Materials") (Some ["Name"; "Catalog #"])
              [ mkRow "row_0" [ freshCellOf "Name"; freshCellOf "Catalog #" ];
                mkRow "row_1" [ freshCellOf "Buffer"; freshCellOf "(Pending)" ] ])).
  reflexivity.
Defined.

(** C6, as stated, fails.  In the table editor a header cell without text
    is rendered as a gap, and changing a header cell sets its gap flags;
    a save writes the text typed into a header cell of the view over the
    stored text of the row-0 cell. *)
Lemma row0_counterexample :
  TableEditor.cellClass 0 (freshCellOf "") = TableEditor.CellGap
  ∧ (has_gap <$> (TableEditor.handleCellChange false 0 1 "TBD"
                    sampleTable
                  ≫= TableEditor.cellAt 0 1)) = Some true
  ∧ (text <$> cellOf catalogStructure 0 0 0) = Some (Some "Name")
  ∧ (text <$> cellOf (handleSave_structure (Some catalogStructure) None
                        catalogEdited) 0 0 0) = Some (Some "BG_ATN").
Proof. repeat split; reflexivity. Qed.

(** C6, amended.  Row 0 is classified and merged like every other row: the
    class of a cell does not depend on its row, a row-0 cell is shown as a
    gap exactly when [hasGap] holds and [isFilled] does not, and after a
    save a row-0 cell that the view also has holds the trimmed text of the
    view's cell.  What the save leaves alone are the table's
    [column_headers], [id] and [name]. *)
Theorem row0_like_any_row (root : Container) (s : DocumentStructure)
    (i k : nat) (hc : Node) (c : Cell) (t : Table) :
  htmlCellOf root i 0 k = Some hc →
  cellOf s i 0 k = Some c →
  tablesOf s !! i = Some t →
  (∀ rowIdx, TableEditor.cellClass rowIdx c = TableEditor.cellClass 0 c)
  ∧ (TableEditor.cellClass 0 c = TableEditor.CellGap ↔
       TableEditor.hasGap c = true ∧ TableEditor.isFilled c = false)
  ∧ (∃ c', cellOf (updateStructure root s) i 0 k = Some c'
           ∧ text c' = Some (trim (textContent hc)))
  ∧ (∃ t', tablesOf (updateStructure root s) !! i = Some t'
           ∧ column_headers t' = column_headers t
           ∧ table_id t' = table_id t ∧ name t' = name t).
Proof.
  intros Hhc Hc Ht. split; [done|]. split; [|split].
  - unfold TableEditor.cellClass.
    destruct (TableEditor.isFilled c), (TableEditor.hasGap c);
      split; (intros [? ?] || intros ?); done.
  - exists (mergeCell hc c). rewrite cellOf_updateStructure, Hhc, Hc.
    split; [done|]. apply text_mergeCell.
  - rewrite tablesOf_updateStructure.
    destruct (Forall2_lookup_l _ _ _ i t (mergeTables_sameHeader root (tablesOf s)) Ht)
      as (t' & Ht' & Hsame).
    exists t'. split; [exact Ht'|exact Hsame].
Qed.

Lemma row0_like_any_row_witness :
  ∃ c', cellOf (updateStructure catalogEdited catalogStructure) 0 0 1 = Some c'
        ∧ text c' = Some "Material_CTG#".
Proof.
  destruct (row0_like_any_row catalogEdited catalogStructure 0 1
              (th "Material_CTG#") (freshCellOf "Catalog #")
              (mkTable "table_0" (Some "Materials") (Some ["Name"; "Catalog #"])
                 [ mkRow "row_0" [ freshCellOf "Name"; freshCellOf "Catalog #" ];
                   mkRow "row_1" [ freshCellOf "Buffer"; freshCellOf "(Pending)" ] ]))
    as (_ & _ & Hcell & _); [reflexivity..|].
  exact Hcell.
Defined.

(** C9, as stated, fails: the view shows the stored texts, nothing is
    edited, and the save returns another structure, because it stores the
    trimmed texts. *)
Lemma roundtrip_counterexample :
  (text <$> cellOf spacedStructure 0 1 1) = Some (Some "CAT-123 ")
  ∧ (textContent <$> htmlCellOf spacedConverted 0 1 1) = Some "CAT-123 "
  ∧ (text <$> cellOf (handleSave_structure (Some spacedStructure) None
                        (project None spacedConverted)) 0 1 1)
    = Some (Some "CAT-123")
  ∧ handleSave_structure (Some spacedStructure) None
      (project None spacedConverted) ≠ spacedStructure.
Proof.
  repeat split; try reflexivity.
  intros H. apply (f_equal (fun s => text <$> cellOf s 0 1 1)) in H.
  vm_compute in H. discriminate H.
Qed.

(** The highlighter can displace text.  The placeholder of "null" has the
    number 0 and those of the two "(Pending)" the numbers 1 and 2; the end
    of the first, the digit between them and the beginning of the second
    read as the placeholder number 0, which is replaced there; the other
    two are then no longer found.  A text that holds the text of a
    placeholder is replaced in its place.  A save without any edit stores
    what the view then shows. *)
Lemma step5_displaces_text :
  highlightTextNode "(Pending)0(Pending) null"
  = [ Text "___HIGHLIGHTED___1"; Elem SPAN highlightAttrs [Text "null"];
      Text "2___HIGHLIGHTED___ ___HIGHLIGHTED___0___HIGHLIGHTED___" ]
  ∧ highlightTextNode "___HIGHLIGHTED___0___HIGHLIGHTED___ null"
    = [ Elem SPAN highlightAttrs [Text "null"];
        Text " ___HIGHLIGHTED___0___HIGHLIGHTED___" ]
  ∧ displaysb displacedConverted displacedStructure = true
  ∧ highlightedInPlace displacedConverted = false
  ∧ (text <$> cellOf (handleSave_structure (Some displacedStructure) None
                        (project None displacedConverted)) 0 0 0)
    = Some (Some ("___HIGHLIGHTED___1null2___HIGHLIGHTED___ "
                  +:+ "___HIGHLIGHTED___0___HIGHLIGHTED___")).
Proof. repeat split; vm_compute; reflexivity. Qed.

(** C9, amended.  For a converted document that is the tree of an HTML text,
    and in which the highlighter finds every placeholder where the match
    was: the highlight spans, cell identifiers and gap markers that
    [loadDocument] adds change nothing of what a save merges; and when the
    converted document shows, in every cell and paragraph that the structure
    has, the stored text up to white space at its ends, loading it and
    saving without an edit returns the structure as it was. *)
Theorem roundtrip_when_displayed flagged (converted : Container)
    (s : DocumentStructure) :
  displays converted s →
  parsedHtml converted = true →
  highlightedInPlace converted = true →
  handleSave_structure (Some s) None (project flagged converted) = s
  ∧ handleSave_structure None (Some s) (project flagged converted) = s
  ∧ (∀ s', updateStructure (project flagged converted) s'
           = updateStructure converted s').
Proof.
  intros Hshown _ Hplace. unfold handleSave_structure.
  rewrite (updateStructure_project _ _ _ Hplace), (updateStructure_id _ _ Hshown).
  repeat split. intros s'. by apply updateStructure_project.
Qed.

Lemma roundtrip_when_displayed_witness :
  handleSave_structure (Some catalogStructure) None
    (project (Some (fun _ _ _ _ => true))
       [ p "3.Equipment Configuration";
         table [ tr [ th " Name"; th "Catalog #" ];
                 tr [ td "Buffer"; td "(Pending) " ] ] ])
  = catalogStructure.
Proof.
  apply (roundtrip_when_displayed (Some (fun _ _ _ _ => true))
           [ p "3.Equipment Configuration";
             table [ tr [ th " Name"; th "Catalog #" ];
                     tr [ td "Buffer"; td "(Pending) " ] ] ]
           catalogStructure).
  - apply displaysb_displays. reflexivity.
  - reflexivity.
  - vm_compute. reflexivity.
Defined.

(** C4, as stated, fails: the paragraph index is tried last, after the text
    matches, and the match on the edited text is not only an exact one.
    The element found is the first paragraph, which begins with the edited
    text; the documented order finds the second, by its index. *)
Lemma locate_counterexample :
  (fst <$> findTargetElement statusAnchor statusView) = Some [0]
  ∧ (fst <$> Documented.locate statusAnchor statusView) = Some [1].
Proof. split; reflexivity. Qed.

End DocumentViewerProofs.

(** ** The review endpoint: versions and rollback *)

Module BackendProofs.
Import Backend Samples.

(** Updating the first row that meets [P] by a row that meets it too. *)
Lemma filter_insert_first {A : Type} (P : A → Prop) `{∀ x, Decision (P x)}
    (l : list A) (i : nat) (x y : A) :
  list_find P l = Some (i, x) → P y →
  filter P (<[i := y]> l) = y :: tail (filter P l)
  ∧ head (filter P l) = Some x.
Proof.
  revert i. induction l as [|z l IH]; intros i Hfind Hy; [done|].
  cbn in Hfind. destruct (decide (P z)) as [Hz|Hz].
  - injection Hfind as <- <-. change (<[0:=y]> (z :: l)) with (y :: l).
    by rewrite (filter_cons_True P y l Hy), (filter_cons_True P z l Hz).
  - destruct (list_find P l) as [[j x']|] eqn:Hl; [|done].
    injection Hfind as <- <-.
    change (<[S j:=y]> (z :: l)) with (z :: <[j:=y]> l).
    rewrite (filter_cons_False P z _ Hz), (filter_cons_False P z l Hz).
    by apply IH.
Qed.

(** Updating a row that does not meet [P] by one that does not either. *)
Lemma filter_insert_other {A : Type} (P : A → Prop) `{∀ x, Decision (P x)}
    (l : list A) (i : nat) (x y : A) :
  l !! i = Some x → ¬ P x → ¬ P y → filter P (<[i := y]> l) = filter P l.
Proof.
  revert i. induction l as [|z l IH]; intros [|i] Hx Hnx Hny; [done..| |].
  - injection Hx as ->. change (<[0:=y]> (x :: l)) with (y :: l).
    by rewrite (filter_cons_False P y l Hny), (filter_cons_False P x l Hnx).
  - change (<[S i:=y]> (z :: l)) with (z :: <[i:=y]> l).
    rewrite !filter_cons. by rewrite (IH i Hx Hnx Hny).
Qed.

(** The rows of document [d] after the upsert for the document of the
    submission. *)
Lemma rowsOf_upsert (d : nat) (submission : Submission) review env sid xp jp
    (rows : list ApprovedDocument) :
  let rows' :=
    upsertApproved (existingApproved (document_id submission) rows)
      submission review env sid xp jp rows in
  let old := filter (fun a => approved_document_id a = d) rows in
  let new := filter (fun a => approved_document_id a = d) rows' in
  if decide (document_id submission = d) then
    match old with
    | [] => ∃ a, new = [a] ∧ version a = 1
    | a0 :: rest =>
        ∃ a, new = a :: rest ∧ version a = version a0 + 1
             ∧ approved_id a = approved_id a0
    end
  else new = old.
Proof.
  intros rows' old new. subst rows' old new. unfold upsertApproved, existingApproved.
  destruct (list_find _ rows) as [[i a0]|] eqn:Hfind.
  - pose proof Hfind as Hfind'. apply list_find_Some in Hfind' as (Hi & Ha0 & _).
    case_decide as Hd.
    + subst d.
      edestruct (filter_insert_first
                   (fun a => approved_document_id a = document_id submission)
                   rows i a0) as [Hnew Hold]; [exact Hfind| |].
      2: { rewrite Hnew.
           destruct (filter _ rows) as [|a1 rest]; [done|].
           injection Hold as ->. eexists. split; [reflexivity|done]. }
      done.
    + apply (filter_insert_other _ rows i a0); [done| |]; cbn; congruence.
  - apply list_find_None in Hfind. rewrite filter_app.
    case_decide as Hd.
    + subst d.
      assert (filter (fun a => approved_document_id a = document_id submission) rows = [])
        as ->.
      { induction Hfind as [|a rows Ha _ IH]; [done|].
        by rewrite (filter_cons_False _ a rows Ha). }
      rewrite filter_cons_True by done. rewrite filter_nil.
      eexists. split; [reflexivity|done].
    + rewrite filter_cons_False, filter_nil, app_nil_r; [done|]. cbn. congruence.
Qed.

(** What one request does to the table of approved documents. *)
Lemma handle_approved_documents (w : World) (r : Request) :
  match fst (handle w r) with
  | Ok submission =>
      if String.eqb (review_status (req_review r)) "approved" then
        ∃ submission0 sid xp jp,
          document_id submission0 = document_id submission
          ∧ approved_documents (db (snd (handle w r)))
            = upsertApproved
                (existingApproved (document_id submission0)
                   (approved_documents (db w)))
                submission0 (req_review r) (req_env r) sid xp jp
                (approved_documents (db w))
      else approved_documents (db (snd (handle w r))) = approved_documents (db w)
  | HTTPException _ => db (snd (handle w r)) = db w
  end.
Proof.
  unfold handle, review_submission, commit, rollback.
  destruct r as [sid review env]. cbn [req_submission_id req_review req_env].
  destruct (submissions (db w) !! sid) as [submission|]; [|done].
  destruct (documents (db w) !! document_id submission) as [document|]; [|done].
  destruct (String.eqb (review_status review) "approved") eqn:Hstatus.
  - destruct (docx_structured_data env) as [[data|]|]; [| |done].
    + destruct (write_xml_ok env); [|done]. destruct (write_json_ok env); [|done].
      destruct (commit_ok env); [|done]. cbn.
      by eexists submission, _, _, _.
    + destruct (normalized_json_loads env); [|done].
      destruct (write_xml_ok env); [|done]. destruct (write_json_ok env); [|done].
      destruct (commit_ok env); [|done]. cbn.
      by eexists submission, _, _, _.
  - by destruct (commit_ok env).
Qed.

(** The one row of [d], and what a request makes of it. *)
Lemma row_handle (d : nat) (a0 : ApprovedDocument) (w : World) (r : Request) :
  rowsOf d w = [a0] →
  ∃ a, rowsOf d (snd (handle w r)) = [a]
       ∧ approved_id a = approved_id a0
       ∧ version a = version a0 + (if approves d w r then 1 else 0).
Proof.
  intros Hrow. pose proof (handle_approved_documents w r) as Hstep.
  unfold approves. unfold rowsOf in *.
  destruct (fst (handle w r)) as [submission|code].
  - destruct (String.eqb (review_status (req_review r)) "approved"); cbn [andb].
    + destruct Hstep as (submission0 & sid & xp & jp & Hdoc & ->).
      pose proof (rowsOf_upsert d submission0 (req_review r) (req_env r) sid xp jp
                    (approved_documents (db w))) as Hrows.
      cbv zeta in Hrows. rewrite <- Hdoc. rewrite Hrow in Hrows.
      case_bool_decide as Hd.
      * rewrite decide_True in Hrows by done.
        destruct Hrows as (a & -> & Hv & Hid). by exists a.
      * rewrite decide_False in Hrows by done. rewrite Hrows.
        exists a0. by rewrite Nat.add_0_r.
    + rewrite Hstep. exists a0. by rewrite Nat.add_0_r.
  - rewrite Hstep. exists a0. by rewrite Nat.add_0_r.
Qed.

Lemma row_handleAll (d : nat) (rs : list Request) :
  ∀ a0 w,
    rowsOf d w = [a0] →
    ∃ a, rowsOf d (handleAll rs w) = [a]
         ∧ approved_id a = approved_id a0
         ∧ version a = version a0 + approvalCount d rs w.
Proof.
  induction rs as [|r rs IH]; intros a0 w Hrow; simpl.
  - exists a0. by rewrite Nat.add_0_r.
  - destruct (row_handle d a0 w r Hrow) as (a1 & Hrow1 & Hid1 & Hv1).
    destruct (IH a1 _ Hrow1) as (a & Hrow' & Hid & Hv).
    exists a. split; [exact Hrow'|]. split; [congruence|]. lia.
Qed.

(** Without a row of [d], a request adds one exactly when it approves. *)
Lemma no_row_handle (d : nat) (w : World) (r : Request) :
  rowsOf d w = [] →
  if approves d w r
  then ∃ a, rowsOf d (snd (handle w r)) = [a] ∧ version a = 1
  else rowsOf d (snd (handle w r)) = [].
Proof.
  intros Hnone. pose proof (handle_approved_documents w r) as Hstep.
  unfold approves. unfold rowsOf in *.
  destruct (fst (handle w r)) as [submission|code].
  - destruct (String.eqb (review_status (req_review r)) "approved"); cbn [andb].
    + destruct Hstep as (submission0 & sid & xp & jp & Hdoc & ->).
      pose proof (rowsOf_upsert d submission0 (req_review r) (req_env r) sid xp jp
                    (approved_documents (db w))) as Hrows.
      cbv zeta in Hrows. rewrite <- Hdoc. rewrite Hnone in Hrows.
      case_bool_decide as Hd.
      * by rewrite decide_True in Hrows by done.
      * by rewrite decide_False in Hrows by done.
    + by rewrite Hstep.
  - by rewrite Hstep.
Qed.

Lemma no_row_handleAll (d : nat) (rs : list Request) :
  ∀ w, rowsOf d w = [] →
       match approvalCount d rs w with
       | 0 => rowsOf d (handleAll rs w) = []
       | S n => ∃ a, rowsOf d (handleAll rs w) = [a] ∧ version a = S n
       end.
Proof.
  induction rs as [|r rs IH]; intros w Hnone; simpl; [done|].
  pose proof (no_row_handle d w r Hnone) as Hstep.
  destruct (approves d w r).
  - destruct Hstep as (a1 & Hrow1 & Hv1).
    destruct (row_handleAll d rs a1 _ Hrow1) as (a & Hrow & _ & Hv).
    exists a. split; [exact Hrow|]. lia.
  - apply IH, Hstep.
Qed.

(** C1.  Start from a database without an ApprovedDocument row for
    document [d].  After any sequence of review requests, on any
    submissions and with any outcome, of which [n >= 1] are successful
    approvals of [d], there is exactly one row for [d], and its version is
    [n]: the first approval adds the row with version 1.  Whatever requests
    follow, the row of [d] is still that one row, under the same primary
    key, its version increased by 1 for every further approval of [d]. *)
Theorem one_row_per_document (d : nat) (rs rs' : list Request) (w : World) :
  rowsOf d w = [] →
  1 ≤ approvalCount d rs w →
  ∃ a a',
    rowsOf d (handleAll rs w) = [a]
    ∧ version a = approvalCount d rs w
    ∧ rowsOf d (handleAll rs' (handleAll rs w)) = [a']
    ∧ approved_id a' = approved_id a
    ∧ version a' = version a + approvalCount d rs' (handleAll rs w).
Proof.
  intros Hnone Hpos.
  pose proof (no_row_handleAll d rs w Hnone) as Hv.
  destruct (approvalCount d rs w) as [|n]; [lia|].
  destruct Hv as (a & Hrow & Hversion).
  destruct (row_handleAll d rs' a _ Hrow) as (a' & Hrow' & Hid & Hv').
  by exists a, a'.
Qed.

Lemma one_row_per_document_witness :
  ∃ a a',
    rowsOf 1 (handleAll [ approveRequest "20251125003620" ] sampleWorld) = [a]
    ∧ version a = 1
    ∧ rowsOf 1 (handleAll [ rejectRequest; approveRequest "20251125003800" ]
                  (handleAll [ approveRequest "20251125003620" ] sampleWorld))
      = [a']
    ∧ approved_id a' = approved_id a
    ∧ version a' = 2.
Proof.
  destruct (one_row_per_document 1 [ approveRequest "20251125003620" ]
              [ rejectRequest; approveRequest "20251125003800" ] sampleWorld)
    as (a & a' & Hrow & Hversion & Hrow' & Hid & Hversion').
  - reflexivity.
  - vm_compute. lia.
  - exists a, a'. split; [exact Hrow|]. split; [exact Hversion|].
    split; [exact Hrow'|]. split; [exact Hid|].
    rewrite Hversion', Hversion. reflexivity.
Defined.

(** C2, as stated, fails.  The second approval fails and the database is
    rolled back, but the files of the first approval are gone while the row
    still names them; and when only the JSON file cannot be written, the new
    XML file stays although no row names it. *)
Lemma approval_not_atomic :
  fst (handle approvedWorld (failingRequest false true)) = HTTPException 500
  ∧ files approvedWorld !! "approved/DOC-1-20251125003620.xml" = Some "<xml/>"
  ∧ files (snd (handle approvedWorld (failingRequest false true)))
      !! "approved/DOC-1-20251125003620.xml" = None
  ∧ map xml_file_path
      (rowsOf 1 (snd (handle approvedWorld (failingRequest false true))))
    = ["approved/DOC-1-20251125003620.xml"]
  ∧ fst (handle approvedWorld (failingRequest true false)) = HTTPException 500
  ∧ files (snd (handle approvedWorld (failingRequest true false)))
      !! "approved/DOC-1-20251125003800.xml" = Some "<xml/>"
  ∧ map xml_file_path
      (rowsOf 1 (snd (handle approvedWorld (failingRequest true false))))
    = ["approved/DOC-1-20251125003620.xml"].
Proof. repeat split; vm_compute; reflexivity. Qed.

(** C2, amended.  A request that fails, at any step up to and including the
    commit, leaves the database as it was: the document, the submission and
    the ApprovedDocument rows of every document are those from before the
    request, so a document has as many rows as it had.  The files are not
    part of what is rolled back. *)
Theorem failure_rolls_back_database (submission_id : nat)
    (review : SubmissionReview) (env : Env) (w : World) (status_code : nat) :
  fst (review_submission submission_id review env w) = HTTPException status_code →
  db (snd (review_submission submission_id review env w)) = db w
  ∧ ∀ d, rowsOf d (snd (review_submission submission_id review env w)) = rowsOf d w.
Proof.
  intros Hfail.
  pose proof (handle_approved_documents w (mkRequest submission_id review env))
    as Hstep.
  unfold handle in Hstep. cbn [req_submission_id req_review req_env] in Hstep.
  rewrite Hfail in Hstep. split; [exact Hstep|].
  intros d. unfold rowsOf. by rewrite Hstep.
Qed.

Lemma failure_rolls_back_database_witness :
  db (snd (handle approvedWorld (failingRequest false true))) = db approvedWorld
  ∧ ∀ d, rowsOf d (snd (handle approvedWorld (failingRequest false true)))
         = rowsOf d approvedWorld.
Proof.
  apply (failure_rolls_back_database 7 (mkReview "approved" None "Reviewer")
           (req_env (failingRequest false true)) approvedWorld 500).
  vm_compute. reflexivity.
Defined.

(** The documents after one request: as before, or as the review decision
    leaves them. *)
Lemma handle_documents (w : World) (r : Request) (d : nat) (document : Document) :
  documents (db (snd (handle w r))) !! d = Some document →
  documents (db w) !! d = Some document
  ∨ ∃ document0,
      documents (db w) !! d = Some document0
      ∧ document = reviewDocument (review_status (req_review r)) document0.
Proof.
  unfold handle, review_submission, commit, rollback.
  destruct r as [sid review env]. cbn [req_submission_id req_review req_env].
  destruct (submissions (db w) !! sid) as [submission|]; [|by left].
  destruct (documents (db w) !! document_id submission) as [document0|] eqn:Hdoc;
    [|by left].
  assert (∀ ds, ds = <[document_id submission :=
                         reviewDocument (review_status review) document0]>
                       (documents (db w)) →
                ds !! d = Some document →
                documents (db w) !! d = Some document
                ∨ ∃ document1,
                    documents (db w) !! d = Some document1
                    ∧ document = reviewDocument (review_status review) document1)
    as Hinsert.
  { intros ds -> Hd. apply lookup_insert_Some in Hd as [[<- <-]|[_ Hd]]; [|by left].
    right. by exists document0. }
  destruct (String.eqb (review_status review) "approved").
  - destruct (docx_structured_data env) as [[data|]|]; [| |by left].
    + destruct (write_xml_ok env); [|by left].
      destruct (write_json_ok env); [|by left].
      destruct (commit_ok env); [|by left]. by apply Hinsert.
    + destruct (normalized_json_loads env); [|by left].
      destruct (write_xml_ok env); [|by left].
      destruct (write_json_ok env); [|by left].
      destruct (commit_ok env); [|by left]. by apply Hinsert.
  - destruct (commit_ok env); [|by left]. by apply Hinsert.
Qed.

(** The document of an accepted request carries the review decision. *)
Lemma handle_Ok_document (w : World) (r : Request) (submission : Submission) :
  fst (handle w r) = Ok submission →
  ∃ document0,
    documents (db w) !! document_id submission = Some document0
    ∧ documents (db (snd (handle w r))) !! document_id submission
      = Some (reviewDocument (review_status (req_review r)) document0).
Proof.
  unfold handle, review_submission, commit, rollback.
  destruct r as [sid review env]. cbn [req_submission_id req_review req_env].
  destruct (submissions (db w) !! sid) as [submission0|]; [|done].
  destruct (documents (db w) !! document_id submission0) as [document0|] eqn:Hdoc;
    [|done].
  destruct (String.eqb (review_status review) "approved").
  - destruct (docx_structured_data env) as [[data|]|]; [| |done].
    + destruct (write_xml_ok env); [|done]. destruct (write_json_ok env); [|done].
      destruct (commit_ok env); [|done]. cbn. intros [= <-]. cbn.
      exists document0. split; [done|]. apply lookup_insert_eq.
    + destruct (normalized_json_loads env); [|done].
      destruct (write_xml_ok env); [|done]. destruct (write_json_ok env); [|done].
      destruct (commit_ok env); [|done]. cbn. intros [= <-]. cbn.
      exists document0. split; [done|]. apply lookup_insert_eq.
  - destruct (commit_ok env); [|done]. cbn. intros [= <-]. cbn.
    exists document0. split; [done|]. apply lookup_insert_eq.
Qed.

End BackendProofs.

(** ** The document life cycle: lock and status *)

Module LifecycleProofs.
Import Backend Lifecycle Spec Samples BackendProofs.

Lemma consistent_reviewDocument (review_status : string) (document : Document) :
  consistent document → consistent (reviewDocument review_status document).
Proof.
  intros Hc. unfold reviewDocument.
  destruct (String.eqb review_status "approved"); [by split|].
  destruct (String.eqb review_status "rejected"); [by split|]. exact Hc.
Qed.

Lemma allConsistent_setDocument (d : nat) (document : Document) (w : World) :
  consistent document → allConsistent w → allConsistent (setDocument d document w).
Proof.
  intros Hdoc Hw d' document' Hd'. unfold setDocument in Hd'. cbn in Hd'.
  apply lookup_insert_Some in Hd' as [[_ <-]|[_ Hd']]; [done|]. by eapply Hw.
Qed.

Lemma allConsistent_step (w : World) (c : Command) :
  allConsistent w → allConsistent (step w c).
Proof.
  intros Hw. destruct c as [path|d force|d|d gaps xml json|r|d]; simpl.
  - by apply allConsistent_setDocument.
  - unfold unlock. destruct (documents (db w) !! d); [|done].
    destruct (_ || _ || _); [|done]. by apply allConsistent_setDocument.
  - unfold lock. destruct (documents (db w) !! d); [|done].
    destruct (String.eqb _ _); [|done]. by apply allConsistent_setDocument.
  - unfold submit. destruct (documents (db w) !! d); [|done].
    destruct (_ || _ || _ || _); [done|].
    intros d' document' Hd'. cbn in Hd'.
    apply lookup_insert_Some in Hd' as [[_ <-]|[_ Hd']]; [done|]. by eapply Hw.
  - intros d document Hd.
    apply handle_documents in Hd as [Hd|(document0 & Hd & ->)]; [by eapply Hw|].
    apply consistent_reviewDocument. by eapply Hw.
  - unfold reset. destruct (documents (db w) !! d); [|done].
    by apply allConsistent_setDocument.
Qed.

Lemma allConsistent_foldl (cs : list Command) :
  ∀ w, allConsistent w → allConsistent (foldl step w cs).
Proof.
  induction cs as [|c cs IH]; intros w Hw; [done|].
  simpl. apply IH, allConsistent_step, Hw.
Qed.

(** C5.  In every world that the life-cycle commands reach, the lock bit of
    every document agrees with its status: an approved document is locked
    and a draft is unlocked.  In particular, after a review request that the
    endpoint accepts, the document of the submission is approved and locked
    if the decision is "approved", and a draft and unlocked if it is
    "rejected". *)
Theorem lock_agrees_with_status (w : World) (d : nat) (document : Document) :
  reachable w →
  documents (db w) !! d = Some document →
  (status document = "approved" → is_locked document = true)
  ∧ (status document = "draft" → is_locked document = false)
  ∧ (∀ r submission,
       fst (handle w r) = Ok submission →
       ∃ document',
         documents (db (snd (handle w r))) !! document_id submission
         = Some document'
         ∧ (review_status (req_review r) = "approved" →
            status document' = "approved" ∧ is_locked document' = true)
         ∧ (review_status (req_review r) = "rejected" →
            status document' = "draft" ∧ is_locked document' = false)).
Proof.
  intros [cs ->] Hd.
  assert (allConsistent (foldl step Lifecycle.empty cs)) as Hall.
  { apply allConsistent_foldl. intros d' document' Hd'. done. }
  destruct (Hall d document Hd) as [Happroved Hdraft].
  split; [exact Happroved|]. split; [exact Hdraft|].
  intros r submission Hok.
  destruct (handle_Ok_document _ r submission Hok) as (document0 & _ & Hdoc').
  eexists. split; [exact Hdoc'|]. unfold reviewDocument.
  split; intros ->; done.
Qed.

Lemma lock_agrees_with_status_witness :
  documents (db (foldl step Lifecycle.empty sampleCommands)) !! 0
  = Some (mkDocument "uploads/a.docx" "approved" true)
  ∧ is_locked (mkDocument "uploads/a.docx" "approved" true) = true.
Proof.
  split; [vm_compute; reflexivity|].
  apply (lock_agrees_with_status (foldl step Lifecycle.empty sampleCommands) 0
           (mkDocument "uploads/a.docx" "approved" true)).
  - by exists sampleCommands.
  - vm_compute. reflexivity.
  - reflexivity.
Defined.

End LifecycleProofs.

(** ** TableEditor.js: edit sessions, new rows and new columns *)

Module EditingProofs.
Import Js JsFacts TableEditor Spec Samples TableEditorProofs.

(** *** White space and letter case *)

Lemma isWhiteSpace_lowerChar (c : ascii) :
  isWhiteSpace (lowerChar c) = isWhiteSpace c.
Proof. by destruct c as [[] [] [] [] [] [] [] []]. Qed.

Lemma lowerChar_lowerChar (c : ascii) : lowerChar (lowerChar c) = lowerChar c.
Proof. by destruct c as [[] [] [] [] [] [] [] []]. Qed.

Lemma toLowerCase_toLowerCase (s : string) :
  toLowerCase (toLowerCase s) = toLowerCase s.
Proof.
  induction s as [|c s IH]; [done|]. simpl. by rewrite lowerChar_lowerChar, IH.
Qed.

Lemma trimStart_toLowerCase (s : string) :
  trimStart (toLowerCase s) = toLowerCase (trimStart s).
Proof.
  induction s as [|c s IH]; [done|]. simpl. rewrite isWhiteSpace_lowerChar.
  by destruct (isWhiteSpace c).
Qed.

Lemma trimEnd_toLowerCase (s : string) :
  trimEnd (toLowerCase s) = toLowerCase (trimEnd s).
Proof.
  induction s as [|c s IH]; [done|]. simpl. rewrite IH, isWhiteSpace_lowerChar.
  destruct (trimEnd s); simpl; [|done]. by destruct (isWhiteSpace c).
Qed.

Lemma trim_toLowerCase (s : string) : trim (toLowerCase s) = toLowerCase (trim s).
Proof. unfold trim. by rewrite trimStart_toLowerCase, trimEnd_toLowerCase. Qed.

Lemma trimStart_blank_app (pad s : string) :
  blank pad = true → trimStart (pad +:+ s) = trimStart s.
Proof.
  unfold blank. induction pad as [|c pad IH]; [done|]. simpl.
  intros H. apply andb_true_iff in H as [-> H]. by apply IH.
Qed.

Lemma trimEnd_blank (pad : string) : blank pad = true → trimEnd pad = "".
Proof.
  unfold blank. induction pad as [|c pad IH]; [done|]. simpl.
  intros H. apply andb_true_iff in H as [-> H]. by rewrite IH.
Qed.

Lemma trimEnd_app_blank (s pad : string) :
  blank pad = true → trimEnd (s +:+ pad) = trimEnd s.
Proof.
  intros H. induction s as [|c s IH]; [by apply trimEnd_blank|].
  rewrite append_cons. simpl. by rewrite IH.
Qed.

Lemma trimStart_app_blank (s pad : string) :
  blank pad = true → trimEnd (trimStart (s +:+ pad)) = trimEnd (trimStart s).
Proof.
  intros H. induction s as [|c s IH].
  - change ("" +:+ pad) with pad.
    rewrite <- (append_empty_r pad), trimStart_blank_app by done. done.
  - rewrite append_cons. simpl. destruct (isWhiteSpace c); [done|].
    rewrite <- append_cons. by apply trimEnd_app_blank.
Qed.

Lemma trim_padded (pad1 s pad2 : string) :
  blank pad1 = true → blank pad2 = true → trim (pad1 +:+ s +:+ pad2) = trim s.
Proof.
  intros H1 H2. unfold trim. rewrite trimStart_blank_app by done.
  by apply trimStart_app_blank.
Qed.

(** *** The classifier *)

Lemma hasGap_editCell (v : string) (c : Cell) :
  hasGap (editCell v c) = hasGap (freshCellOf v)
  ∧ has_gap (editCell v c) = hasGap (freshCellOf v).
Proof.
  unfold hasGap, editCell, freshCellOf, textOrEmpty.
  set (lowered := toLowerCase (trim v)).
  destruct (original_has_gap c);
    cbn [has_gap is_pending is_missing is_null is_empty text]; fold lowered;
    unfold missingText, truthy;
    destruct (pendingText lowered), (nullText lowered), (String.eqb lowered ""),
      (arrayIncludes missingValues lowered); done.
Qed.

Lemma editCell_editCell (v1 v2 : string) (c : Cell) :
  editCell v2 (editCell v1 c) = editCell v2 c.
Proof. unfold editCell. by destruct (original_has_gap c). Qed.

Lemma truthy_trim (v : string) : truthy (trim v) = true → truthy v = true.
Proof. rewrite !truthy_true. intros H ->. by apply H. Qed.

(** *** Change events *)

Lemma handleCellChange_shape (isLocked : bool) (t t' : Table) (r k : nat)
    (v : string) :
  handleCellChange isLocked r k v t = Some t' →
  table_id t' = table_id t ∧ name t' = name t
  ∧ column_headers t' = column_headers t
  ∧ row_id <$> rows t' = row_id <$> rows t
  ∧ (length ∘ cells) <$> rows t' = (length ∘ cells) <$> rows t.
Proof.
  unfold handleCellChange. destruct isLocked; [by intros [= <-]|].
  destruct (rows t !! r) as [row|] eqn:Hrow; [|done]. cbn.
  destruct (cells row !! k) as [c|] eqn:Hc; [|done]. cbn.
  intros [= <-]. cbn. repeat split.
  - rewrite list_fmap_insert. cbn. apply list_insert_id.
    by rewrite list_lookup_fmap, Hrow.
  - rewrite list_fmap_insert. cbn. rewrite length_insert. apply list_insert_id.
    by rewrite list_lookup_fmap, Hrow.
Qed.

Lemma lastValueAt_cons (i j : nat) (isLocked : bool) (r k : nat) (v : string)
    (es : list Edit) :
  lastValueAt i j ((isLocked, r, k, v) :: es) =
    if negb isLocked && bool_decide (r = i ∧ k = j)
    then match lastValueAt i j es with Some y => Some y | None => Some v end
    else lastValueAt i j es.
Proof.
  unfold lastValueAt. simpl.
  destruct (negb isLocked && bool_decide (r = i ∧ k = j)); [apply last_cons|done].
Qed.

(** The cell at a position after a session: the cell before it, changed by
    the last value that reached it. *)
Lemma cellAt_applyEdits (es : list Edit) :
  ∀ (t t' : Table) (i j : nat) (c : Cell),
    applyEdits es t = Some t' → cellAt i j t = Some c →
    cellAt i j t' = Some (match lastValueAt i j es with
                          | Some v => editCell v c
                          | None => c
                          end).
Proof.
  induction es as [|[[[isLocked r] k] v] es IH]; intros t t' i j c Hrun Hc.
  - by injection Hrun as <-.
  - cbn in Hrun.
    destruct (handleCellChange isLocked r k v t) as [t1|] eqn:Hstep; [|done].
    cbn in Hrun.
    pose proof (cellAt_handleCellChange _ _ _ _ _ _ i j Hstep) as Hc1.
    rewrite Hc in Hc1. rewrite lastValueAt_cons.
    destruct isLocked; cbn [negb andb].
    + by apply (IH t1).
    + rewrite (bool_decide_ext (r = i ∧ k = j) (i = r ∧ j = k))
        by (split; intros [-> ->]; done).
      case_bool_decide; cbn in Hc1.
      * rewrite (IH t1 t' i j _ Hrun Hc1).
        destruct (lastValueAt i j es); [|done]. by rewrite editCell_editCell.
      * by apply (IH t1).
Qed.

Lemma applyEdits_shape (es : list Edit) :
  ∀ t t', applyEdits es t = Some t' →
    table_id t' = table_id t ∧ name t' = name t
    ∧ column_headers t' = column_headers t
    ∧ row_id <$> rows t' = row_id <$> rows t
    ∧ (length ∘ cells) <$> rows t' = (length ∘ cells) <$> rows t.
Proof.
  induction es as [|[[[isLocked r] k] v] es IH]; intros t t' Hrun.
  - by injection Hrun as <-.
  - cbn in Hrun.
    destruct (handleCellChange isLocked r k v t) as [t1|] eqn:Hstep; [|done].
    cbn in Hrun.
    destruct (handleCellChange_shape _ _ _ _ _ _ Hstep) as (? & ? & ? & ? & ?).
    destruct (IH _ _ Hrun) as (? & ? & ? & ? & ?).
    repeat split; congruence.
Qed.

(** X1.  A change event fails only when the table is unlocked and has no
    cell at the position, and then nothing is stored.  Otherwise it leaves
    the table's [id], [name] and [column_headers], the ids of the rows and
    the number of cells of every row as they are, and every cell but the
    one addressed; on a locked table it changes nothing at all. *)
Theorem change_touches_one_cell (isLocked : bool) (t : Table) (r k : nat)
    (v : string) :
  match handleCellChange isLocked r k v t with
  | None => isLocked = false ∧ cellAt r k t = None
  | Some t' =>
      table_id t' = table_id t ∧ name t' = name t
      ∧ column_headers t' = column_headers t
      ∧ row_id <$> rows t' = row_id <$> rows t
      ∧ (length ∘ cells) <$> rows t' = (length ∘ cells) <$> rows t
      ∧ (∀ i j, cellAt i j t' =
                  if negb isLocked && bool_decide (i = r ∧ j = k)
                  then editCell v <$> cellAt i j t
                  else cellAt i j t)
      ∧ (isLocked = true → t' = t)
      ∧ (isLocked = false → is_Some (cellAt r k t))
  end.
Proof.
  destruct (handleCellChange isLocked r k v t) as [t'|] eqn:Hstep.
  - destruct (handleCellChange_shape _ _ _ _ _ _ Hstep) as (? & ? & ? & ? & ?).
    repeat split; try done.
    + intros i j. rewrite (cellAt_handleCellChange _ _ _ _ _ _ i j Hstep).
      by destruct isLocked.
    + intros ->. by injection Hstep as <-.
    + intros ->. unfold handleCellChange, cellAt in *.
      destruct (rows t !! r) as [row|]; [|done]. cbn in *.
      by destruct (cells row !! k).
  - unfold handleCellChange, cellAt in *. destruct isLocked; [done|].
    split; [done|].
    destruct (rows t !! r) as [row|]; [|done]. cbn in *.
    by destruct (cells row !! k).
Qed.

(** X2.  After any sequence of change events, a cell is what the last value
    that reached it makes of the cell as it was before the sequence: the
    values typed in between leave no trace, and a cell that no event
    reached is unchanged.  The shape of the table is as before. *)
Theorem session_keeps_last_value (es : list Edit) (t t' : Table) :
  applyEdits es t = Some t' →
  row_id <$> rows t' = row_id <$> rows t
  ∧ (length ∘ cells) <$> rows t' = (length ∘ cells) <$> rows t
  ∧ ∀ i j c,
      cellAt i j t = Some c →
      cellAt i j t' = Some (match lastValueAt i j es with
                            | Some v => editCell v c
                            | None => c
                            end).
Proof.
  intros Hrun.
  destruct (applyEdits_shape _ _ _ Hrun) as (_ & _ & _ & Hids & Hwidths).
  split; [exact Hids|]. split; [exact Hwidths|].
  intros i j c Hc. by apply (cellAt_applyEdits es t).
Qed.

Lemma session_keeps_last_value_witness :
  cellAt 1 1 sampleAfterEdits
  = Some (editCell "CAT-123" (editCell "CAT-12" (freshCellOf "(Pending)"))).
Proof.
  destruct (session_keeps_last_value
              [(false, 1, 1, "CAT-123"); (false, 0, 0, "Item")]
              sampleAfterFirstEdit sampleAfterEdits) as (_ & _ & H);
    [reflexivity|].
  apply (H 1 1 (editCell "CAT-12" (freshCellOf "(Pending)"))). reflexivity.
Defined.

(** X3.  A change event replaces whatever gap flags the cell carried by the
    classification of the value typed: afterwards [hasGap] and the stored
    [has_gap] are those of a fresh cell with that text, and when there is no
    gap none of the four specific flags is left set. *)
Theorem edit_reclassifies (v : string) (c : Cell) :
  text (editCell v c) = Some v
  ∧ hasGap (editCell v c) = hasGap (freshCellOf v)
  ∧ has_gap (editCell v c) = hasGap (editCell v c)
  ∧ (hasGap (editCell v c) = false →
     is_pending (editCell v c) = false ∧ is_null (editCell v c) = false
     ∧ is_missing (editCell v c) = false ∧ is_empty (editCell v c) = false).
Proof.
  destruct (hasGap_editCell v c) as [H1 H2].
  split; [by unfold editCell; destruct (original_has_gap c)|].
  split; [exact H1|]. split; [congruence|].
  rewrite H1, <- H2. unfold editCell.
  destruct (original_has_gap c); cbn [has_gap is_pending is_null is_missing is_empty];
    intros H; apply orb_false_iff in H as [H ?];
    apply orb_false_iff in H as [H ?]; apply orb_false_iff in H as [? ?]; done.
Qed.

(** X4.  For a cell that had not been edited before the session and that
    some change event reached, the stored [is_filled] flag and the [isFilled]
    test of the renderer agree at the end of the session, and the cell is
    filled exactly when it was a gap before the session and the last value
    typed is not a gap value. *)
Theorem filled_after_session (es : list Edit) (t t' : Table) (i j : nat)
    (c c' : Cell) (v : string) :
  applyEdits es t = Some t' →
  cellAt i j t = Some c →
  original_has_gap c = None →
  lastValueAt i j es = Some v →
  cellAt i j t' = Some c' →
  is_filled c' = isFilled c'
  ∧ (isFilled c' = true ↔ hasGap c = true ∧ hasGap (freshCellOf v) = false).
Proof.
  intros Hrun Hc Hnone Hlast Hc'.
  rewrite (cellAt_applyEdits es t t' i j c Hrun Hc), Hlast in Hc'.
  injection Hc' as <-.
  destruct (hasGap_editCell v c) as [Hgap Hflag].
  assert (isFilled (editCell v c)
          = hasGap c && negb (hasGap (freshCellOf v)) && truthy (trim v)) as Hfilled.
  { assert (text (editCell v c) = Some v) as Htext
      by (unfold editCell; by rewrite Hnone).
    assert (original_has_gap (editCell v c) = Some (hasGap c)) as Horig
      by (unfold editCell; by rewrite Hnone).
    assert (was_gap (editCell v c) = hasGap c) as Hwas
      by (unfold editCell; by rewrite Hnone).
    unfold isFilled, hadGap. rewrite Hgap, Htext, Horig, Hwas.
    destruct (hasGap c), (hasGap (freshCellOf v)), (truthy (trim v)) eqn:Ht;
      cbn; try done; try by rewrite andb_false_r.
    by rewrite (truthy_trim v Ht). }
  split.
  - rewrite Hfilled, <- Hflag. unfold editCell. rewrite Hnone.
    cbn [is_filled has_gap]. by rewrite length_pos.
  - rewrite Hfilled, !andb_true_iff, negb_true_iff. split; [tauto|].
    intros [H1 H2]. repeat split; try done.
    apply truthy_true. exact (hasGap_false_text (freshCellOf v) H2).
Qed.

Lemma filled_after_session_witness :
  is_filled (editCell "CAT-123" (freshCellOf "(Pending)"))
  = isFilled (editCell "CAT-123" (freshCellOf "(Pending)"))
  ∧ (isFilled (editCell "CAT-123" (freshCellOf "(Pending)")) = true ↔
       hasGap (freshCellOf "(Pending)") = true
       ∧ hasGap (freshCellOf "CAT-123") = false).
Proof.
  apply (filled_after_session
           [(false, 1, 1, "CAT-12"); (false, 0, 0, "Item"); (false, 1, 1, "CAT-123")]
           sampleTable
           (default sampleTable
              (applyEdits [(false, 1, 1, "CAT-12"); (false, 0, 0, "Item");
                           (false, 1, 1, "CAT-123")] sampleTable))
           1 1 (freshCellOf "(Pending)")
           (editCell "CAT-123" (freshCellOf "(Pending)")) "CAT-123");
    reflexivity.
Defined.

(** *** New rows and new columns *)

Lemma cellClass_blankCell (rowIdx : nat) (id : string) :
  cellClass rowIdx (blankCell id) = CellGap.
Proof. reflexivity. Qed.

(** X5.  [addRow] puts one row after the rows there are and changes nothing
    else.  The new row has as many cells as the first row, and one cell when
    the table has no row or its first row no cell; its cells are numbered
    from 0, hold the empty text and are rendered as gaps.  On a locked table
    nothing happens. *)
Theorem addRow_appends_gap_row (t : Table) :
  (∃ newRow,
     rows (addRow false t) = rows t ++ [newRow]
     ∧ row_id newRow = "row_" +:+ pretty (length (rows t))
     ∧ length (cells newRow) =
         match rows t with
         | r0 :: _ => Nat.max 1 (length (cells r0))
         | [] => 1
         end
     ∧ ∀ k c, cells newRow !! k = Some c →
         cell_id c = newCellId (length (rows t)) k
         ∧ text c = Some ""
         ∧ cellClass (length (rows t)) c = CellGap)
  ∧ (∀ i j c, cellAt i j t = Some c → cellAt i j (addRow false t) = Some c)
  ∧ table_id (addRow false t) = table_id t
  ∧ name (addRow false t) = name t
  ∧ column_headers (addRow false t) = column_headers t
  ∧ addRow true t = t.
Proof.
  split; [|split; [|done]].
  - eexists. split; [reflexivity|]. split; [reflexivity|]. split.
    + cbn. rewrite length_fmap, length_seq.
      destruct (rows t) as [|r0 rs]; [done|]. cbn. by destruct (length (cells r0)).
    + intros k c Hc. cbn in Hc. rewrite list_lookup_fmap in Hc.
      destruct (seq 0 _ !! k) as [k'|] eqn:Hk; [|done].
      apply lookup_seq in Hk as [-> _]. by injection Hc as <-.
  - intros i j c. unfold cellAt, addRow. cbn.
    destruct (rows t !! i) as [row|] eqn:Hrow; [|done].
    rewrite lookup_app_l by (by eapply lookup_lt_Some). by rewrite Hrow.
Qed.

(** X6.  [addColumn] puts one cell at the end of every row and changes
    nothing else: the rows, their ids and the cells they had stay where they
    were.  The new cell of a row carries the index of the row and of the new
    column, holds the empty text and is rendered as a gap.  On a locked
    table nothing happens. *)
Theorem addColumn_appends_gap_cell (t : Table) :
  length (rows (addColumn false t)) = length (rows t)
  ∧ (∀ i row, rows t !! i = Some row →
       ∃ c, rows (addColumn false t) !! i
              = Some {| row_id := row_id row; cells := cells row ++ [c] |}
            ∧ cell_id c = newCellId i (length (cells row))
            ∧ text c = Some ""
            ∧ cellClass i c = CellGap)
  ∧ (∀ i j c, cellAt i j t = Some c → cellAt i j (addColumn false t) = Some c)
  ∧ table_id (addColumn false t) = table_id t
  ∧ name (addColumn false t) = name t
  ∧ column_headers (addColumn false t) = column_headers t
  ∧ addColumn true t = t.
Proof.
  split; [|split; [|split; [|done]]].
  - cbn. apply length_imap.
  - intros i row Hrow. eexists. cbn. rewrite list_lookup_imap, Hrow.
    split; [reflexivity|]. done.
  - intros i j c. unfold cellAt, addColumn. cbn. rewrite list_lookup_imap.
    destruct (rows t !! i) as [row|]; [|done]. cbn. intros Hc.
    rewrite lookup_app_l by (by eapply lookup_lt_Some). done.
Qed.

(** X7.  Adding a row and adding a column can be done in either order when
    the first row of the table has a cell: the resulting tables are equal,
    ids of the new cells included. *)
Theorem addRow_addColumn_commute (t : Table) (r0 : Row) :
  rows t !! 0%nat = Some r0 →
  cells r0 ≠ [] →
  addRow false (addColumn false t) = addColumn false (addRow false t).
Proof.
  intros Hr0 Hcells. unfold addRow, addColumn. cbn.
  rewrite list_lookup_imap, Hr0, length_imap. cbn.
  rewrite length_app, imap_app. cbn.
  destruct (length (cells r0)) as [|n] eqn:Hn.
  { by destruct (cells r0). }
  f_equal. f_equal. f_equal. rewrite Nat.add_0_r.
  replace (S n + 1)%nat with (S (S n)) by lia.
  rewrite (seq_S (S n)), fmap_app, length_fmap, length_seq. done.
Qed.

Lemma addRow_addColumn_commute_witness :
  addRow false (addColumn false sampleTable)
  = addColumn false (addRow false sampleTable).
Proof.
  apply (addRow_addColumn_commute sampleTable
           (mkRow "row_0" [ freshCellOf "Name"; freshCellOf "Catalog #" ]));
    [reflexivity|discriminate].
Defined.

(** *** Letter case and surrounding white space *)

Lemma hasGap_setCellText_ext (c : Cell) (s s' : string) :
  toLowerCase (trim s) = toLowerCase (trim s') →
  hasGap (DocumentViewer.setCellText s c) = hasGap (DocumentViewer.setCellText s' c).
Proof.
  intros H. unfold hasGap, textOrEmpty, DocumentViewer.setCellText.
  cbn [text has_gap is_pending is_missing is_null is_empty]. by rewrite H.
Qed.

Lemma hasGap_freshCellOf_ext (s s' : string) :
  toLowerCase (trim s) = toLowerCase (trim s') →
  hasGap (freshCellOf s) = hasGap (freshCellOf s').
Proof.
  intros H. unfold hasGap, textOrEmpty, freshCellOf.
  cbn [text has_gap is_pending is_missing is_null is_empty]. by rewrite H.
Qed.

(** X8.  The classifier looks at the text of a cell with the white space at
    its ends removed and its letters in lower case: a cell is a gap with a
    text exactly when it is one with the text padded by white space, and
    exactly when it is one with the text in lower case; the flags that a
    change event stores do not tell these texts apart either. *)
Theorem hasGap_ignores_case_and_padding (c : Cell) (s pad1 pad2 : string) :
  blank pad1 = true → blank pad2 = true →
  hasGap (DocumentViewer.setCellText (pad1 +:+ s +:+ pad2) c)
  = hasGap (DocumentViewer.setCellText s c)
  ∧ hasGap (DocumentViewer.setCellText (toLowerCase s) c)
    = hasGap (DocumentViewer.setCellText s c)
  ∧ has_gap (editCell (pad1 +:+ toLowerCase s +:+ pad2) c) = has_gap (editCell s c).
Proof.
  intros H1 H2. split; [|split].
  - apply hasGap_setCellText_ext. by rewrite trim_padded.
  - apply hasGap_setCellText_ext.
    by rewrite trim_toLowerCase, toLowerCase_toLowerCase.
  - destruct (hasGap_editCell (pad1 +:+ toLowerCase s +:+ pad2) c) as [_ ->].
    destruct (hasGap_editCell s c) as [_ ->].
    apply hasGap_freshCellOf_ext.
    by rewrite trim_padded, trim_toLowerCase, toLowerCase_toLowerCase.
Qed.

Lemma hasGap_ignores_case_and_padding_witness :
  hasGap (DocumentViewer.setCellText "  (Pending) " (freshCellOf "x"))
  = hasGap (DocumentViewer.setCellText "(Pending)" (freshCellOf "x")).
Proof.
  apply (hasGap_ignores_case_and_padding (freshCellOf "x") "(Pending)" "  " " ");
    reflexivity.
Defined.

End EditingProofs.

(** ** TableEditor.js: the gap a cell had *)

Module GapHistoryProofs.
Import Js JsFacts TableEditor Spec Samples TableEditorProofs EditingProofs.

(** The first change event of a cell records the gap state the cell has
    then, in both fields. *)
Lemma editCell_first (v : string) (c : Cell) :
  original_has_gap c = None →
  original_has_gap (editCell v c) = Some (hasGap c)
  ∧ was_gap (editCell v c) = hasGap c
  ∧ text (editCell v c) = Some v.
Proof. intros Hnone. unfold editCell. by rewrite Hnone. Qed.

Lemma isFilled_fields (c : Cell) :
  isFilled c = true ↔
    (original_has_gap c = Some true ∨ was_gap c = true)
    ∧ hasGap c = false ∧ trim (textOrEmpty c) ≠ "".
Proof.
  assert (hadGap c = true ↔ original_has_gap c = Some true ∨ was_gap c = true)
    as Hhad.
  { unfold hadGap. destruct (original_has_gap c) as [[]|]; split; auto;
      intros [?|?]; done. }
  rewrite <- Hhad. unfold isFilled, textOrEmpty. destruct (text c) as [t|] eqn:Ht.
  - rewrite !andb_true_iff, negb_true_iff, !truthy_true. split.
    + intros (? & [? ?] & ?). done.
    + intros (? & ? & Htrim). repeat split; try done.
      intros ->. by apply Htrim.
  - split; [by rewrite andb_false_r|]. by intros (_ & _ & []).
Qed.

(** The [is_filled] flag that a change event stores is the [isFilled] test
    of the cell it leaves, when the two capture fields agreed before. *)
Lemma is_filled_editCell (v : string) (c : Cell) :
  original_has_gap c = None ∨ original_has_gap c = Some (was_gap c) →
  is_filled (editCell v c) = isFilled (editCell v c).
Proof.
  intros Hagree.
  destruct (hasGap_editCell v c) as [Hgap Hflag].
  assert (text (editCell v c) = Some v) as Htext
    by (unfold editCell; by destruct (original_has_gap c)).
  assert (∃ o, original_has_gap (editCell v c) = Some o
               ∧ was_gap (editCell v c) = o
               ∧ is_filled (editCell v c)
                 = o && negb (has_gap (editCell v c))
                   && (0 <? String.length (trim v))%nat)
    as (o & Horig & Hwas & Hstored).
  { unfold editCell. destruct Hagree as [Hnone|Hsome].
    - rewrite Hnone. by eexists.
    - rewrite Hsome. by eexists. }
  rewrite Hstored, Hflag, length_pos. unfold isFilled, hadGap.
  rewrite Hgap, Htext, Horig, Hwas.
  destruct o, (hasGap (freshCellOf v)), (truthy (trim v)) eqn:Ht;
    cbn; try done; try by rewrite andb_false_r.
  by rewrite (truthy_trim v Ht).
Qed.

(** C7.  [isFilled] holds of a cell exactly when one of the two fields that
    record an earlier gap, [original_has_gap] and [was_gap], is true, [hasGap]
    finds no gap in the cell now, and its trimmed text is not empty; so a
    cell for which neither field is true is not filled, whatever its text.
    Both fields are written together by the first change event of a cell,
    from the gap state the cell has then: for a cell not edited before, after
    any sequence of change events of which one reached it, [was_gap] is that
    gap state, the cell is filled exactly when [was_gap] is true, there is no
    gap now and the trimmed text is not empty, the stored [is_filled] flag
    says the same, and a cell that had no gap before its first edit is not
    filled.  For a cell in which the two fields agree already, every further
    change event keeps [was_gap] and leaves the cell filled under the same
    conditions. *)
Theorem isFilled_iff (c : Cell) :
  (isFilled c = true ↔
     (original_has_gap c = Some true ∨ was_gap c = true)
     ∧ hasGap c = false ∧ trim (textOrEmpty c) ≠ "")
  ∧ (original_has_gap c ≠ Some true → was_gap c = false → isFilled c = false)
  ∧ (∀ (es : list Edit) (t t' : Table) (r k : nat) (v : string) (c' : Cell),
       original_has_gap c = None →
       cellAt r k t = Some c →
       applyEdits es t = Some t' →
       lastValueAt r k es = Some v →
       cellAt r k t' = Some c' →
       original_has_gap c' = Some (hasGap c)
       ∧ was_gap c' = hasGap c
       ∧ text c' = Some v
       ∧ is_filled c' = isFilled c'
       ∧ (isFilled c' = true ↔
            was_gap c' = true ∧ hasGap c' = false ∧ trim v ≠ "")
       ∧ (hasGap c = false → isFilled c' = false))
  ∧ (∀ v : string,
       original_has_gap c = Some (was_gap c) →
       original_has_gap (editCell v c) = Some (was_gap c)
       ∧ was_gap (editCell v c) = was_gap c
       ∧ is_filled (editCell v c) = isFilled (editCell v c)
       ∧ (isFilled (editCell v c) = true ↔
            was_gap c = true ∧ hasGap (editCell v c) = false ∧ trim v ≠ "")).
Proof.
  split; [apply isFilled_fields|]. split; [|split].
  - intros Horig Hwas. destruct (isFilled c) eqn:Hfilled; [|done].
    apply isFilled_fields in Hfilled as ([?|?] & _); congruence.
  - intros es t t' r k v c' Hnone Hc Hrun Hlast Hc'.
    rewrite (cellAt_applyEdits es t t' r k c Hrun Hc), Hlast in Hc'.
    injection Hc' as <-.
    destruct (editCell_first v c Hnone) as (Horig & Hwas & Htext).
    split; [exact Horig|]. split; [exact Hwas|]. split; [exact Htext|].
    split; [apply is_filled_editCell; by left|].
    assert (isFilled (editCell v c) = true ↔
              was_gap (editCell v c) = true ∧ hasGap (editCell v c) = false
              ∧ trim v ≠ "") as Hiff.
    { rewrite isFilled_fields. unfold textOrEmpty. rewrite Htext, Horig, Hwas.
      split.
      - intros ([[= ?]|?] & ? & ?); done.
      - intros (? & ? & ?). split; [by right|done]. }
    split; [exact Hiff|].
    intros Hno. apply not_true_is_false. intros Hfilled.
    apply Hiff in Hfilled as (Htrue & _). congruence.
  - intros v Hagree.
    destruct (editCell_keeps_capture v c _ Hagree) as [Horig Hwas].
    assert (text (editCell v c) = Some v) as Htext
      by (unfold editCell; by rewrite Hagree).
    split; [exact Horig|]. split; [exact Hwas|].
    split; [apply is_filled_editCell; by right|].
    rewrite isFilled_fields. unfold textOrEmpty. rewrite Htext, Horig, Hwas.
    split.
    + intros ([[= ?]|?] & ? & ?); done.
    + intros (? & ? & ?). split; [by right|done].
Qed.

Lemma isFilled_iff_witness :
  isFilled (editCell "CAT-123" (freshCellOf "(Pending)")) = true
  ∧ isFilled (editCell "CAT-123" (freshCellOf "CAT-12")) = false.
Proof.
  destruct (isFilled_iff (editCell "CAT-123" (freshCellOf "(Pending)")))
    as (Hyes & _ & _).
  destruct (isFilled_iff (editCell "CAT-123" (freshCellOf "CAT-12")))
    as (_ & Hno & _).
  split.
  - apply Hyes. split; [left; reflexivity|]. split; [reflexivity|].
    vm_compute. discriminate.
  - apply Hno; [vm_compute; discriminate|reflexivity].
Defined.

(** C8, as stated, fails.  A cell that carries [was_gap] and no
    [original_has_gap] loses it at its first change event: the guard of
    [handleCellChange] tests [original_has_gap] alone, and the event stores
    the gap state of the text "CAT-1", which has none. *)
Lemma wasGap_overwritten :
  was_gap flaggedCell = true
  ∧ isFilled flaggedCell = true
  ∧ cellAt 0 0 flaggedTable = Some flaggedCell
  ∧ ∃ t1 c1,
      handleCellChange false 0 0 "CAT-12" flaggedTable = Some t1
      ∧ cellAt 0 0 t1 = Some c1
      ∧ was_gap c1 = false
      ∧ isFilled c1 = false.
Proof.
  split; [reflexivity|]. split; [reflexivity|]. split; [reflexivity|].
  eexists _, _. split; [reflexivity|]. split; [reflexivity|].
  split; reflexivity.
Qed.

(** C8, amended.  [was_gap] is written together with [original_has_gap], and
    only by a change event that finds [original_has_gap] undefined: the first
    event that reaches such a cell stores in both the gap state the cell has
    just before it, whatever [was_gap] the cell carried.  From a cell whose
    [original_has_gap] is defined, no sequence of change events, on this cell
    or on others, alters either field: a [was_gap] that is true stays true,
    also when the events clear the gap flags of the cell.  A cell that no
    event reaches stays as it is. *)
Theorem wasGap_kept_once_captured (es : list Edit) (t t' : Table) (r k : nat)
    (c0 : Cell) :
  applyEdits es t = Some t' →
  cellAt r k t = Some c0 →
  ∃ c',
    cellAt r k t' = Some c'
    ∧ (∀ o, original_has_gap c0 = Some o →
         original_has_gap c' = Some o ∧ was_gap c' = was_gap c0
         ∧ (was_gap c0 = true → was_gap c' = true))
    ∧ (original_has_gap c0 = None →
       match lastValueAt r k es with
       | Some v =>
           original_has_gap c' = Some (hasGap c0) ∧ was_gap c' = hasGap c0
       | None => c' = c0
       end)
    ∧ ∀ es' t'',
        applyEdits es' t' = Some t'' →
        is_Some (original_has_gap c') →
        ∃ c'', cellAt r k t'' = Some c''
               ∧ original_has_gap c'' = original_has_gap c'
               ∧ was_gap c'' = was_gap c'
               ∧ (was_gap c' = true → was_gap c'' = true).
Proof.
  intros Hrun Hc0.
  pose proof (cellAt_applyEdits es t t' r k c0 Hrun Hc0) as Hc'.
  eexists. split; [exact Hc'|]. split; [|split].
  - intros o Ho.
    destruct (applyEdits_keeps_capture _ _ _ _ _ _ _ Hrun Hc0 Ho)
      as (c1 & Hc1 & Ho1 & Hw1).
    rewrite Hc' in Hc1. injection Hc1 as ->.
    split; [exact Ho1|]. split; [exact Hw1|]. by rewrite Hw1.
  - intros Hnone. destruct (lastValueAt r k es) as [v|]; [|done].
    destruct (editCell_first v c0 Hnone) as (? & ? & _). done.
  - intros es' t'' Hrun' [o Ho].
    destruct (applyEdits_keeps_capture _ _ _ _ _ _ _ Hrun' Hc' Ho)
      as (c'' & Hc'' & Ho'' & Hw'').
    exists c''. split; [exact Hc''|]. split; [congruence|].
    split; [exact Hw''|]. by rewrite Hw''.
Qed.

Lemma wasGap_kept_once_captured_witness :
  ∃ c',
    cellAt 1 1 sampleAfterEdits = Some c'
    ∧ was_gap c' = true ∧ original_has_gap c' = Some true
    ∧ has_gap c' = false.
Proof.
  destruct (wasGap_kept_once_captured
              [(false, 1, 1, "CAT-123"); (false, 0, 0, "Item")]
              sampleAfterFirstEdit sampleAfterEdits 1 1
              (editCell "CAT-12" (freshCellOf "(Pending)")))
    as (c' & Hc' & Hkept & _); [reflexivity|reflexivity|].
  destruct (Hkept true) as (Ho & Hw & _); [reflexivity|].
  exists c'. split; [exact Hc'|]. split; [rewrite Hw; reflexivity|].
  split; [exact Ho|].
  vm_compute in Hc'. injection Hc' as <-. reflexivity.
Defined.

End GapHistoryProofs.

(** ** DocumentViewer.js: what a save stores *)

Module SaveProofs.
Import Js JsFacts Dom DocumentViewer Spec Samples MergeProofs DomProofs.

Local Arguments mergeTable : simpl never.
Local Arguments mergeRow : simpl never.
Local Arguments mergeCell : simpl never.
Local Arguments mergeParagraph : simpl never.

Lemma mergeCell_setCellText (hc : Node) (c : Cell) :
  mergeCell hc c = setCellText (trim (textContent hc)) c.
Proof.
  unfold mergeCell. rewrite newTextOf_trim. case_bool_decide as H; [done|].
  destruct (decide (text c = Some (trim (textContent hc)))) as [Heq|Hne];
    [|by destruct H].
  destruct c. cbn in *. by rewrite Heq.
Qed.

Lemma mergeParagraph_text (hp : Node) (p : Paragraph) :
  mergeParagraph hp p = {| para_text := trim (textContent hp) |}.
Proof.
  pose proof (para_text_mergeParagraph hp p) as H.
  destruct (mergeParagraph hp p). cbn in H. by rewrite H.
Qed.

Lemma setCellText_setCellText (s1 s2 : string) (c : Cell) :
  setCellText s2 (setCellText s1 c) = setCellText s2 c.
Proof. reflexivity. Qed.

Lemma handleSave_structure_Some' (s : DocumentStructure) (view : Container) :
  handleSave_structure (Some s) None view = updateStructure view s.
Proof. reflexivity. Qed.

(** X9.  A save matches the cells of the view and of the structure by their
    table, row and cell index, and the paragraphs by their index.  A cell
    that both have gets the trimmed text of the view's cell and keeps every
    other field; a cell that the view lacks is kept as it is; a cell that
    only the view has is not added.  The same holds of the paragraphs. *)
Theorem save_changes_texts_only (root : Container) (s : DocumentStructure) :
  (∀ i j k,
     cellOf (updateStructure root s) i j k =
       match htmlCellOf root i j k with
       | Some hc => setCellText (trim (textContent hc)) <$> cellOf s i j k
       | None => cellOf s i j k
       end)
  ∧ (∀ i,
       paragraphsOf (updateStructure root s) !! i =
         match queryAll sel_p root !! i with
         | Some hp =>
             (fun _ => {| para_text := trim (textContent hp) |})
               <$> paragraphsOf s !! i
         | None => paragraphsOf s !! i
         end).
Proof.
  split.
  - intros i j k. rewrite cellOf_updateStructure.
    destruct (htmlCellOf root i j k) as [hc|]; [|done].
    destruct (cellOf s i j k) as [c|]; [|done]. cbn.
    by rewrite mergeCell_setCellText.
  - intros i. rewrite paragraph_updateStructure.
    destruct (queryAll sel_p root !! i) as [hp|]; [|done].
    destruct (paragraphsOf s !! i) as [p|]; [|done]. cbn.
    by rewrite mergeParagraph_text.
Qed.

(** X10.  A save stores texts and nothing else, so it does not classify
    again: a cell that carries one of the gap flags still carries it after
    the save and is still a gap for the table editor, whatever text the view
    showed for it. *)
Theorem save_keeps_gap_flags (root : Container) (s : DocumentStructure)
    (i j k : nat) (c : Cell) :
  cellOf s i j k = Some c →
  has_gap c || is_pending c || is_missing c || is_null c || is_empty c = true →
  ∃ c', cellOf (updateStructure root s) i j k = Some c'
        ∧ has_gap c' = has_gap c ∧ is_pending c' = is_pending c
        ∧ is_missing c' = is_missing c ∧ is_null c' = is_null c
        ∧ is_empty c' = is_empty c
        ∧ TableEditor.hasGap c' = true.
Proof.
  intros Hc Hflag. rewrite cellOf_updateStructure, Hc.
  assert (TableEditor.hasGap c = true) as Hgap.
  { unfold TableEditor.hasGap. by rewrite Hflag. }
  destruct (htmlCellOf root i j k) as [hc|]; cbn.
  - exists (mergeCell hc c). rewrite mergeCell_setCellText.
    repeat split; try done.
    unfold TableEditor.hasGap, setCellText.
    cbn [has_gap is_pending is_missing is_null is_empty]. by rewrite Hflag.
  - exists c. repeat split; done.
Qed.

Lemma save_keeps_gap_flags_witness :
  ∃ c', cellOf (updateStructure
                  [ table [ tr [ td "Buffer"; td "CAT-123" ] ] ]
                  {| paragraphs := None;
                     tables := Some [ mkTable "table_0" None None
                       [ mkRow "row_0"
                           [ freshCellOf "Buffer";
                             mkCell "c" (Some "(Pending)") true true false false
                               false None false false ] ] ] |}) 0 0 1 = Some c'
        ∧ text c' = Some "CAT-123"
        ∧ TableEditor.hasGap c' = true.
Proof.
  destruct (save_keeps_gap_flags
              [ table [ tr [ td "Buffer"; td "CAT-123" ] ] ]
              {| paragraphs := None;
                 tables := Some [ mkTable "table_0" None None
                   [ mkRow "row_0"
                       [ freshCellOf "Buffer";
                         mkCell "c" (Some "(Pending)") true true false false
                           false None false false ] ] ] |} 0 0 1
              (mkCell "c" (Some "(Pending)") true true false false
                 false None false false))
    as (c' & Hc' & _ & _ & _ & _ & _ & Hgap); [reflexivity..|].
  exists c'. split; [exact Hc'|]. split; [|exact Hgap].
  vm_compute in Hc'. injection Hc' as <-. reflexivity.
Defined.

Lemma displays_updateStructure (root : Container) (s : DocumentStructure) :
  displays root (updateStructure root s).
Proof.
  split.
  - intros i j k hc c Hhc. rewrite cellOf_updateStructure, Hhc.
    destruct (cellOf s i j k) as [c0|]; [|done]. cbn. intros [= <-].
    apply text_mergeCell.
  - intros i hp p Hhp. rewrite paragraph_updateStructure, Hhp.
    destruct (paragraphsOf s !! i) as [p0|]; [|done]. cbn. intros [= <-].
    apply para_text_mergeParagraph.
Qed.

(** X11.  Saving the same view twice is the same as saving it once: the
    second save finds every text as the first one stored it. *)
Theorem save_idempotent (root : Container) (s : DocumentStructure) :
  updateStructure root (updateStructure root s) = updateStructure root s
  ∧ handleSave_structure (Some (handleSave_structure (Some s) None root)) None root
    = handleSave_structure (Some s) None root.
Proof.
  assert (updateStructure root (updateStructure root s) = updateStructure root s)
    as H by apply updateStructure_id, displays_updateStructure.
  split; [exact H|]. exact H.
Qed.

Lemma cellOf_reconcileAll (views : list Container) (i j k : nat) :
  ∀ s, cellOf (reconcileAll views s) i j k = cellOf s i j k
       ∨ ∃ t, cellOf (reconcileAll views s) i j k = setCellText t <$> cellOf s i j k.
Proof.
  unfold reconcileAll. induction views as [|view views IH]; intros s; [by left|].
  cbn [foldl]. rewrite handleSave_structure_Some'.
  destruct (IH (updateStructure view s)) as [H|[t H]]; rewrite H;
    rewrite cellOf_updateStructure;
    destruct (htmlCellOf view i j k) as [hc|]; eauto.
  - right. exists (trim (textContent hc)).
    destruct (cellOf s i j k); [|done]. cbn. by rewrite mergeCell_setCellText.
  - right. exists t. destruct (cellOf s i j k); [|done]. cbn.
    by rewrite mergeCell_setCellText.
Qed.

(** X12.  In a sequence of saves the last one decides: a cell that the last
    view has is, after the whole sequence, what saving that view alone
    would have made of it. *)
Theorem last_save_wins (views : list Container) (view : Container)
    (s : DocumentStructure) (i j k : nat) (hc : Node) :
  htmlCellOf view i j k = Some hc →
  cellOf (reconcileAll (views ++ [view]) s) i j k
  = cellOf (updateStructure view s) i j k.
Proof.
  intros Hhc. unfold reconcileAll. rewrite foldl_app. cbn [foldl].
  fold (reconcileAll views s). rewrite handleSave_structure_Some'.
  rewrite !cellOf_updateStructure, Hhc.
  destruct (cellOf_reconcileAll views i j k s) as [->|[t ->]]; [done|].
  destruct (cellOf s i j k) as [c|]; [|done]. cbn.
  by rewrite !mergeCell_setCellText.
Qed.

Lemma last_save_wins_witness :
  cellOf (reconcileAll ([catalogEdited] ++ [spacedConverted]) catalogStructure) 0 1 1
  = cellOf (updateStructure spacedConverted catalogStructure) 0 1 1.
Proof.
  apply (last_save_wins [catalogEdited] spacedConverted catalogStructure 0 1 1
           (td "CAT-123 ")).
  reflexivity.
Defined.

Lemma fmap_updateEach {A B C : Type} (f : B → C) (g : A → B → B) (l : list A)
    (s : list B) :
  (∀ a b, f (g a b) = f b) → f <$> updateEach g l s = f <$> s.
Proof.
  intros Hf. apply list_eq. intros i.
  rewrite !list_lookup_fmap, lookup_updateEach.
  destruct (l !! i); [|done]. destruct (s !! i); [|done]. cbn. by rewrite Hf.
Qed.

(** X13.  A save neither adds nor removes anything: the structure has as
    many paragraphs and tables after it as before, every table has the rows
    it had, with their ids, and every row the number of cells it had,
    whatever the view contains; a structure without a list of tables or of
    paragraphs stays without it. *)
Theorem save_keeps_shape (root : Container) (s : DocumentStructure) :
  length (paragraphsOf (updateStructure root s)) = length (paragraphsOf s)
  ∧ length (tablesOf (updateStructure root s)) = length (tablesOf s)
  ∧ (∀ i t, tablesOf s !! i = Some t →
       ∃ t', tablesOf (updateStructure root s) !! i = Some t'
             ∧ row_id <$> rows t' = row_id <$> rows t
             ∧ (length ∘ cells) <$> rows t' = (length ∘ cells) <$> rows t)
  ∧ (tables (updateStructure root s) = None ↔ tables s = None)
  ∧ (paragraphs (updateStructure root s) = None ↔ paragraphs s = None).
Proof.
  split; [|split; [|split; [|split]]].
  - rewrite paragraphsOf_updateStructure, mergeParagraphs_updateEach.
    apply length_updateEach.
  - rewrite tablesOf_updateStructure, mergeTables_updateEach.
    apply length_updateEach.
  - intros i t Ht.
    rewrite tablesOf_updateStructure, mergeTables_updateEach, lookup_updateEach, Ht.
    destruct (queryAll sel_table root !! i) as [ht|]; cbn; [|by exists t].
    exists (mergeTable ht t). split; [done|]. rewrite mergeTable_rows. cbn.
    split; apply fmap_updateEach; intros hr r; rewrite mergeRow_cells; cbn;
      [done|apply length_updateEach].
  - unfold updateStructure. cbn. by destruct (tables s).
  - unfold updateStructure. cbn. by destruct (paragraphs s).
Qed.

(** *** The structure extracted from the view *)

Lemma trimEnd_trimEnd (s : string) : trimEnd (trimEnd s) = trimEnd s.
Proof.
  induction s as [|c s IH]; [done|]. simpl.
  destruct (trimEnd s) as [|d r] eqn:Hr.
  - by destruct (isWhiteSpace c) eqn:Hc; simpl; rewrite ?Hc.
  - simpl in *. by rewrite IH.
Qed.

Lemma trimStart_trimEnd (s : string) :
  trimStart (trimEnd (trimStart s)) = trimEnd (trimStart s).
Proof.
  induction s as [|c s IH]; [done|]. simpl.
  destruct (isWhiteSpace c) eqn:Hc; [done|]. simpl.
  destruct (trimEnd s); rewrite ?Hc; simpl; by rewrite Hc.
Qed.

Lemma trim_trim (s : string) : trim (trim s) = trim s.
Proof. unfold trim. by rewrite trimStart_trimEnd, trimEnd_trimEnd. Qed.

Lemma textContent_stripHighlights (n : Node) :
  textContent (stripHighlights n) = textContent n.
Proof.
  induction n as [s|t a cs IH] using Node_ind'; [done|]. simpl. f_equal.
  induction IH as [|c cs Hc _ IHcs]; [done|]. simpl. rewrite IHcs. f_equal.
  by destruct (sel_highlight c).
Qed.

Lemma omap_fmap_Some {A B : Type} (f : A → option B) (g : A → B) (l : list A) :
  (∀ x, x ∈ l → f x = Some (g x)) → omap f l = g <$> l.
Proof.
  induction l as [|x l IH]; intros H; [done|]. cbn.
  rewrite (H x) by left. cbn. f_equal. apply IH. intros y Hy. apply H. by right.
Qed.

Lemma length_omap_le {A B : Type} (f : A → option B) (l : list A) :
  length (omap f l) ≤ length l.
Proof.
  induction l as [|x l IH]; [done|]. cbn. destruct (f x); cbn; lia.
Qed.

Lemma extractStructure_tables (root : Container) :
  tables (extractStructure root) =
    Some (omap (fun it : nat * Node =>
                  match rows (extractedTable it.1 it.2) with
                  | [] => None
                  | _ => Some (extractedTable it.1 it.2)
                  end) (imap pair (queryAll sel_table root))).
Proof.
  unfold extractStructure. cbn [tables]. f_equal.
  apply list_omap_ext. apply Forall_Forall2_diag, Forall_forall. by intros [i t].
Qed.

Lemma extractStructure_paragraphs (root : Container) :
  paragraphs (extractStructure root) =
    Some (omap (fun p => if truthy (trim (textContent p))
                         then Some {| para_text := trim (textContent p) |}
                         else None) (queryAll sel_p root)).
Proof. reflexivity. Qed.

(** X14.  The structure that a save extracts from the view, when it has none
    to start from, has a list of paragraphs and a list of tables.  It leaves
    out the paragraphs without text and the tables without rows, so both
    lists may be shorter than those of the view; every text it holds is
    trimmed, no table has a name or column headers, and no cell carries a
    flag. *)
Theorem extracted_structure_wellformed (root : Container) :
  ∃ ps ts,
    handleSave_structure None None root
    = {| paragraphs := Some ps; tables := Some ts |}
    ∧ length ps ≤ length (queryAll sel_p root)
    ∧ length ts ≤ length (queryAll sel_table root)
    ∧ (∀ p, p ∈ ps → para_text p ≠ "" ∧ trim (para_text p) = para_text p)
    ∧ (∀ t, t ∈ ts → rows t ≠ [] ∧ name t = None ∧ column_headers t = None)
    ∧ (∀ t r c, t ∈ ts → r ∈ rows t → c ∈ cells r →
         (∃ cellText, text c = Some cellText ∧ trim cellText = cellText)
         ∧ original_has_gap c = None ∧ was_gap c = false ∧ is_filled c = false
         ∧ has_gap c || is_pending c || is_missing c || is_null c || is_empty c
           = false).
Proof.
  pose proof (extractStructure_tables root) as Hts.
  pose proof (extractStructure_paragraphs root) as Hps.
  cbn [handleSave_structure].
  destruct (extractStructure root) as [ps' ts']. cbn in Hts, Hps. subst ps' ts'.
  eexists _, _. split; [reflexivity|].
  split; [apply length_omap_le|].
  split; [etrans; [apply length_omap_le|]; by rewrite length_imap|].
  assert (∀ t, t ∈ omap (fun it : nat * Node =>
                 match rows (extractedTable it.1 it.2) with
                 | [] => None
                 | _ => Some (extractedTable it.1 it.2)
                 end) (imap pair (queryAll sel_table root)) →
          ∃ i ht, t = extractedTable i ht ∧ rows t ≠ []) as Htable.
  { intros t Ht. apply list_elem_of_omap in Ht as ([i ht] & _ & Hsome).
    cbn [fst snd] in Hsome. exists i, ht.
    destruct (rows (extractedTable i ht)) eqn:Hrows; [done|].
    injection Hsome as <-. by rewrite Hrows. }
  split; [|split].
  - intros p Hp. apply list_elem_of_omap in Hp as (hp & _ & Hsome).
    destruct (truthy (trim (textContent hp))) eqn:Ht; [|done].
    injection Hsome as <-. cbn. split; [by apply truthy_true|apply trim_trim].
  - intros t Ht. destruct (Htable t Ht) as (i & ht & -> & Hrows). done.
  - intros t r c Ht Hr Hc. destruct (Htable t Ht) as (i & ht & -> & _).
    cbn [rows extractedTable] in Hr.
    apply elem_of_lookup_imap in Hr as (j & hr & -> & _).
    cbn [cells extractedRow] in Hc.
    apply elem_of_lookup_imap in Hc as (k & hc & -> & _).
    split; [|done]. eexists. split; [reflexivity|apply trim_trim].
Qed.

Lemma imap_nil_inv {A B : Type} (f : nat → A → B) (l : list A) :
  imap f l = [] → l = [].
Proof. by destruct l. Qed.

Lemma tablesOf_extractStructure (root : Container) :
  wellFilled root = true →
  tablesOf (extractStructure root) = imap extractedTable (queryAll sel_table root).
Proof.
  intros H. apply andb_true_iff in H as [_ H]. rewrite forallb_forall in H.
  unfold tablesOf. rewrite extractStructure_tables. cbn [default].
  rewrite (omap_fmap_Some _ (fun it : nat * Node => extractedTable it.1 it.2)).
  - rewrite fmap_imap. by apply imap_ext.
  - intros [i ht] Hin. apply elem_of_lookup_imap in Hin as (i' & ht' & [= -> ->] & Hi).
    cbn [fst snd].
    destruct (rows (extractedTable i' ht')) eqn:Hrows; [|done].
    apply imap_nil_inv in Hrows.
    assert (In ht' (queryAll sel_table root)) as Hin'
      by (apply list_elem_of_In; by eapply list_elem_of_lookup_2).
    apply H in Hin'. by rewrite bool_decide_eq_true_2 in Hin'.
Qed.

Lemma paragraphsOf_extractStructure (root : Container) :
  wellFilled root = true →
  paragraphsOf (extractStructure root)
  = (fun p => {| para_text := trim (textContent p) |}) <$> queryAll sel_p root.
Proof.
  intros H. apply andb_true_iff in H as [H _]. rewrite forallb_forall in H.
  unfold paragraphsOf. rewrite extractStructure_paragraphs. cbn [default].
  apply omap_fmap_Some. intros p Hp. rewrite H; [done|]. by apply list_elem_of_In.
Qed.

Lemma cellOf_extractStructure (root : Container) (i j k : nat) :
  wellFilled root = true →
  cellOf (extractStructure root) i j k
  = extractedCell i j k <$> htmlCellOf root i j k.
Proof.
  intros H. unfold cellOf, htmlCellOf. rewrite (tablesOf_extractStructure _ H).
  rewrite list_lookup_imap.
  destruct (queryAll sel_table root !! i) as [ht|]; [|done]. cbn.
  rewrite list_lookup_imap.
  destruct (querySelectorAll sel_tr ht !! j) as [hr|]; [|done]. cbn.
  by rewrite list_lookup_imap.
Qed.

(** X15.  When no paragraph of the view is without text and every table of
    the view has a row, the extracted structure has exactly the paragraphs,
    tables, rows and cells of the view, each with the trimmed text of its
    element, and a save of the same view that starts from the extracted
    structure returns it unchanged. *)
Theorem extracted_structure_stable (root : Container) :
  wellFilled root = true →
  (∀ i j k,
     text <$> cellOf (handleSave_structure None None root) i j k
     = (fun hc => Some (trim (textContent hc))) <$> htmlCellOf root i j k)
  ∧ para_text <$> paragraphsOf (handleSave_structure None None root)
    = (fun hp => trim (textContent hp)) <$> queryAll sel_p root
  ∧ handleSave_structure (Some (handleSave_structure None None root)) None root
    = handleSave_structure None None root.
Proof.
  intros H. cbn [handleSave_structure]. split; [|split].
  - intros i j k. rewrite (cellOf_extractStructure _ _ _ _ H).
    destruct (htmlCellOf root i j k) as [hc|]; [|done]. cbn.
    by rewrite textContent_stripHighlights.
  - rewrite (paragraphsOf_extractStructure _ H), <- list_fmap_compose. done.
  - apply updateStructure_id. split.
    + intros i j k hc c Hhc. rewrite (cellOf_extractStructure _ _ _ _ H), Hhc.
      cbn. intros [= <-]. cbn. by rewrite textContent_stripHighlights.
    + intros i hp p Hhp. rewrite (paragraphsOf_extractStructure _ H).
      rewrite list_lookup_fmap, Hhp. cbn. by intros [= <-].
Qed.

Lemma extracted_structure_stable_witness :
  handleSave_structure (Some (handleSave_structure None None catalogEdited)) None
    catalogEdited
  = handleSave_structure None None catalogEdited.
Proof.
  apply (extracted_structure_stable catalogEdited). reflexivity.
Defined.

End SaveProofs.

(** ** DocumentViewer.js: what loading adds to the converted document *)

Module LoadProofs.
Import Js JsFacts Dom DocumentViewer Spec Samples MergeProofs DomProofs.

Section Transformation.

Variable onText : string → list Node.
Variable splice : Tag → bool.
Variable onAttrs : Attrs → Attrs.

Hypothesis onText_text : ∀ s, textContentOf (onText s) = s.
Hypothesis onText_plain : ∀ s, Forall plain (onText s).
Hypothesis splice_plain : ∀ t a cs, splice t = true → structural (Elem t a cs) = false.

Local Abbreviation transform := (Spec.transform onText splice onAttrs).
Local Abbreviation transformElement :=
  (Spec.transformElement onText splice onAttrs).

Lemma htmlCellOf_queries (root root' : Container) (i j k : nat) :
  queryAll sel_table root' = map transformElement (queryAll sel_table root) →
  htmlCellOf root' i j k = transformElement <$> htmlCellOf root i j k.
Proof.
  intros Htables. unfold htmlCellOf.
  rewrite Htables, list_lookup_fmap.
  destruct (queryAll sel_table root !! i) as [ht|]; [|done]. cbn.
  rewrite (querySelectorAll_transformElement onText splice onAttrs onText_plain
             splice_plain _ _ structural_sel_tr), list_lookup_fmap.
  destruct (querySelectorAll sel_tr ht !! j) as [hr|]; [|done]. cbn.
  rewrite (querySelectorAll_transformElement onText splice onAttrs onText_plain
             splice_plain _ _ structural_sel_td_th), list_lookup_fmap.
  done.
Qed.

Lemma htmlCellOf_transform (root : Container) (i j k : nat) :
  htmlCellOf (flat_map transform root) i j k
  = transformElement <$> htmlCellOf root i j k.
Proof.
  unfold htmlCellOf.
  rewrite (queryAll_transform onText splice onAttrs onText_plain splice_plain
             _ _ structural_sel_table), list_lookup_fmap.
  destruct (queryAll sel_table root !! i) as [ht|]; [|done]. cbn.
  rewrite (querySelectorAll_transformElement onText splice onAttrs onText_plain
             splice_plain _ _ structural_sel_tr), list_lookup_fmap.
  destruct (querySelectorAll sel_tr ht !! j) as [hr|]; [|done]. cbn.
  rewrite (querySelectorAll_transformElement onText splice onAttrs onText_plain
             splice_plain _ _ structural_sel_td_th), list_lookup_fmap.
  done.
Qed.

Lemma textContent_htmlCellOf_transform (root : Container) (i j k : nat) :
  textContent <$> htmlCellOf (flat_map transform root) i j k
  = textContent <$> htmlCellOf root i j k.
Proof.
  rewrite htmlCellOf_transform. destruct (htmlCellOf root i j k) as [hc|]; [|done].
  cbn. f_equal. by apply textContent_transformElement.
Qed.

Lemma textContent_paragraph_transform (root : Container) (i : nat) :
  textContent <$> queryAll sel_p (flat_map transform root) !! i
  = textContent <$> queryAll sel_p root !! i.
Proof.
  rewrite (queryAll_transform onText splice onAttrs onText_plain splice_plain
             _ _ structural_sel_p), list_lookup_fmap.
  destruct (queryAll sel_p root !! i) as [hp|]; [|done].
  cbn. f_equal. by apply textContent_transformElement.
Qed.

End Transformation.

(** *** The highlight spans *)

Lemma matchLit_Some (pat : string) :
  ∀ l n, matchLit pat l = Some n →
         toLowerCase (stringOfItems (take n l)) = pat.
Proof.
  induction pat as [|pc pat IH]; intros l n H; simpl in H.
  - by injection H as <-.
  - destruct l as [|[c|idx m] l]; [done| |done].
    destruct (Ascii.eqb (lowerChar c) pc) eqn:Hc; [|done].
    apply Ascii.eqb_eq in Hc.
    destruct (matchLit pat l) as [n'|] eqn:Hm; [|done].
    cbn in H. injection H as <-. cbn [take].
    rewrite stringOfItems_cons. unfold stringOfItems at 1. cbn.
    change ((String c "" +:+ "") +:+ ?r) with (String c r). cbn.
    by rewrite Hc, (IH l n' Hm).
Qed.

Lemma firstAlternative_Some (pats : list string) (ok : nat → bool) (l : list Item)
    (n : nat) :
  firstAlternative pats ok l = Some n →
  toLowerCase (stringOfItems (take n l)) ∈ pats.
Proof.
  induction pats as [|pat pats IH]; [done|]. simpl.
  destruct (matchLit pat l) as [n'|] eqn:Hm.
  - destruct (ok n').
    + intros [= <-]. rewrite (matchLit_Some _ _ _ Hm). by left.
    + intros H. right. by apply IH.
  - intros H. right. by apply IH.
Qed.

Lemma boundedWords_Some (pats : list string) before (l : list Item) (n : nat) :
  boundedWords pats before l = Some n →
  toLowerCase (stringOfItems (take n l)) ∈ pats.
Proof.
  unfold boundedWords. destruct (boundary _ _); [|done].
  apply firstAlternative_Some.
Qed.

Lemma replaceAll_itemOk (re : Regex) keep (l : list Item) :
  (∀ before l n, re before l = Some n →
     toLowerCase (stringOfItems (take n l)) ∈ highlightedWords) →
  Forall itemOk l →
  ∀ count inside before,
    Forall itemOk (replaceAll re keep count inside before l).
Proof.
  intros Hre Hl.
  induction Hl as [|i l Hi Hl IH]; intros count inside before; [done|].
  destruct inside as [|inside]; [|apply IH].
  cbn [replaceAll]. destruct (re before (i :: l)) as [[|m]|] eqn:Hm.
  - constructor; [done|apply IH].
  - cbv zeta. destruct (keep _ _).
    + apply Forall_app. split; [|apply IH]. apply Forall_take. by constructor.
    + constructor; [|apply IH]. cbn. by apply (Hre _ _ _ Hm).
  - constructor; [done|apply IH].
Qed.

Lemma itemOk_itemsOf (s : string) : Forall itemOk (itemsOf s).
Proof. unfold itemsOf. apply Forall_fmap, Forall_true. done. Qed.

Lemma pendingForms_highlighted (pats : list string) :
  pats = ["(pending)"] ∨ pats = ["pending)"; "(pending"] ∨ pats = ["pending"]
  ∨ pats = nullAndMissingWords →
  pats ⊆ highlightedWords.
Proof.
  intros H x Hx. unfold highlightedWords. apply elem_of_app.
  destruct H as [-> | [-> | [-> | ->]]]; [right..|by left];
    repeat (apply elem_of_cons in Hx as [->|Hx]);
    try (by apply elem_of_nil in Hx); repeat constructor.
Qed.

Lemma itemOk_runSteps (s : string) : Forall itemOk (runSteps s).
Proof.
  unfold runSteps.
  assert (∀ pats, pats ⊆ highlightedWords →
            ∀ (l : list Item) n, firstAlternative pats (fun _ => true) l = Some n →
              toLowerCase (stringOfItems (take n l)) ∈ highlightedWords) as Hfirst.
  { intros pats Hsub l n H. apply Hsub. by eapply firstAlternative_Some. }
  assert (∀ pats, pats ⊆ highlightedWords →
            ∀ before l n, boundedWords pats before l = Some n →
              toLowerCase (stringOfItems (take n l)) ∈ highlightedWords) as Hbounded.
  { intros pats Hsub before l n H. apply Hsub. by eapply boundedWords_Some. }
  apply replaceAll_itemOk.
  { apply Hbounded, pendingForms_highlighted. tauto. }
  apply replaceAll_itemOk.
  { intros before l n H. apply (Hfirst ["pending)"; "(pending"]); [|exact H].
    apply pendingForms_highlighted. tauto. }
  apply replaceAll_itemOk.
  { intros before l n H. apply (Hfirst ["(pending)"]); [|exact H].
    apply pendingForms_highlighted. tauto. }
  apply replaceAll_itemOk.
  { apply Hbounded, pendingForms_highlighted. tauto. }
  apply itemOk_itemsOf.
Qed.

(** A span is put in for a match only. *)
Local Abbreviation pieceOk :=
  (fun piece : Piece =>
     match piece with
     | Lit _ => True
     | Span m => toLowerCase m ∈ highlightedWords
     end).

Lemma replacementsOf_ok (l : list Item) :
  Forall itemOk l →
  Forall (fun m => toLowerCase m ∈ highlightedWords) (replacementsOf l).
Proof.
  intros Hl. apply Forall_forall. intros m Hm. unfold replacementsOf in Hm.
  apply list_elem_of_omap in Hm as (idx & _ & Hhead).
  apply head_Some_elem_of, list_elem_of_omap in Hhead as ([c|k m'] & Hi & Hsome);
    [done|].
  destruct (k =? idx)%nat; [|done]. injection Hsome as ->.
  rewrite Forall_forall in Hl. exact (Hl _ Hi).
Qed.

Lemma replaceFirst_ok (placeholder m : string) (pieces : list Piece) :
  toLowerCase m ∈ highlightedWords →
  Forall pieceOk pieces → Forall pieceOk (replaceFirst placeholder m pieces).
Proof.
  intros Hm Hpieces. induction Hpieces as [|[s|m'] pieces Hp Hrest IH]; [done|..].
  - cbn [replaceFirst]. destruct (splitAtFirst placeholder s) as [[before after]|].
    + constructor; [done|]. constructor; [exact Hm|]. by constructor.
    + by constructor.
  - cbn [replaceFirst]. by constructor.
Qed.

Lemma step5_ok (l : list Item) : Forall itemOk l → Forall pieceOk (step5 l).
Proof.
  intros Hl. unfold step5, forEach.
  pose proof (replacementsOf_ok l Hl) as Hrs.
  assert (Forall pieceOk [Lit (processedOf l)]) as Hstart by (by repeat constructor).
  generalize dependent [Lit (processedOf l)]. generalize 0%nat.
  induction Hrs as [|m rs Hm _ IH]; intros idx pieces Hpieces; [done|].
  cbn [forEachFrom]. apply IH. by apply replaceFirst_ok.
Qed.

Lemma textOrHighlight_nodesOfPieces (pieces : list Piece) :
  Forall pieceOk pieces → Forall textOrHighlight (nodesOfPieces pieces).
Proof.
  intros Hpieces. induction Hpieces as [|[[|c s]|m] pieces Hp _ IH];
    [constructor|..]; rewrite nodesOfPieces_cons; apply Forall_app;
    (split; [|exact IH]); cbn.
  - constructor.
  - constructor; [left; by eexists|constructor].
  - constructor; [right; by exists m|constructor].
Qed.

(** X17.  In place of a text node, highlighting puts text nodes and highlight
    spans, and the text of every span is, letter case apart, one of the
    words for a null or missing value or one of the forms of "pending":
    nothing else is ever highlighted.  A text with an equals sign, and a
    text of white space only, are left as they are. *)
Theorem highlights_only_gap_words (text : string) :
  Forall textOrHighlight (highlightTextNode text)
  ∧ (includes text "=" = true → highlightTextNode text = [Text text])
  ∧ (trim text = "" → highlightTextNode text = [Text text]).
Proof.
  split; [|split].
  - unfold highlightTextNode, highlightTextContent.
    repeat (destruct (_ || _);
            [constructor; [left; by eexists|constructor]|]).
    apply textOrHighlight_nodesOfPieces, step5_ok, itemOk_runSteps.
  - unfold highlightTextNode. by intros ->.
  - unfold highlightTextNode, highlightTextContent. intros ->.
    destruct (_ || _); [done|]. cbn. by rewrite orb_true_r.
Qed.

Lemma bareView_project flagged (converted : Container) :
  bareView (project flagged converted) = bareView (highlightHtml converted).
Proof.
  unfold project.
  by rewrite bareView_applyGapHighlightingToTables, bareView_tagCells.
Qed.

Lemma bare_text (s : string) : textContentOf [Text s] = s.
Proof. apply textContentOf_Text. Qed.

Lemma bare_plain (s : string) : Forall plain [Text s].
Proof. by repeat constructor. Qed.

Lemma bare_splice t a (cs : list Node) :
  isSpan t = true → structural (Elem t a cs) = false.
Proof. by destruct t. Qed.

(** X16.  What [loadDocument] does to the converted document (highlight
    spans, cell identifiers, gap markers) leaves every table cell and
    paragraph at its index: the view has a cell or a paragraph at an index
    exactly when the converted document has one.  When the converted
    document is the tree of an HTML text and the highlighter finds every
    placeholder where its match was, no character is added, dropped or
    moved: the text of the whole view, of every table cell and of every
    paragraph is that of the converted document. *)
Theorem loading_keeps_text flagged (converted : Container) :
  (∀ i j k,
     is_Some (htmlCellOf (project flagged converted) i j k)
     ↔ is_Some (htmlCellOf converted i j k))
  ∧ (∀ i,
       is_Some (queryAll sel_p (project flagged converted) !! i)
       ↔ is_Some (queryAll sel_p converted !! i))
  ∧ (parsedHtml converted = true →
     highlightedInPlace converted = true →
     textContentOf (project flagged converted) = textContentOf converted
     ∧ (∀ i j k,
          textContent <$> htmlCellOf (project flagged converted) i j k
          = textContent <$> htmlCellOf converted i j k)
     ∧ (∀ i,
          textContent <$> queryAll sel_p (project flagged converted) !! i
          = textContent <$> queryAll sel_p converted !! i)).
Proof.
  assert (∀ sel, StructuralSelector sel →
            queryAll sel (bareView (project flagged converted))
            = map (transformElement (fun s => [Text s]) isSpan (fun _ => noAttrs))
                  (queryAll sel (project flagged converted))) as Hbare1.
  { intros sel Hsel. by apply queryAll_transform; [apply bare_plain|apply bare_splice|]. }
  assert (∀ sel, StructuralSelector sel →
            queryAll sel (bareView (project flagged converted))
            = map (transformElement (fun s => [Text s]) isSpan (fun _ => noAttrs))
                  (queryAll sel (highlightHtml converted))) as Hbare2.
  { intros sel Hsel. rewrite bareView_project.
    by apply queryAll_transform; [apply bare_plain|apply bare_splice|]. }
  assert (∀ sel, StructuralSelector sel →
            queryAll sel (highlightHtml converted)
            = map (transformElement highlightTextNode (fun _ => false) (fun a => a))
                  (queryAll sel converted)) as Hmarked.
  { intros sel Hsel. apply queryAll_highlightFrom; [|done|].
    - apply plain_highlightTextNode.
    - apply Forall_forall. intros n _. apply highlightNode_transform. }
  assert (∀ t a cs, false = true → structural (Elem t a cs) = false) as Hnever
    by done.
  split; [|split].
  - intros i j k.
    pose proof (htmlCellOf_queries _ isSpan (fun _ => noAttrs) bare_plain
                  bare_splice (project flagged converted)
                  (bareView (project flagged converted)) i j k
                  (Hbare1 _ structural_sel_table)) as H1.
    pose proof (htmlCellOf_queries _ isSpan (fun _ => noAttrs) bare_plain
                  bare_splice (highlightHtml converted)
                  (bareView (project flagged converted)) i j k
                  (Hbare2 _ structural_sel_table)) as H2.
    pose proof (htmlCellOf_queries highlightTextNode (fun _ => false)
                  (fun a => a) plain_highlightTextNode Hnever converted
                  (highlightHtml converted) i j k
                  (Hmarked _ structural_sel_table)) as H3.
    rewrite <- (fmap_is_Some
                  (transformElement (fun s => [Text s]) isSpan (fun _ => noAttrs))
                  (htmlCellOf (project flagged converted) i j k)).
    rewrite <- H1, H2, fmap_is_Some, H3. apply fmap_is_Some.
  - intros i.
    rewrite <- (fmap_is_Some
                  (transformElement (fun s => [Text s]) isSpan (fun _ => noAttrs))
                  (queryAll sel_p (project flagged converted) !! i)).
    pose proof (f_equal (fun l => l !! i) (Hbare1 _ structural_sel_p)) as H1.
    pose proof (f_equal (fun l => l !! i) (Hbare2 _ structural_sel_p)) as H2.
    cbv beta in H1, H2. rewrite list_lookup_fmap in H1, H2.
    rewrite <- H1, H2, fmap_is_Some.
    rewrite (Hmarked _ structural_sel_p), list_lookup_fmap.
    apply fmap_is_Some.
  - intros _ Hplace.
    assert (∀ sel, StructuralSelector sel →
              queryAll sel (highlightHtml converted)
              = map (transformElement inPlaceOrSame (fun _ => false) (fun a => a))
                    (queryAll sel converted)) as Hplaced.
    { intros sel Hsel. apply queryAll_highlightFrom; [|done|].
      - apply plain_inPlaceOrSame.
      - by apply highlightedInPlace_Forall. }
    split; [|split].
    + rewrite <- (textContentOf_transform _ isSpan (fun _ => noAttrs) bare_text
                    (project flagged converted)).
      fold bare. fold (bareView (project flagged converted)).
      rewrite bareView_project. unfold bareView, bare.
      rewrite (textContentOf_transform _ isSpan (fun _ => noAttrs) bare_text).
      by apply textContentOf_highlightFrom.
    + intros i j k.
      rewrite <- (textContent_htmlCellOf_transform _ isSpan (fun _ => noAttrs)
                    bare_text bare_plain bare_splice (project flagged converted)).
      fold bare. fold (bareView (project flagged converted)).
      rewrite bareView_project. unfold bareView, bare.
      rewrite (textContent_htmlCellOf_transform _ isSpan (fun _ => noAttrs)
                 bare_text bare_plain bare_splice).
      rewrite (htmlCellOf_queries inPlaceOrSame (fun _ => false) (fun a => a)
                 plain_inPlaceOrSame Hnever converted (highlightHtml converted)
                 i j k (Hplaced _ structural_sel_table)).
      destruct (htmlCellOf converted i j k) as [hc|]; [|done]. cbn. f_equal.
      apply textContent_transformElement, textContentOf_inPlaceOrSame.
    + intros i.
      rewrite <- (textContent_paragraph_transform _ isSpan (fun _ => noAttrs)
                    bare_text bare_plain bare_splice (project flagged converted)).
      fold bare. fold (bareView (project flagged converted)).
      rewrite bareView_project. unfold bareView, bare.
      rewrite (textContent_paragraph_transform _ isSpan (fun _ => noAttrs)
                 bare_text bare_plain bare_splice).
      rewrite (Hplaced _ structural_sel_p), list_lookup_fmap.
      destruct (queryAll sel_p converted !! i) as [hp|]; [|done]. cbn. f_equal.
      apply textContent_transformElement, textContentOf_inPlaceOrSame.
Qed.

Lemma loading_keeps_text_witness :
  textContentOf (project (Some (fun _ _ _ _ => true)) spacedConverted)
  = textContentOf spacedConverted.
Proof.
  destruct (loading_keeps_text (Some (fun _ _ _ _ => true)) spacedConverted)
    as (_ & _ & Htext).
  destruct Htext as (Hwhole & _ & _); [reflexivity|vm_compute; reflexivity|].
  exact Hwhole.
Defined.

(** *** Gap marks on table cells *)

Lemma sel_highlight_addHighlightClass t a cs :
  sel_highlight (Elem t (addHighlightClass a) cs) = true.
Proof.
  unfold sel_highlight. cbn [isElement attrsOf andb].
  unfold addHighlightClass. cbn [classList].
  destruct (existsb (String.eqb "highlight-pending") (classList a)) eqn:H;
    [exact H|].
  rewrite existsb_app. cbn [existsb]. by rewrite String.eqb_refl, orb_true_r.
Qed.

Lemma gapAction_empty t a : gapAction (Elem t a []) = Leave.
Proof.
  unfold gapAction. cbn [descendants flat_map existsb negb andb childNodesOf].
  by destruct (sel_highlight (Elem t a [])).
Qed.

(** X28.  A table cell that the gap list flags is marked at most once: its
    content is put in one highlight span, or the cell gets the highlight
    class, and after either of them the same step leaves the cell alone.
    The mark changes no text.  A cell without any content gets no mark at
    all. *)
Theorem gap_mark_once (cell : Node) :
  isElement cell = true →
  gapAction (applyGapAction (gapAction cell) cell) = Leave
  ∧ textContent (applyGapAction (gapAction cell) cell) = textContent cell
  ∧ (gapAction cell ≠ Leave →
     sel_highlight (applyGapAction (gapAction cell) cell)
     || existsb sel_highlight (descendants (applyGapAction (gapAction cell) cell))
     = true)
  ∧ (childNodesOf cell = [] → gapAction cell = Leave).
Proof.
  destruct cell as [s|t a cs]; [done|]. intros _.
  destruct (gapAction (Elem t a cs)) eqn:Hact; cbn [applyGapAction setChildNodes setAttrs].
  - split; [|split; [|split]].
    + unfold gapAction. by cbn.
    + cbn. apply append_empty_r.
    + intros _. cbn. apply orb_true_r.
    + intros Hcs. cbn in Hcs. subst cs. by rewrite gapAction_empty in Hact.
  - split; [|split; [|split]].
    + unfold gapAction. rewrite sel_highlight_addHighlightClass.
      by rewrite andb_false_r.
    + done.
    + intros _. by rewrite sel_highlight_addHighlightClass.
    + intros Hcs. cbn in Hcs. subst cs. by rewrite gapAction_empty in Hact.
  - by rewrite Hact.
Qed.

Lemma gap_mark_once_witness :
  gapAction (applyGapAction (gapAction (td "TBD")) (td "TBD")) = Leave
  ∧ textContent (applyGapAction (gapAction (td "TBD")) (td "TBD")) = "TBD".
Proof.
  destruct (gap_mark_once (td "TBD")) as (H1 & H2 & _); [reflexivity|].
  by split.
Defined.

End LoadProofs.

(** ** DocumentViewer.js: finding the element and placing the caret *)

Module CursorProofs.
Import Js JsFacts Dom DocumentViewer Spec Samples DomProofs.

(** *** The text tests *)

Lemma substring0_nil (n : nat) : substring0 n "" = "".
Proof. by destruct n. Qed.

Lemma substring0_cons (n : nat) (c : ascii) (s : string) :
  substring0 (S n) (String c s) = String c (substring0 n s).
Proof. reflexivity. Qed.

Lemma substring0_min (n : nat) (s : string) :
  substring0 n s = substring0 (Nat.min n (String.length s)) s.
Proof.
  revert n. induction s as [|c s IH]; intros n.
  - by rewrite !substring0_nil.
  - destruct n as [|n]; [done|]. cbn [String.length Nat.min].
    by rewrite !substring0_cons, <- IH.
Qed.

Lemma substring0_substring0 (n m : nat) (s : string) :
  substring0 n (substring0 m s) = substring0 (Nat.min n m) s.
Proof.
  revert n m. induction s as [|c s IH]; intros n m.
  - by rewrite !substring0_nil.
  - destruct m as [|m]; [by rewrite Nat.min_0_r; destruct n|].
    destruct n as [|n]; [done|]. cbn [Nat.min].
    by rewrite !substring0_cons, IH.
Qed.

Lemma substring0_prefix (p s : string) (n : nat) :
  String.prefix p s = true → n ≤ String.length p →
  substring0 n s = substring0 n p.
Proof.
  revert s n. induction p as [|a p IH]; intros s n Hp Hn.
  - cbn in Hn. assert (n = 0) as -> by lia. by destruct s.
  - destruct s as [|b s]; [done|]. cbn in Hp.
    destruct (ascii_dec a b) as [->|]; [|done].
    destruct n as [|n]; [done|]. rewrite !substring0_cons.
    f_equal. apply IH; [done|]. cbn in Hn. lia.
Qed.

Lemma prefix_length (p s : string) :
  String.prefix p s = true → String.length p ≤ String.length s.
Proof.
  revert s. induction p as [|a p IH]; intros s Hp; [cbn; lia|].
  destruct s as [|b s]; [done|]. cbn in Hp.
  destruct (ascii_dec a b); [|done]. cbn. apply IH in Hp. lia.
Qed.

Lemma common_start (a b : string) :
  String.eqb (substring0 (Nat.min 50 (String.length b)) a)
             (substring0 (Nat.min 50 (String.length a)) b)
  = let m := Nat.min 50 (Nat.min (String.length b) (String.length a)) in
    String.eqb (substring0 m a) (substring0 m b).
Proof.
  cbv zeta.
  rewrite (substring0_min (Nat.min 50 (String.length b)) a).
  rewrite (substring0_min (Nat.min 50 (String.length a)) b).
  f_equal; f_equal; lia.
Qed.

(** X18.  The test that finds the element by its edited text comes down to
    one comparison: an element matches exactly when its trimmed text is not
    empty and agrees with the edited text on the first 50 characters, or up
    to the end of the shorter of the two when that is less.  The tests for
    equality and for one text beginning the other add nothing to it, and
    every element that the test on the text before the edit accepts for a
    text is accepted by this one too. *)
Theorem editedTextMatches_common_start (savedText elText : string) :
  let m := Nat.min 50 (Nat.min (String.length savedText) (String.length elText)) in
  editedTextMatches savedText elText
  = truthy elText && String.eqb (substring0 m elText) (substring0 m savedText)
  ∧ (originalTextMatches savedText elText = true →
     editedTextMatches savedText elText = true).
Proof.
  cbv zeta.
  set (m := Nat.min 50 (Nat.min (String.length savedText) (String.length elText))).
  assert (String.prefix savedText elText = true →
          substring0 m elText = substring0 m savedText) as Hstart1.
  { intros H. apply substring0_prefix; [done|]. lia. }
  assert (String.prefix elText savedText = true →
          substring0 m elText = substring0 m savedText) as Hstart2.
  { intros H. symmetry. apply substring0_prefix; [done|]. lia. }
  assert (editedTextMatches savedText elText
          = truthy elText
            && String.eqb (substring0 m elText) (substring0 m savedText)) as Heq.
  { unfold editedTextMatches, startsWith. rewrite common_start. cbv zeta. fold m.
    destruct (truthy elText); [|done]. cbn [andb].
    destruct (String.eqb (substring0 m elText) (substring0 m savedText)) eqn:Hm;
      [by rewrite !orb_true_r|].
    rewrite orb_false_r. apply String.eqb_neq in Hm.
    destruct (String.eqb elText savedText) eqn:H1.
    { apply String.eqb_eq in H1. by subst. }
    destruct (String.prefix savedText elText) eqn:H2; [by destruct Hm; auto|].
    destruct (String.prefix elText savedText) eqn:H3; [by destruct Hm; auto|].
    done. }
  split; [exact Heq|].
  rewrite Heq. unfold originalTextMatches, startsWith.
  destruct (truthy elText); [|done]. cbn [andb].
  rewrite !orb_true_iff, !String.eqb_eq. intros [[H|H]|H]; auto.
  assert (∀ x, substring0 m x = substring0 m (substring0 50 x)) as H50.
  { intros x. rewrite substring0_substring0. f_equal. lia. }
  by rewrite (H50 elText), (H50 savedText), H.
Qed.

(** *** Paths *)

Lemma nodeAt_snoc (p : Path) (i : nat) :
  ∀ (ns : list Node) t a cs,
    nodeAt p ns = Some (Elem t a cs) → nodeAt (p ++ [i]) ns = cs !! i.
Proof.
  induction p as [|j p IH]; intros ns t a cs H; [done|].
  destruct p as [|k p].
  - cbn in H. cbn. by rewrite H.
  - change (nodeAt (j :: (k :: p) ++ [i]) ns = cs !! i).
    cbn [nodeAt app] in *.
    destruct (ns !! j) as [[s|t' a' cs']|]; [done| |done].
    by apply (IH cs' t a cs).
Qed.

(** The pairs that [descendantsAt] and the queries return are nodes of the
    tree, at the paths given. *)
Lemma descendantsAt_located (root : Container) (n : Node) :
  ∀ p, nodeAt p root = Some n → Forall (located root) (descendantsAt p n).
Proof.
  induction n as [s|t a cs IH] using Node_ind'; intros p Hp; [constructor|].
  cbn [descendantsAt].
  assert (∀ cs' i, drop i cs = cs' →
            Forall (located root)
              ((fix go (i : nat) (cs : list Node) {struct cs} : list (Path * Node) :=
                  match cs with
                  | [] => []
                  | c :: cs' =>
                      (p ++ [i], c) :: descendantsAt (p ++ [i]) c ++ go (S i) cs'
                  end) i cs')) as Hgo.
  { intros cs'. induction cs' as [|c cs' IHcs]; intros i Hdrop; [constructor|].
    assert (cs !! i = Some c) as Hc.
    { rewrite <- (Nat.add_0_r i), <- lookup_drop, Hdrop. done. }
    assert (nodeAt (p ++ [i]) root = Some c) as Hpc
      by (by rewrite (nodeAt_snoc p i root t a cs Hp)).
    constructor; [exact Hpc|]. apply Forall_app. split.
    - rewrite Forall_lookup in IH. by apply (IH i c Hc).
    - apply IHcs. rewrite (drop_S _ _ _ Hc) in Hdrop. by injection Hdrop. }
  by apply (Hgo cs 0).
Qed.

Lemma containerDescendantsAt_located (root : list Node) :
  Forall (located root) (containerDescendantsAt root).
Proof.
  unfold containerDescendantsAt.
  assert (∀ root' i, drop i root = root' →
            Forall (located root) (containerDescendantsFrom i root')) as Hgo.
  { intros root'. induction root' as [|c root' IH]; intros i Hdrop; [constructor|].
    assert (root !! i = Some c) as Hc.
    { rewrite <- (Nat.add_0_r i), <- lookup_drop, Hdrop. done. }
    cbn [containerDescendantsFrom]. constructor; [exact Hc|].
    apply Forall_app. split.
    - by apply descendantsAt_located.
    - apply IH. rewrite (drop_S _ _ _ Hc) in Hdrop. by injection Hdrop. }
  by apply (Hgo root 0).
Qed.

Lemma Forall_filter_and {A : Type} (P : A → Prop) (f : A → bool) (l : list A) :
  Forall P l → Forall (fun x => P x ∧ f x = true) (List.filter f l).
Proof.
  intros H. induction H as [|x l Hx _ IH]; [constructor|]. cbn.
  destruct (f x) eqn:Hf; [by constructor|done].
Qed.

Lemma queryAllAt_located (sel : Node → bool) (root : Container) :
  Forall (fun qn => located root qn ∧ sel (snd qn) = true) (queryAllAt sel root).
Proof. apply Forall_filter_and, containerDescendantsAt_located. Qed.

Lemma querySelectorAllAt_located (sel : Node → bool) (root : Container)
    (pn : Path * Node) :
  located root pn →
  Forall (fun qn => located root qn ∧ sel (snd qn) = true)
    (querySelectorAllAt sel pn).
Proof. intros H. by apply Forall_filter_and, descendantsAt_located. Qed.






(** *** The caret *)

Lemma length_append (a b : string) :
  String.length (a +:+ b) = String.length a + String.length b.
Proof. induction a as [|c a IH]; [done|]. rewrite append_cons. cbn. by rewrite IH. Qed.

Lemma textLength_app (l1 l2 : list TextNode) :
  textLength (l1 ++ l2) = textLength l1 + textLength l2.
Proof. apply sum_list_with_app. Qed.

Lemma textLength_cons (node : TextNode) (l : list TextNode) :
  textLength (node :: l) = String.length (snd node) + textLength l.
Proof. reflexivity. Qed.

(** The text nodes of an element hold its text. *)
Lemma textLength_descendantsAt (n : Node) :
  ∀ p, textLength (textNodesAt (p, n))
       = match n with
         | Text _ => 0
         | Elem _ _ _ => String.length (textContent n)
         end.
Proof.
  induction n as [s|t a cs IH] using Node_ind'; intros p; [done|].
  unfold textNodesAt. cbn [fst snd descendantsAt textContent].
  generalize 0 at 1. induction IH as [|c cs Hc _ IHcs]; intros i; [done|].
  cbn [map concatStrings foldr]. rewrite length_append.
  change (omap ?f ((?q, c) :: ?l)) with (omap f ([(q, c)] ++ l)).
  rewrite !omap_app, !textLength_app.
  change (omap _ (descendantsAt (p ++ [i]) c)) with (textNodesAt (p ++ [i], c)).
  rewrite Hc, IHcs.
  destruct c as [s|t' a' cs']; unfold textLength, concatStrings; cbn; lia.
Qed.

Lemma walkTextNodes_Some (textOffset : nat) (nodes : list TextNode) :
  ∀ totalLength,
    nodes ≠ [] →
    totalLength ≤ textOffset ≤ totalLength + textLength nodes →
    ∃ before node after,
      nodes = before ++ node :: after
      ∧ walkTextNodes textOffset totalLength nodes
        = Some (node, textOffset - (totalLength + textLength before))
      ∧ totalLength + textLength before ≤ textOffset
      ∧ textOffset ≤ totalLength + textLength before + String.length (snd node)
      ∧ (before ≠ [] → totalLength + textLength before < textOffset).
Proof.
  induction nodes as [|node nodes IH]; intros totalLength Hne Hrange; [done|].
  rewrite textLength_cons in Hrange. cbn [walkTextNodes].
  destruct (textOffset <=? totalLength + String.length node.2) eqn:Htest.
  - apply Nat.leb_le in Htest. exists [], node, nodes.
    cbn [app]. unfold textLength at 1 2 3. cbn. rewrite !Nat.add_0_r.
    repeat split; try done; lia.
  - apply Nat.leb_gt in Htest.
    assert (nodes ≠ []) as Hne'.
    { intros ->. unfold textLength in Hrange. cbn in Hrange. lia. }
    destruct (IH (totalLength + String.length node.2) Hne') as
      (before & node' & after & -> & Hwalk & Hlo & Hhi & Hstrict); [lia|].
    exists (node :: before), node', after.
    rewrite textLength_cons. rewrite Hwalk.
    repeat split; try done; try lia.
    + do 2 f_equal. lia.
    + intros _. destruct before as [|b before].
      * unfold textLength. cbn. lia.
      * assert (b :: before ≠ []) as Hb by done. specialize (Hstrict Hb). lia.
Qed.

Lemma walkTextNodes_None (textOffset : nat) (nodes : list TextNode) :
  ∀ totalLength,
    totalLength + textLength nodes < textOffset →
    walkTextNodes textOffset totalLength nodes = None.
Proof.
  induction nodes as [|node nodes IH]; intros totalLength H; [done|].
  rewrite textLength_cons in H. cbn [walkTextNodes].
  destruct (textOffset <=? totalLength + String.length node.2) eqn:Htest.
  - apply Nat.leb_le in Htest. lia.
  - apply IH. lia.
Qed.

Lemma head_app {A : Type} (l1 l2 : list A) :
  head (l1 ++ l2) = match head l1 with Some x => Some x | None => head l2 end.
Proof. by destruct l1. Qed.

(** [findTextNode] yields the first text node in document order. *)
Lemma findTextNode_head (n : Node) :
  ∀ p, findTextNode p n
       = match n with
         | Text data => Some (p, data)
         | Elem _ _ _ => head (textNodesAt (p, n))
         end.
Proof.
  induction n as [s|t a cs IH] using Node_ind'; intros p; [done|].
  unfold textNodesAt. cbn [fst snd descendantsAt findTextNode].
  generalize 0. induction IH as [|c cs Hc _ IHcs]; intros i; [done|].
  change (omap ?f ((?q, c) :: ?l)) with (omap f ([(q, c)] ++ l)).
  rewrite !omap_app, !head_app.
  change (omap _ (descendantsAt (p ++ [i]) c)) with (textNodesAt (p ++ [i], c)).
  rewrite Hc, IHcs. by destruct c as [s|t' a' cs'].
Qed.

(** X20.  When the saved offset does not exceed the length of the element's
    text, the caret is put in the first text node at whose end the text
    before it reaches the offset, at the distance that is left: counted
    from the start of the element's text the caret is at the saved offset,
    and it lies within the text node. *)
Theorem caret_at_saved_offset (savedOffset : nat) (target : Target) :
  isElement (snd target) = true →
  textNodesAt target ≠ [] →
  savedOffset ≤ String.length (textContent (snd target)) →
  ∃ before node after,
    textNodesAt target = before ++ node :: after
    ∧ placeCaret savedOffset target
      = InTextNode node (savedOffset - textLength before)
    ∧ textLength before + (savedOffset - textLength before) = savedOffset
    ∧ savedOffset - textLength before ≤ String.length (snd node)
    ∧ (before ≠ [] → textLength before < savedOffset).
Proof.
  intros Helem Hne Hle. destruct target as [p n].
  pose proof (textLength_descendantsAt n p) as Hlen.
  destruct n as [s|t a cs]; [done|]. cbn [snd] in Hle.
  destruct (walkTextNodes_Some savedOffset (textNodesAt (p, Elem t a cs)) 0 Hne)
    as (before & node & after & Hsplit & Hwalk & Hlo & Hhi & Hstrict); [lia|].
  exists before, node, after. cbn [Nat.add] in *.
  split; [exact Hsplit|]. split.
  - unfold placeCaret. rewrite Hwalk. f_equal. lia.
  - split; [lia|]. split; [lia|exact Hstrict].
Qed.

Lemma caret_at_saved_offset_witness :
  ∃ before node after,
    textNodesAt ([0], Elem P noAttrs
                        [Text "Status: "; Elem SPAN highlightAttrs [Text "null"]])
    = before ++ node :: after
    ∧ placeCaret 10 ([0], Elem P noAttrs
                            [Text "Status: "; Elem SPAN highlightAttrs [Text "null"]])
      = InTextNode node (10 - textLength before)
    ∧ textLength before + (10 - textLength before) = 10
    ∧ 10 - textLength before ≤ String.length (snd node)
    ∧ (before ≠ [] → textLength before < 10).
Proof.
  apply (caret_at_saved_offset 10
           ([0], Elem P noAttrs
                   [Text "Status: "; Elem SPAN highlightAttrs [Text "null"]])).
  - reflexivity.
  - discriminate.
  - vm_compute. lia.
Defined.

(** X21.  When the saved offset exceeds the length of the element's text,
    the caret is put at the end of the first text node of the element, not
    at the end of its text; an element without a text node gets the caret
    at its end. *)
Theorem caret_beyond_text (savedOffset : nat) (target : Target) :
  isElement (snd target) = true →
  String.length (textContent (snd target)) < savedOffset
  ∨ textNodesAt target = [] →
  placeCaret savedOffset target
  = match textNodesAt target with
    | first :: _ => InTextNode first (String.length (snd first))
    | [] => AtEndOfElement
    end.
Proof.
  intros Helem Hcase. destruct target as [p n].
  pose proof (textLength_descendantsAt n p) as Hlen.
  pose proof (findTextNode_head n p) as Hfind.
  destruct n as [s|t a cs]; [done|]. cbn [snd] in Hcase.
  assert (walkTextNodes savedOffset 0 (textNodesAt (p, Elem t a cs)) = None)
    as Hwalk.
  { destruct Hcase as [Hlt|Hnil]; [|by rewrite Hnil].
    apply walkTextNodes_None. lia. }
  unfold placeCaret. rewrite Hwalk. cbn [fst snd childNodesOf].
  assert (∀ first rest,
            textNodesAt (p, Elem t a cs) = first :: rest →
            savedOffset `min` String.length first.2 = String.length first.2)
    as Hmin.
  { intros first rest HT. rewrite HT in Hlen, Hcase.
    destruct Hcase as [Hlt|Hnil]; [|done].
    rewrite textLength_cons in Hlen. lia. }
  destruct cs as [|[s|t' a' cs'] cs].
  - done.
  - cbn [head]. f_equal. by apply (Hmin (p ++ [0], s) _ eq_refl).
  - rewrite Hfind.
    destruct (textNodesAt (p, Elem t a (Elem t' a' cs' :: cs)))
      as [|first rest] eqn:HT; [done|].
    cbn [head]. f_equal. by apply (Hmin first rest).
Qed.

Lemma caret_beyond_text_witness :
  placeCaret 40 ([0], Elem P noAttrs
                        [Text "Status: "; Elem SPAN highlightAttrs [Text "null"]])
  = InTextNode ([0; 0], "Status: ") 8.
Proof.
  apply (caret_beyond_text 40
           ([0], Elem P noAttrs
                   [Text "Status: "; Elem SPAN highlightAttrs [Text "null"]])).
  - reflexivity.
  - left. vm_compute. lia.
Defined.

End CursorProofs.

(** ** DocumentViewer.js: the order of the search *)

Module LocateProofs.
Import Js JsFacts Dom DocumentViewer Spec Samples CursorProofs.

(** *** First and numbered elements of a list *)

Lemma firstMeeting_head (P : Node → Prop) (f : Target → bool) (l : list Target)
    (e : option Target) :
  (∀ x, f x = true ↔ P (snd x)) →
  firstMeeting P l e ↔ e = head (List.filter f l).
Proof.
  intros Hf. induction l as [|x l IH] in e |- *.
  - destruct e as [e|]; cbn; split; try done.
    + intros (before & after & Hl & _). by destruct before.
    + intros _ y Hy. by apply elem_of_nil in Hy.
  - cbn [List.filter]. destruct (f x) eqn:Hx.
    + assert (P (snd x)) as HPx by (by apply Hf).
      cbn [head]. destruct e as [e|]; cbn; split.
      * intros (before & after & Hl & _ & Hnone).
        destruct before as [|y before]; [by injection Hl as ->|].
        injection Hl as <- _. destruct (Hnone x); [by left|done].
      * intros [= ->]. exists [], l. split; [done|]. split; [done|].
        intros y Hy. by apply elem_of_nil in Hy.
      * intros Hnone. destruct (Hnone x); [by left|done].
      * done.
    + assert (¬ P (snd x)) as HPx by (rewrite <- Hf; congruence).
      rewrite <- IH. destruct e as [e|]; cbn; split.
      * intros (before & after & Hl & HPe & Hnone).
        destruct before as [|y before].
        { injection Hl as -> _. done. }
        injection Hl as <- ->. exists before, after. split; [done|].
        split; [done|]. intros z Hz. apply Hnone. by right.
      * intros (before & after & -> & HPe & Hnone).
        exists (x :: before), after. split; [done|]. split; [done|].
        intros z [->|Hz]%elem_of_cons; [done|by apply Hnone].
      * intros Hnone z Hz. apply Hnone. by right.
      * intros Hnone z [->|Hz]%elem_of_cons; [done|by apply Hnone].
Qed.

Lemma numberMeeting_lookup (P : Node → bool) (l : list Target) (i : nat)
    (e : option Target) :
  numberMeeting P l i e ↔ e = List.filter (fun x => P (snd x)) l !! i.
Proof.
  induction l as [|x l IH] in i, e |- *.
  - destruct e as [e|]; cbn; split; try done.
    + intros (before & after & Hl & _). by destruct before.
    + intros _. lia.
  - cbn [List.filter]. destruct (P (snd x)) eqn:Hx.
    + destruct i as [|i].
      * cbn [lookup list_lookup]. destruct e as [e|]; cbn; split.
        -- intros (before & after & Hl & _ & Hcount).
           destruct before as [|y before]; [by injection Hl as ->|].
           injection Hl as <- _. cbn in Hcount. rewrite Hx in Hcount.
           cbn in Hcount. lia.
        -- intros [= ->]. by exists [], l.
        -- rewrite Hx. cbn. lia.
        -- done.
      * change ((x :: List.filter (fun x => P (snd x)) l) !! S i)
          with (List.filter (fun x => P (snd x)) l !! i).
        rewrite <- IH. destruct e as [e|]; cbn; split.
        -- intros (before & after & Hl & HPe & Hcount).
           destruct before as [|y before]; [done|].
           injection Hl as <- ->. cbn in Hcount. rewrite Hx in Hcount.
           cbn in Hcount. exists before, after. split; [done|].
           split; [done|]. lia.
        -- intros (before & after & -> & HPe & Hcount).
           exists (x :: before), after. split; [done|]. split; [done|].
           cbn. rewrite Hx. cbn. lia.
        -- rewrite Hx. cbn. lia.
        -- rewrite Hx. cbn. lia.
    + rewrite <- IH. destruct e as [e|]; cbn; split.
      * intros (before & after & Hl & HPe & Hcount).
        destruct before as [|y before].
        { injection Hl as -> _. congruence. }
        injection Hl as <- ->. cbn in Hcount. rewrite Hx in Hcount.
        by exists before, after.
      * intros (before & after & -> & HPe & Hcount).
        exists (x :: before), after. split; [done|]. split; [done|].
        cbn. by rewrite Hx.
      * by rewrite Hx.
      * by rewrite Hx.
Qed.

Lemma find_filter {A : Type} (f g : A → bool) (l : list A) :
  List.find f (List.filter g l) = head (List.filter (fun x => g x && f x) l).
Proof.
  induction l as [|x l IH]; [done|]. cbn.
  destruct (g x); cbn; [|exact IH]. by destruct (f x).
Qed.

(** *** The tests, in words *)

Lemma prefix_beginsWith (start s : string) :
  String.prefix start s = true ↔ beginsWith s start.
Proof.
  unfold beginsWith. induction start as [|a start IH] in s |- *.
  - destruct s; cbn; split; try done; intros _; by eexists.
  - destruct s as [|b s]; cbn.
    + split; [done|]. by intros [rest [=]].
    + destruct (Ascii.ascii_dec a b) as [->|Hab].
      * rewrite IH. split; intros [rest Hrest]; exists rest.
        -- by rewrite Hrest.
        -- by injection Hrest.
      * split; [done|]. intros [rest [= ? _]]. done.
Qed.

Lemma substring0_firstChars (n : nat) (s : string) :
  substring0 n s = firstChars n s.
Proof.
  unfold substring0, firstChars. induction s as [|c s IH] in n |- *.
  - by destruct n.
  - destruct n as [|n]; [done|]. cbn. by rewrite IH.
Qed.

Lemma sel_cell_id_carries (cid : string) (n : Node) :
  sel_cell_id cid n = true ↔ carriesCellId cid n.
Proof.
  unfold sel_cell_id, carriesCellId. destruct (data_cell_id (attrsOf n)) as [w|].
  - rewrite andb_true_iff, String.eqb_eq. split; intros [? ?]; split; congruence.
  - split; [done|]. by intros [_ [=]].
Qed.

Lemma sel_editing_marked (n : Node) : sel_editing n = true ↔ markedEditing n.
Proof.
  unfold sel_editing, markedEditing. destruct (data_editing (attrsOf n)) as [w|].
  - rewrite andb_true_iff, String.eqb_eq. split; intros [? ?]; split; congruence.
  - split; [done|]. by intros [_ [=]].
Qed.

Lemma sel_table_isTable (n : Node) : sel_table n = isTable n.
Proof. by destruct n as [|[] ? ?]. Qed.

Lemma sel_tr_isRow (n : Node) : sel_tr n = isRow n.
Proof. by destruct n as [|[] ? ?]. Qed.

Lemma sel_td_th_isCell (n : Node) : sel_td_th n = isCell n.
Proof. by destruct n as [|[] ? ?]. Qed.

Lemma sel_p_isParagraph (n : Node) : sel_p n = isParagraph n.
Proof. by destruct n as [|[] ? ?]. Qed.

Lemma sel_td_th_p_cell_or_paragraph (n : Node) :
  sel_td_th_p n = true ↔ isCell n = true ∨ isParagraph n = true.
Proof. destruct n as [|[] ? ?]; cbn; split; auto; intros [?|?]; done. Qed.

Lemma editedTextMatches_words (edited : string) (n : Node) :
  sel_td_th_p n
  && editedTextMatches (trim edited) (trim (textContent n)) = true
  ↔ matchesEdited edited n.
Proof.
  unfold matchesEdited, editedTextMatches, shownText, startsWith.
  rewrite !andb_true_iff, !orb_true_iff, !String.eqb_eq, truthy_true,
    !prefix_beginsWith, !substring0_firstChars, sel_td_th_p_cell_or_paragraph.
  tauto.
Qed.

Lemma originalTextMatches_words (original : string) (n : Node) :
  sel_td_th_p n
  && originalTextMatches (trim original) (trim (textContent n)) = true
  ↔ matchesOriginal original n.
Proof.
  unfold matchesOriginal, originalTextMatches, shownText, startsWith.
  rewrite !andb_true_iff, !orb_true_iff, !String.eqb_eq, truthy_true,
    !prefix_beginsWith, !substring0_firstChars, sel_td_th_p_cell_or_paragraph.
  tauto.
Qed.

Lemma filter_ext_snd (f g : Node → bool) (l : list Target) :
  (∀ n, f n = g n) →
  List.filter (fun x => f (snd x)) l = List.filter (fun x => g (snd x)) l.
Proof. intros H. apply List.filter_ext. intros x. apply H. Qed.

(** *** The six attempts *)

Lemma byCellId_words (saved : SavedSelection) (root : Container)
    (e : option Target) :
  match cellId saved with
  | Some cid =>
      if decide (cid = "") then e = None
      else firstMeeting (carriesCellId cid) (containerDescendantsAt root) e
  | None => e = None
  end ↔ e = byCellId saved root.
Proof.
  unfold byCellId, truthyOpt. destruct (cellId saved) as [cid|]; [|done].
  destruct (decide (cid = "")) as [->|Hcid]; [done|].
  assert (truthy cid = true) as -> by (by apply truthy_true).
  apply firstMeeting_head. intros x. apply sel_cell_id_carries.
Qed.

Lemma byMarker_words (root : Container) (e : option Target) :
  firstMeeting markedEditing (containerDescendantsAt root) e
  ↔ e = byMarker root.
Proof. apply firstMeeting_head. intros x. apply sel_editing_marked. Qed.

Lemma byCellPosition_words (saved : SavedSelection) (root : Container)
    (e : option Target) :
  match cellPosition saved with
  | Some (tableIndex, rowIndex, cellIndex) =>
      ∃ table row,
        numberMeeting isTable (containerDescendantsAt root) tableIndex table
        ∧ numberMeeting isRow (below table) rowIndex row
        ∧ numberMeeting isCell (below row) cellIndex e
  | None => e = None
  end ↔ e = byCellPosition saved root.
Proof.
  unfold byCellPosition.
  destruct (cellPosition saved) as [[[tableIndex rowIndex] cellIndex]|]; [|done].
  unfold queryAllAt, querySelectorAllAt.
  rewrite (filter_ext_snd sel_table isTable _ sel_table_isTable).
  split.
  - intros (table & row & Ht & Hr & He).
    apply numberMeeting_lookup in Ht, Hr, He. subst e row table.
    unfold Target.
    destruct (List.filter _ (containerDescendantsAt root) !! tableIndex)
      as [table|]; cbn; [|done].
    rewrite (filter_ext_snd sel_tr isRow _ sel_tr_isRow).
    destruct (List.filter _ (descendantsAt (fst table) (snd table)) !! rowIndex)
      as [row|]; cbn; [|done].
    by rewrite (filter_ext_snd sel_td_th isCell _ sel_td_th_isCell).
  - intros ->.
    exists (List.filter (fun x => isTable (snd x)) (containerDescendantsAt root)
              !! tableIndex).
    destruct (List.filter _ (containerDescendantsAt root) !! tableIndex)
      as [table|] eqn:Ht.
    + exists (List.filter (fun x => isRow (snd x))
                (descendantsAt (fst table) (snd table)) !! rowIndex).
      rewrite !numberMeeting_lookup. rewrite Ht. split; [done|].
      split; [done|]. cbn.
      rewrite (filter_ext_snd sel_tr isRow _ sel_tr_isRow).
      destruct (List.filter _ (descendantsAt (fst table) (snd table)) !! rowIndex)
        as [row|]; cbn; [|done].
      by rewrite (filter_ext_snd sel_td_th isCell _ sel_td_th_isCell).
    + exists None. rewrite !numberMeeting_lookup. by rewrite Ht.
Qed.

Lemma byEditedText_words (saved : SavedSelection) (root : Container)
    (e : option Target) :
  match editedText saved with
  | Some edited =>
      if decide (edited = "") then e = None
      else firstMeeting (matchesEdited edited) (containerDescendantsAt root) e
  | None => e = None
  end ↔ e = byEditedText saved root.
Proof.
  unfold byEditedText, truthyOpt. destruct (editedText saved) as [edited|]; [|done].
  destruct (decide (edited = "")) as [->|Hedited]; [done|].
  assert (truthy edited = true) as -> by (by apply truthy_true).
  unfold queryAllAt. rewrite find_filter.
  apply firstMeeting_head. intros x. apply editedTextMatches_words.
Qed.

Lemma byOriginalText_words (saved : SavedSelection) (root : Container)
    (e : option Target) :
  (if decide (savedTextContent saved = "") then e = None
   else firstMeeting (matchesOriginal (savedTextContent saved))
          (containerDescendantsAt root) e)
  ↔ e = byOriginalText saved root.
Proof.
  unfold byOriginalText.
  destruct (decide (savedTextContent saved = "")) as [->|Hsaved]; [done|].
  assert (truthy (savedTextContent saved) = true) as -> by (by apply truthy_true).
  unfold queryAllAt. rewrite find_filter.
  apply firstMeeting_head. intros x. apply originalTextMatches_words.
Qed.

Lemma byParagraphIndex_words (saved : SavedSelection) (root : Container)
    (e : option Target) :
  match paragraphIndex saved with
  | Some idx => numberMeeting isParagraph (containerDescendantsAt root) idx e
  | None => e = None
  end ↔ e = byParagraphIndex saved root.
Proof.
  unfold byParagraphIndex. destruct (paragraphIndex saved) as [idx|]; [|done].
  unfold queryAllAt.
  rewrite (filter_ext_snd sel_p isParagraph _ sel_p_isParagraph).
  apply numberMeeting_lookup.
Qed.

Lemma findTargetElement_firstFound (saved : SavedSelection) (root : Container) :
  findTargetElement saved root =
    firstFound [ byCellId saved root; byMarker root; byCellPosition saved root;
                 byEditedText saved root; byOriginalText saved root;
                 byParagraphIndex saved root ].
Proof.
  unfold findTargetElement, unlessFound, firstFound. cbn.
  destruct (byCellId saved root); [done|].
  destruct (byMarker root); [done|].
  destruct (byCellPosition saved root); [done|].
  destruct (byEditedText saved root); [done|].
  destruct (byOriginalText saved root); [done|].
  by destruct (byParagraphIndex saved root).
Qed.

(** C4, amended.  For a saved cell id that can stand between double quotes
    (no double quote, backslash, line break or NUL in it), the element that
    [restoreCursorPosition] settles on is the one, and the only one, that
    this description gives; the first attempt that finds an element decides:
    (1) the first element of the view, in document order, whose
    [data-cell-id] is the saved cell id, when that is not empty; (2) the
    first element whose [data-editing] is "true"; (3) the cell ([td] or
    [th]) number [cellIndex] below the row number [rowIndex] below the table
    number [tableIndex] of the view; (4) when the edited text is not empty,
    the first cell or paragraph whose trimmed text is not empty and equals
    the trimmed edited text, begins with it, begins it, or agrees with it on
    the first 50 characters, or on as many as the other text has when that
    is less; (5) when the text before the edit is not empty, the first cell
    or paragraph whose trimmed text is not empty and begins with that text
    trimmed, begins it, or has the same first 50 characters; (6) the
    paragraph number [paragraphIndex] of the view.  When no attempt finds an
    element there is no target. *)
Theorem findTargetElement_order (saved : SavedSelection) (root : Container)
    (e : option Target) :
  quotableId saved →
  locates saved root e ↔ findTargetElement saved root = e.
Proof.
  intros _. rewrite findTargetElement_firstFound. unfold locates. cbv zeta.
  split.
  - intros (byId & byMark & byPosition & byEdited & byOriginal & byIndex
            & H1 & H2 & H3 & H4 & H5 & H6 & ->).
    apply byCellId_words in H1. apply byMarker_words in H2.
    apply byCellPosition_words in H3. apply byEditedText_words in H4.
    apply byOriginalText_words in H5. apply byParagraphIndex_words in H6.
    by subst.
  - intros <-.
    exists (byCellId saved root), (byMarker root), (byCellPosition saved root),
      (byEditedText saved root), (byOriginalText saved root),
      (byParagraphIndex saved root).
    split; [by apply byCellId_words|].
    split; [by apply byMarker_words|].
    split; [by apply byCellPosition_words|].
    split; [by apply byEditedText_words|].
    split; [by apply byOriginalText_words|].
    split; [by apply byParagraphIndex_words|done].
Qed.

Lemma findTargetElement_order_witness :
  quotableId cellAnchor
  ∧ locates cellAnchor (project None spacedConverted)
      (Some ([1; 0; 1; 1]%nat,
             Elem TD (mkAttrs (Some "table-0-row-1-cell-1") (Some "CAT-123")
                        None [])
                  [Text "CAT-123 "])).
Proof.
  assert (quotableId cellAnchor) as Hid by (by intros cid [= <-]).
  split; [exact Hid|].
  apply (findTargetElement_order cellAnchor (project None spacedConverted));
    [exact Hid|reflexivity].
Defined.

End LocateProofs.

(** ** The review endpoint: responses, rows and files *)

Module ReviewProofs.
Import Backend Spec Samples BackendProofs.




(** X23.  A review that does not approve touches neither the approved rows
    nor the files, whether it succeeds or fails; and unless it rejects, it
    leaves every document as it is, so that a status other than "approved"
    and "rejected" is recorded in the submission and has no other effect. *)
Theorem review_without_approval (w : World) (r : Request) :
  String.eqb (review_status (req_review r)) "approved" = false →
  approved_documents (db (snd (handle w r))) = approved_documents (db w)
  ∧ files (snd (handle w r)) = files w
  ∧ (String.eqb (review_status (req_review r)) "rejected" = false →
     documents (db (snd (handle w r))) = documents (db w)).
Proof.
  unfold handle, review_submission, commit, rollback, reviewDocument.
  destruct r as [sid review env]. cbn [req_submission_id req_review req_env].
  intros ->.
  destruct (submissions (db w) !! sid) as [submission|]; [|done].
  destruct (documents (db w) !! document_id submission) as [document|] eqn:Hd;
    [|done].
  destruct (commit_ok env); cbn; [|done].
  repeat split. intros ->. by apply insert_id.
Qed.

Lemma review_without_approval_witness :
  approved_documents (db (snd (handle approvedWorld rejectRequest)))
  = approved_documents (db approvedWorld)
  ∧ files (snd (handle approvedWorld rejectRequest)) = files approvedWorld.
Proof.
  destruct (review_without_approval approvedWorld rejectRequest) as (H1 & H2 & _);
    [reflexivity|].
  by split.
Defined.

Lemma append_cancel_l (a b c : string) : a +:+ b = a +:+ c → b = c.
Proof.
  induction a as [|x a IH]; [done|]. rewrite !JsFacts.append_cons.
  intros [= H]. by apply IH.
Qed.

Lemma xmlPathOf_jsonPathOf (d : nat) (stamp : string) :
  xmlPathOf d stamp ≠ jsonPathOf d stamp.
Proof.
  unfold xmlPathOf, jsonPathOf. intros H.
  do 3 apply append_cancel_l in H. discriminate H.
Qed.

(** X24.  After a successful approval the table of approved documents has
    a row for the document of the submission that names the new section
    id and the reviewer, and the two files that the row points to exist: the XML file holds the XML of the submission, the JSON file
    the structured data of the document as it is now or, when there is
    none, the data of the submission. *)
Theorem approval_stores_files (w : World) (r : Request) (submission : Submission) :
  fst (handle w r) = Ok submission →
  String.eqb (review_status (req_review r)) "approved" = true →
  ∃ submission0 a,
    submissions (db w) !! req_submission_id r = Some submission0
    ∧ a ∈ approved_documents (db (snd (handle w r)))
    ∧ approved_document_id a = document_id submission0
    ∧ section_id a
      = sectionIdOf (document_id submission0) (utcnow_stamp (req_env r))
    ∧ xml_file_path a
      = xmlPathOf (document_id submission0) (utcnow_stamp (req_env r))
    ∧ json_file_path a
      = jsonPathOf (document_id submission0) (utcnow_stamp (req_env r))
    ∧ approved_by a = review_reviewed_by (req_review r)
    ∧ files (snd (handle w r)) !! xml_file_path a = Some (document_xml submission0)
    ∧ files (snd (handle w r)) !! json_file_path a
      = Some (approvedData (req_env r) submission0).
Proof.
  unfold handle, review_submission, commit, rollback.
  destruct r as [sid review env]. cbn [req_submission_id req_review req_env].
  intros Hok Happroved. rewrite Happroved in *.
  destruct (submissions (db w) !! sid) as [submission0|]; [|done].
  destruct (documents (db w) !! document_id submission0) as [document|]; [|done].
  set (d := document_id submission0) in *.
  set (rows := approved_documents (db w)) in *.
  assert (∀ (data : string) (fs : gmap string string),
            ∃ a, a ∈ upsertApproved (existingApproved d rows) submission0 review env
                       (sectionIdOf d (utcnow_stamp env))
                       (xmlPathOf d (utcnow_stamp env))
                       (jsonPathOf d (utcnow_stamp env)) rows
                 ∧ approved_document_id a = d
                 ∧ section_id a = sectionIdOf d (utcnow_stamp env)
                 ∧ xml_file_path a = xmlPathOf d (utcnow_stamp env)
                 ∧ json_file_path a = jsonPathOf d (utcnow_stamp env)
                 ∧ approved_by a = review_reviewed_by review
                 ∧ <[jsonPathOf d (utcnow_stamp env) := data]>
                     (<[xmlPathOf d (utcnow_stamp env) := document_xml submission0]> fs)
                   !! xml_file_path a = Some (document_xml submission0)
                 ∧ <[jsonPathOf d (utcnow_stamp env) := data]>
                     (<[xmlPathOf d (utcnow_stamp env) := document_xml submission0]> fs)
                   !! json_file_path a = Some data) as Hrow.
  { intros data fs. unfold upsertApproved, existingApproved.
    destruct (list_find _ rows) as [[idx existing]|] eqn:Hfind.
    - apply list_find_Some in Hfind as (Hidx & Hdoc & _).
      eexists. split.
      { apply list_elem_of_lookup. exists idx.
        apply list_lookup_insert_eq. by eapply lookup_lt_Some. }
      cbn. repeat split; try done.
      + rewrite lookup_insert_ne
          by (intros H; symmetry in H; exact (xmlPathOf_jsonPathOf _ _ H)).
        apply lookup_insert_eq.
      + apply lookup_insert_eq.
    - eexists. split; [apply elem_of_app; right; apply list_elem_of_here|].
      cbn. repeat split; try done.
      + rewrite lookup_insert_ne
          by (intros H; symmetry in H; exact (xmlPathOf_jsonPathOf _ _ H)).
        apply lookup_insert_eq.
      + apply lookup_insert_eq. }
  unfold approvedData.
  destruct (docx_structured_data env) as [[data|]|]; [| |done].
  - destruct (write_xml_ok env); [|done]. destruct (write_json_ok env); [|done].
    destruct (commit_ok env); [|done]. cbn.
    destruct (Hrow data (match existingApproved d rows with
                         | Some (_, a) =>
                             removeOldFile (remove_json_ok env) (json_file_path a)
                               (removeOldFile (remove_xml_ok env) (xml_file_path a)
                                  (files w))
                         | None => files w
                         end)) as (a & Ha).
    exists submission0, a. split; [done|]. exact Ha.
  - destruct (normalized_json_loads env); [|done].
    destruct (write_xml_ok env); [|done]. destruct (write_json_ok env); [|done].
    destruct (commit_ok env); [|done]. cbn.
    destruct (Hrow (normalized_json submission0)
                (match existingApproved d rows with
                 | Some (_, a) =>
                     removeOldFile (remove_json_ok env) (json_file_path a)
                       (removeOldFile (remove_xml_ok env) (xml_file_path a)
                          (files w))
                 | None => files w
                 end)) as (a & Ha).
    exists submission0, a. split; [done|]. exact Ha.
Qed.

Lemma approval_stores_files_witness :
  ∃ submission0 a,
    submissions (db sampleWorld) !! 7 = Some submission0
    ∧ a ∈ approved_documents (db approvedWorld)
    ∧ approved_document_id a = document_id submission0
    ∧ section_id a = sectionIdOf (document_id submission0) "20251125003620"
    ∧ xml_file_path a = xmlPathOf (document_id submission0) "20251125003620"
    ∧ json_file_path a = jsonPathOf (document_id submission0) "20251125003620"
    ∧ approved_by a = "Reviewer"
    ∧ files approvedWorld !! xml_file_path a = Some (document_xml submission0)
    ∧ files approvedWorld !! json_file_path a
      = Some (approvedData (sampleEnv "20251125003620") submission0).
Proof.
  apply (approval_stores_files sampleWorld (approveRequest "20251125003620")
           (reviewed (req_review (approveRequest "20251125003620"))
              (sampleEnv "20251125003620")
              (mkSubmission 1 "submitted" None None None "<xml/>" "{}")));
    reflexivity.
Defined.

(** *** The rows of the approved documents *)

Lemma nextId_fresh (rows : list ApprovedDocument) (a : ApprovedDocument) :
  a ∈ rows → approved_id a < nextId rows.
Proof.
  unfold nextId. induction rows as [|b rows IH]; intros Ha.
  - by apply elem_of_nil in Ha.
  - apply elem_of_cons in Ha as [->|Ha]; cbn; [lia|]. apply IH in Ha. lia.
Qed.

(** What the upsert does to the row at each place of the table. *)
Lemma lookup_upsertApproved (submission : Submission) review env sid xp jp
    (rows : list ApprovedDocument) (i : nat) (a : ApprovedDocument) :
  rows !! i = Some a →
  ∃ a', upsertApproved (existingApproved (document_id submission) rows)
          submission review env sid xp jp rows !! i = Some a'
        ∧ approved_id a' = approved_id a
        ∧ approved_document_id a' = approved_document_id a
        ∧ version a ≤ version a'.
Proof.
  intros Ha. unfold upsertApproved, existingApproved.
  destruct (list_find _ rows) as [[idx existing]|] eqn:Hfind.
  - apply list_find_Some in Hfind as (Hidx & _ & _).
    destruct (decide (idx = i)) as [->|Hne].
    + rewrite list_lookup_insert_eq by (by eapply lookup_lt_Some).
      assert (existing = a) as -> by congruence.
      eexists. split; [reflexivity|]. cbn. repeat split; lia.
    + rewrite list_lookup_insert_ne by done. exists a. by rewrite Ha.
  - rewrite lookup_app_l by (by eapply lookup_lt_Some). exists a. by rewrite Ha.
Qed.

Lemma keys_upsertApproved (submission : Submission) review env sid xp jp
    (rows : list ApprovedDocument) :
  let rows' := upsertApproved (existingApproved (document_id submission) rows)
                 submission review env sid xp jp rows in
  NoDup (approved_document_id <$> rows) → NoDup (approved_id <$> rows) →
  NoDup (approved_document_id <$> rows') ∧ NoDup (approved_id <$> rows').
Proof.
  intros rows' Hdocs Hids. subst rows'. unfold upsertApproved, existingApproved.
  destruct (list_find _ rows) as [[idx existing]|] eqn:Hfind.
  - apply list_find_Some in Hfind as (Hidx & _ & _).
    rewrite !list_fmap_insert. cbn.
    rewrite !list_insert_id by (by rewrite list_lookup_fmap, Hidx). done.
  - apply list_find_None in Hfind. rewrite !fmap_app. cbn. split.
    + apply NoDup_app. split; [done|]. split; [|apply NoDup_singleton].
      intros d Hd Hin. apply list_elem_of_singleton in Hin as ->.
      apply list_elem_of_fmap in Hd as (a & Hda & Ha).
      rewrite Forall_forall in Hfind. by apply (Hfind a Ha).
    + apply NoDup_app. split; [done|]. split; [|apply NoDup_singleton].
      intros n Hn Hin. apply list_elem_of_singleton in Hin as ->.
      apply list_elem_of_fmap in Hn as (a & Hna & Ha).
      apply nextId_fresh in Ha. lia.
Qed.

(** X25.  Whatever requests are made, no two rows of the table of approved
    documents ever get the same document or the same id: the uniqueness
    that the schema demands of [document_id] is kept by the endpoint
    itself. *)
Theorem approved_rows_stay_unique (rs : list Request) (w : World) :
  NoDup (approved_document_id <$> approved_documents (db w)) →
  NoDup (approved_id <$> approved_documents (db w)) →
  NoDup (approved_document_id <$> approved_documents (db (handleAll rs w)))
  ∧ NoDup (approved_id <$> approved_documents (db (handleAll rs w))).
Proof.
  unfold handleAll. revert w. induction rs as [|r rs IH]; intros w Hdocs Hids;
    [done|].
  cbn [foldl]. pose proof (handle_approved_documents w r) as Hstep.
  assert (NoDup (approved_document_id <$> approved_documents (db (handle w r).2))
          ∧ NoDup (approved_id <$> approved_documents (db (handle w r).2)))
    as [Hdocs' Hids'].
  { destruct (fst (handle w r)) as [submission|code]; [|by rewrite Hstep].
    destruct (String.eqb _ "approved"); [|by rewrite Hstep].
    destruct Hstep as (submission0 & sid & xp & jp & _ & ->).
    by apply keys_upsertApproved. }
  by apply IH.
Qed.

Lemma approved_rows_stay_unique_witness :
  NoDup (approved_document_id <$> approved_documents
           (db (handleAll [approveRequest "20251125003620"; rejectRequest;
                           approveRequest "20251125003800"] sampleWorld)))
  ∧ NoDup (approved_id <$> approved_documents
             (db (handleAll [approveRequest "20251125003620"; rejectRequest;
                             approveRequest "20251125003800"] sampleWorld))).
Proof.
  apply (approved_rows_stay_unique
           [approveRequest "20251125003620"; rejectRequest;
            approveRequest "20251125003800"] sampleWorld);
    vm_compute; constructor.
Defined.

(** X26.  No request removes or moves a row of the table of approved
    documents: a row stays at its place with its id and its document, and
    its version never goes down. *)
Theorem approved_rows_are_kept (rs : list Request) (w : World) (i : nat)
    (a : ApprovedDocument) :
  approved_documents (db w) !! i = Some a →
  ∃ a', approved_documents (db (handleAll rs w)) !! i = Some a'
        ∧ approved_id a' = approved_id a
        ∧ approved_document_id a' = approved_document_id a
        ∧ version a ≤ version a'.
Proof.
  unfold handleAll. revert w a. induction rs as [|r rs IH]; intros w a Ha.
  { exists a. cbn [foldl]. repeat split; [exact Ha|lia]. }
  cbn [foldl]. pose proof (handle_approved_documents w r) as Hstep.
  assert (∃ a1, approved_documents (db (handle w r).2) !! i = Some a1
                ∧ approved_id a1 = approved_id a
                ∧ approved_document_id a1 = approved_document_id a
                ∧ version a ≤ version a1) as (a1 & Ha1 & Hid & Hdoc & Hv).
  { destruct (fst (handle w r)) as [submission|code];
      [|rewrite Hstep; exists a; repeat split; [exact Ha|lia]].
    destruct (String.eqb _ "approved");
      [|rewrite Hstep; exists a; repeat split; [exact Ha|lia]].
    destruct Hstep as (submission0 & sid & xp & jp & _ & ->).
    by apply lookup_upsertApproved. }
  destruct (IH _ _ Ha1) as (a' & Ha' & Hid' & Hdoc' & Hv').
  exists a'. repeat split; try congruence. lia.
Qed.

Lemma approved_rows_are_kept_witness :
  ∃ a', approved_documents
          (db (handleAll [rejectRequest; approveRequest "20251125003800"]
                 approvedWorld)) !! 0 = Some a'
        ∧ approved_id a' = 1
        ∧ approved_document_id a' = 1
        ∧ 1 ≤ version a'.
Proof.
  apply (approved_rows_are_kept [rejectRequest; approveRequest "20251125003800"]
           approvedWorld 0
           (mkApproved 1 1 "DOC-1-20251125003620"
              1 "approved/DOC-1-20251125003620.xml"
              "approved/DOC-1-20251125003620.json" "Reviewer" 100
              (Some "Looks good"))).
  reflexivity.
Defined.

(** *** The files *)

Lemma lookup_removeOldFile (ok : bool) (path p : string) (fs : gmap string string) :
  p ≠ path → removeOldFile ok path fs !! p = fs !! p.
Proof.
  intros Hne. unfold removeOldFile. case_bool_decide; [|done].
  destruct ok; [|done]. by apply lookup_delete_ne.
Qed.

(** X27.  A request changes no file but, at most, the two files named by
    the row that the document of its submission already has and the two
    files it generates: every other path holds after the request what it
    held before, whether the request succeeds or fails. *)
Theorem review_touches_own_files (w : World) (r : Request) (p : string) :
  (∀ submission a,
     submissions (db w) !! req_submission_id r = Some submission →
     a ∈ approved_documents (db w) →
     approved_document_id a = document_id submission →
     p ≠ xml_file_path a ∧ p ≠ json_file_path a) →
  (∀ submission,
     submissions (db w) !! req_submission_id r = Some submission →
     p ≠ xmlPathOf (document_id submission) (utcnow_stamp (req_env r))
     ∧ p ≠ jsonPathOf (document_id submission) (utcnow_stamp (req_env r))) →
  files (snd (handle w r)) !! p = files w !! p.
Proof.
  unfold handle, review_submission, commit, rollback.
  destruct r as [sid review env]. cbn [req_submission_id req_review req_env].
  intros Hold Hnew.
  destruct (submissions (db w) !! sid) as [submission|]; [|done].
  destruct (documents (db w) !! document_id submission) as [document|]; [|done].
  destruct (Hnew submission eq_refl) as [Hxml Hjson].
  set (fs1 := match existingApproved (document_id submission)
                      (approved_documents (db w)) with
              | Some (_, a) =>
                  removeOldFile (remove_json_ok env) (json_file_path a)
                    (removeOldFile (remove_xml_ok env) (xml_file_path a) (files w))
              | None => files w
              end).
  assert (fs1 !! p = files w !! p) as Hfs1.
  { subst fs1. unfold existingApproved.
    destruct (list_find _ _) as [[idx a]|] eqn:Hfind; [|done].
    apply list_find_Some in Hfind as (Hidx & Hdoc & _).
    destruct (Hold submission a eq_refl) as [H1 H2];
      [by eapply list_elem_of_lookup_2|done|].
    by rewrite !lookup_removeOldFile. }
  assert (<[xmlPathOf (document_id submission) (utcnow_stamp env)
            := document_xml submission]> fs1 !! p = files w !! p) as Hfs2.
  { by rewrite lookup_insert_ne. }
  assert (∀ data,
            <[jsonPathOf (document_id submission) (utcnow_stamp env) := data]>
              (<[xmlPathOf (document_id submission) (utcnow_stamp env)
                 := document_xml submission]> fs1) !! p = files w !! p) as Hfs3.
  { intros data. by rewrite lookup_insert_ne. }
  destruct (String.eqb (review_status review) "approved").
  - destruct (docx_structured_data env) as [[data|]|]; cbn; [| |done].
    + destruct (write_xml_ok env); cbn; [|exact Hfs1].
      destruct (write_json_ok env); cbn; [|exact Hfs2].
      destruct (commit_ok env); cbn; apply Hfs3.
    + destruct (normalized_json_loads env); cbn; [|done].
      destruct (write_xml_ok env); cbn; [|exact Hfs1].
      destruct (write_json_ok env); cbn; [|exact Hfs2].
      destruct (commit_ok env); cbn; apply Hfs3.
  - by destruct (commit_ok env).
Qed.

Lemma review_touches_own_files_witness :
  files (snd (handle approvedWorld (failingRequest true false)))
    !! "approved/DOC-2-20251125003620.xml"
  = files approvedWorld !! "approved/DOC-2-20251125003620.xml".
Proof.
  apply (review_touches_own_files approvedWorld (failingRequest true false)
           "approved/DOC-2-20251125003620.xml").
  - intros submission a Hs Ha Hd. vm_compute in Hs. injection Hs as <-.
    vm_compute in Ha. apply list_elem_of_singleton in Ha as ->.
    split; discriminate.
  - intros submission Hs. vm_compute in Hs. injection Hs as <-.
    split; discriminate.
Defined.

End ReviewProofs.

(** ** DocumentViewer.js: the cell identifiers *)

Module TagProofs.
Import Js JsFacts Dom DocumentViewer Spec Samples DomProofs CursorProofs.

(** The node at a path after the node at another path has been changed by a
    function that keeps the kind of a node and its children. *)
Lemma nodeAt_updateAt (f : Node → Node) (q : Path) :
  (∀ n, childNodesOf (f n) = childNodesOf n ∧ isElement (f n) = isElement n) →
  ∀ (ns : list Node) (p : Path) (n : Node),
    nodeAt p ns = Some n →
    ∃ n', nodeAt p (updateAt q f ns) = Some n'
          ∧ isElement n' = isElement n
          ∧ (if decide (p = q) then n' = f n else attrsOf n' = attrsOf n).
Proof.
  intros Hf. induction q as [|i q IH]; intros ns p n Hp.
  { exists n. cbn. split; [done|]. split; [done|].
    case_decide as Hpq; [|done]. by subst p. }
  destruct p as [|j p]; [done|].
  destruct (decide (j = i)) as [->|Hji].
  2: { exists n. split.
       - destruct q as [|k q]; cbn [updateAt];
           destruct p as [|l p]; cbn [nodeAt] in *;
           by rewrite list_lookup_alter_ne.
       - split; [done|]. rewrite decide_False by congruence. done. }
  destruct q as [|k q].
  - cbn [updateAt]. destruct p as [|l p]; cbn [nodeAt] in *.
    + rewrite list_lookup_alter_eq, Hp. cbn. exists (f n).
      split; [done|]. split; [apply Hf|]. by rewrite decide_True.
    + rewrite list_lookup_alter_eq.
      destruct (ns !! i) as [[s|t a cs]|]; [done| |done]. cbn.
      destruct (Hf (Elem t a cs)) as [Hcs Helem].
      destruct (f (Elem t a cs)) as [s'|t' a' cs']; [done|].
      cbn in Hcs. subst cs'.
      exists n. split; [done|]. split; [done|]. by rewrite decide_False.
  - change (updateAt (i :: k :: q) f ns)
      with (alter (fun n => match n with
                            | Text _ => n
                            | Elem t a cs => Elem t a (updateAt (k :: q) f cs)
                            end) i ns).
    destruct p as [|l p]; cbn [nodeAt] in *.
    + rewrite list_lookup_alter_eq, Hp. cbn. eexists. split; [reflexivity|].
      rewrite decide_False by done. by destruct n.
    + rewrite list_lookup_alter_eq.
      destruct (ns !! i) as [[s|t a cs]|]; [done| |done]. cbn.
      destruct (IH cs (l :: p) n Hp) as (n' & Hn' & Helem & Hattrs).
      exists n'. split; [exact Hn'|]. split; [exact Helem|].
      destruct (decide (l :: p = k :: q)) as [Heq|Hne].
      * rewrite decide_True by congruence.
        by rewrite decide_True in Hattrs by done.
      * rewrite decide_False by congruence.
        by rewrite decide_False in Hattrs by done.
Qed.

Lemma tagCell_keeps (tableIdx rowIdx cellIdx : nat) (n : Node) :
  childNodesOf (tagCell tableIdx rowIdx cellIdx n) = childNodesOf n
  ∧ isElement (tagCell tableIdx rowIdx cellIdx n) = isElement n.
Proof. by destruct n. Qed.

(** One step of the loops: it keeps the elements where they are and the
    identifiers that are there, and gives one to the cell it visits. *)
Lemma tagCell_step (tableIdx rowIdx cellIdx : nat) (q p : Path) (root : Container) :
  (elementAt root p →
   elementAt (updateAt q (tagCell tableIdx rowIdx cellIdx) root) p)
  ∧ (taggedAt root p →
     taggedAt (updateAt q (tagCell tableIdx rowIdx cellIdx) root) p)
  ∧ (elementAt root q →
     taggedAt (updateAt q (tagCell tableIdx rowIdx cellIdx) root) q).
Proof.
  split; [|split].
  - intros (n & Hn & Helem).
    destruct (nodeAt_updateAt _ q (tagCell_keeps tableIdx rowIdx cellIdx) root p n Hn)
      as (n' & Hn' & Helem' & _).
    exists n'. split; [exact Hn'|congruence].
  - intros (n & i & j & k & Hn & Helem & Hid).
    destruct (nodeAt_updateAt _ q (tagCell_keeps tableIdx rowIdx cellIdx) root p n Hn)
      as (n' & Hn' & Helem' & Hattrs).
    case_decide as Hpq.
    + subst n'. destruct n as [s|t a cs]; [done|].
      by exists (tagCell tableIdx rowIdx cellIdx (Elem t a cs)),
                tableIdx, rowIdx, cellIdx.
    + exists n', i, j, k. split; [exact Hn'|]. split; congruence.
  - intros (n & Hn & Helem).
    destruct (nodeAt_updateAt _ q (tagCell_keeps tableIdx rowIdx cellIdx) root q n Hn)
      as (n' & Hn' & Helem' & Hattrs).
    rewrite decide_True in Hattrs by done. subst n'.
    destruct n as [s|t a cs]; [done|].
    by exists (tagCell tableIdx rowIdx cellIdx (Elem t a cs)),
              tableIdx, rowIdx, cellIdx.
Qed.

(** A loop whose every step keeps [E] and [T], and whose step for [x]
    establishes [T] from [E]. *)
Lemma forEachFrom_establish {A St : Type} (f : A → nat → St → St)
    (E T : St → Prop) (l : list A) (x : A) :
  x ∈ l →
  (∀ y i s, E s → E (f y i s)) →
  (∀ y i s, T s → T (f y i s)) →
  (∀ i s, E s → T (f x i s)) →
  ∀ i s, E s → T (forEachFrom f i l s).
Proof.
  intros Hx HE HT Hest. induction l as [|y l IH]; intros i s Hs.
  { by apply elem_of_nil in Hx. }
  cbn [forEachFrom]. apply elem_of_cons in Hx as [->|Hx].
  - apply (forEachFrom_invariant T); [apply HT|]. by apply Hest.
  - apply IH; [done|]. by apply HE.
Qed.

(** X29.  After [loadDocument] has given the cells their identifiers, every
    [td] and [th] that lies in a row of a table of the document carries a
    [data-cell-id] of the form table-i-row-j-cell-k, at the place where the
    cell was; and every element of the document is still at its place. *)
Theorem cells_are_tagged (root : Container) (table row cell : Path * Node) :
  table ∈ queryAllAt sel_table root →
  row ∈ querySelectorAllAt sel_tr table →
  cell ∈ querySelectorAllAt sel_td_th row →
  taggedAt (tagCells root) (fst cell)
  ∧ (∀ p, elementAt root p → elementAt (tagCells root) p).
Proof.
  intros Htable Hrow Hcell.
  assert (∀ p tableIdx rowIdx (cells : list (Path * Node)) s,
            (elementAt s p →
             elementAt (forEach (fun c cellIdx s =>
                          updateAt (fst c) (tagCell tableIdx rowIdx cellIdx) s)
                          cells s) p)
            ∧ (taggedAt s p →
               taggedAt (forEach (fun c cellIdx s =>
                           updateAt (fst c) (tagCell tableIdx rowIdx cellIdx) s)
                           cells s) p)) as Hinner.
  { intros p ti ri cells s. split; intros H.
    - apply (forEach_invariant (fun s => elementAt s p)); [|done].
      intros c ci s' Hs'. by apply tagCell_step.
    - apply (forEach_invariant (fun s => taggedAt s p)); [|done].
      intros c ci s' Hs'. by apply tagCell_step. }
  assert (∀ p tableIdx (rows : list (Path * Node)) s,
            (elementAt s p →
             elementAt (forEach (fun r rowIdx s =>
                          forEach (fun c cellIdx s =>
                            updateAt (fst c) (tagCell tableIdx rowIdx cellIdx) s)
                            (querySelectorAllAt sel_td_th r) s) rows s) p)
            ∧ (taggedAt s p →
               taggedAt (forEach (fun r rowIdx s =>
                           forEach (fun c cellIdx s =>
                             updateAt (fst c) (tagCell tableIdx rowIdx cellIdx) s)
                             (querySelectorAllAt sel_td_th r) s) rows s) p))
    as Hmiddle.
  { intros p ti rows s. split; intros H.
    - apply (forEach_invariant (fun s => elementAt s p)); [|done].
      intros r ri s' Hs'. by apply Hinner.
    - apply (forEach_invariant (fun s => taggedAt s p)); [|done].
      intros r ri s' Hs'. by apply Hinner. }
  split.
  - assert (elementAt root (fst cell)) as Helem.
    { pose proof (queryAllAt_located sel_table root) as Hts.
      rewrite Forall_forall in Hts. destruct (Hts _ Htable) as [Hlt _].
      pose proof (querySelectorAllAt_located sel_tr root table Hlt) as Hrs.
      rewrite Forall_forall in Hrs. destruct (Hrs _ Hrow) as [Hlr _].
      pose proof (querySelectorAllAt_located sel_td_th root row Hlr) as Hcs.
      rewrite Forall_forall in Hcs. destruct (Hcs _ Hcell) as [Hlc Hsel].
      exists (snd cell). split; [exact Hlc|]. by destruct (snd cell). }
    unfold tagCells, forEach.
    apply (forEachFrom_establish _ (fun s => elementAt s (fst cell))
             (fun s => taggedAt s (fst cell)) _ table Htable); [| | |exact Helem].
    + intros t ti s Hs. by apply Hmiddle.
    + intros t ti s Hs. by apply Hmiddle.
    + intros ti s Hs.
      apply (forEachFrom_establish _ (fun s => elementAt s (fst cell))
               (fun s => taggedAt s (fst cell)) _ row Hrow); [| | |exact Hs].
      * intros r ri s' Hs'. by apply Hinner.
      * intros r ri s' Hs'. by apply Hinner.
      * intros ri s' Hs'.
        apply (forEachFrom_establish _ (fun s => elementAt s (fst cell))
                 (fun s => taggedAt s (fst cell)) _ cell Hcell); [| | |exact Hs'].
        -- intros c ci s'' Hs''. by apply tagCell_step.
        -- intros c ci s'' Hs''. by apply tagCell_step.
        -- intros ci s'' Hs''.
           destruct (tagCell_step ti ri ci (fst cell) (fst cell) s'')
             as (_ & _ & Hestablish).
           by apply Hestablish.
  - intros p Hp. unfold tagCells.
    apply (forEach_invariant (fun s => elementAt s p)); [|done].
    intros t ti s Hs. by apply Hmiddle.
Qed.

Lemma cells_are_tagged_witness :
  taggedAt (tagCells catalogEdited) [1; 0; 1; 1].
Proof.
  apply (cells_are_tagged catalogEdited
           ([1], table [ tr [ th "BG_ATN"; th "Material_CTG#" ];
                         tr [ td "Buffer"; td " CAT-123 " ] ])
           ([1; 0; 1], tr [ td "Buffer"; td " CAT-123 " ])
           ([1; 0; 1; 1], td " CAT-123 "));
    vm_compute; repeat constructor.
Defined.

End TagProofs.
